(** * Manufacturing data integration tool: the validation engine

    A shallow embedding of [src/data_validator.py] (class [DataValidator])
    and of the configuration records of [src/xml_parser.py]
    ([ValidationRule], [FieldMapping]), with the properties of the
    specification proved about it.

    Layout of the development:
    - Python scalars as they occur in the cells of a pandas frame, and the
      library operations the validator applies to them ([str], [float],
      [pd.isna], [re.match], [pd.to_datetime]);
    - pandas frames ([iterrows], [duplicated], [loc], [copy]) over a store
      of frame objects;
    - a state-and-exception monad for the methods of [DataValidator], which
      update [self.errors], [self.valid_rows], [self.invalid_rows] and
      [self._lookup_cache] in place and may raise;
    - the methods themselves, in the order of the source;
    - a weakest-precondition calculus for the monad and the theorems. *)

From Stdlib Require Import ZArith QArith Qcanon Ascii String List.
From stdpp Require Import base numbers strings list gmap sets pretty.

Open Scope string_scope.
Open Scope list_scope.
Open Scope Z_scope.

(** ** Python scalars *)

(** A Python [float]: IEEE special values and the finite values, the latter
    as exact rationals.  Python compares an [int] with a [float] by exact
    value, so the order below is the order [<] computes. *)
Inductive pyfloat :=
| FNaN
| FInf (neg : bool)
| FFin (q : Qc).

#[global] Instance pyfloat_eq_dec : EqDecision pyfloat.
Proof. solve_decision. Defined.

(** [x < y] on floats; every comparison with NaN is false. *)
Definition float_lt (x y : pyfloat) : bool :=
  match x, y with
  | FNaN, _ | _, FNaN => false
  | FInf true, FInf true => false
  | FInf true, _ => true
  | FInf false, _ => false
  | FFin _, FInf neg => negb neg
  | FFin a, FFin b => bool_decide (a < b)%Qc
  end.

(** A [Timestamp]: its instant in nanoseconds since the epoch (in UTC when
    it carries a timezone, on the wall clock when it is naive) and its
    timezone, if it has one. *)
Record Timestamp := mkTimestamp {
  instant : Z;
  tz : option string;
}.

#[global] Instance Timestamp_eq_dec : EqDecision Timestamp.
Proof. solve_decision. Defined.

(** The scalar held by one cell of a frame, or by a rule parameter:
    [None], [NaT], a [str], an [int] (of any size: a frame built from
    Python objects keeps them as they are), a [float] (NaN included) or a
    [Timestamp]. *)
Inductive Value :=
| VNone
| VNaT
| VStr (s : string)
| VInt (z : Z)
| VFloat (f : pyfloat)
| VTime (t : Timestamp).

#[global] Instance Value_eq_dec : EqDecision Value.
Proof. solve_decision. Defined.

(** [pd.isna(value)] on a scalar. *)
Definition isna (value : Value) : bool :=
  match value with
  | VNone | VNaT | VFloat FNaN => true
  | _ => false
  end.

(** Truth value of a scalar, as [if pattern] and [if min_date] test it. *)
Definition py_truthy (value : Value) : bool :=
  match value with
  | VNone => false
  | VStr s => negb (String.eqb s "")
  | VInt z => negb (z =? 0)
  | VFloat (FFin q) => negb (bool_decide (q = 0%Qc))
  | VFloat _ | VTime _ | VNaT => true
  end.

(** Truth value of the result of [dict.get]. *)
Definition opt_truthy (o : option Value) : bool :=
  match o with
  | Some v => py_truthy v
  | None => false
  end.

(** [x is not None] for the result of [dict.get]: an absent key reads as
    [None]. *)
Definition is_not_None (o : option Value) : bool :=
  match o with
  | None | Some VNone => false
  | Some _ => true
  end.

(** ** Regular expressions

    The compiled form of a pattern.  [RAny] is [.], [RSet] a character
    class given by ranges, [RBol] and [REol] the anchors [^] and [$]. *)
Inductive regex :=
| REps
| RChr (c : ascii)
| RAny
| RSet (neg : bool) (ranges : list (ascii * ascii))
| RCat (r1 r2 : regex)
| RAlt (r1 r2 : regex)
| RStar (r : regex)
| RBol
| REol.

Definition newline : ascii := Ascii.ascii_of_nat 10.

Definition in_range (c : ascii) (rg : ascii * ascii) : bool :=
  (Ascii.nat_of_ascii rg.1 <=? Ascii.nat_of_ascii c)%nat
  && (Ascii.nat_of_ascii c <=? Ascii.nat_of_ascii rg.2)%nat.

Definition in_class (neg : bool) (ranges : list (ascii * ascii)) (c : ascii) : bool :=
  xorb neg (existsb (in_range c) ranges).

(** One character of the subject at position [i], if it satisfies [p]. *)
Definition step_char (s : list ascii) (p : ascii -> bool) (i : nat) : list nat :=
  match s !! i with
  | Some c => if p c then [S i] else []
  | None => []
  end.

(** Positions reachable from [i] by repeating [step]; only a repetition
    that consumes input can reach a new position, so [fuel] bounds the
    number of repetitions by the length of the subject. *)
Fixpoint star_ends (step : nat -> list nat) (fuel : nat) (i : nat) : list nat :=
  i :: match fuel with
       | O => []
       | S fuel' =>
           flat_map (fun j => if decide (i < j)%nat then star_ends step fuel' j else [])
                    (step i)
       end.

(** [ends s r i]: the positions at which a match of [r] that starts at
    position [i] of [s] can end. *)
Fixpoint ends (s : list ascii) (r : regex) (i : nat) : list nat :=
  match r with
  | REps => [i]
  | RChr c => step_char s (Ascii.eqb c) i
  | RAny => step_char s (fun d => negb (Ascii.eqb d newline)) i
  | RSet neg ranges => step_char s (in_class neg ranges) i
  | RCat r1 r2 => flat_map (ends s r2) (ends s r1 i)
  | RAlt r1 r2 => ends s r1 i ++ ends s r2 i
  | RStar r1 => star_ends (ends s r1) (length s) i
  | RBol => if decide (i = 0)%nat then [i] else []
  | REol =>
      if decide (i = length s) then [i]
      else if decide (drop i s = [newline]) then [i] else []
  end.

(** [re.match(pattern, string)]: a match that starts at position 0 and
    ends anywhere. *)
Definition re_match (r : regex) (s : string) : bool :=
  match ends (list_ascii_of_string s) r 0 with
  | [] => false
  | _ :: _ => true
  end.

(** [re.fullmatch(pattern, string)]: a match of the whole subject.  The
    validator does not call it; it is here to compare with [re_match]. *)
Definition re_fullmatch (r : regex) (s : string) : bool :=
  bool_decide (length (list_ascii_of_string s) ∈ ends (list_ascii_of_string s) r 0).

(** [matches s r i j]: the regex [r] matches the part of the subject [s]
    between the positions [i] and [j].  This is the meaning of a regex;
    [ends] computes it ([ends_matches]). *)
Inductive matches (s : list ascii) : regex -> nat -> nat -> Prop :=
| matches_eps i : matches s REps i i
| matches_chr c i : s !! i = Some c -> matches s (RChr c) i (S i)
| matches_any c i : s !! i = Some c -> c <> newline -> matches s RAny i (S i)
| matches_set neg ranges c i :
    s !! i = Some c -> in_class neg ranges c = true -> matches s (RSet neg ranges) i (S i)
| matches_cat r1 r2 i k j :
    matches s r1 i k -> matches s r2 k j -> matches s (RCat r1 r2) i j
| matches_alt_l r1 r2 i j : matches s r1 i j -> matches s (RAlt r1 r2) i j
| matches_alt_r r1 r2 i j : matches s r2 i j -> matches s (RAlt r1 r2) i j
| matches_star_nil r i : matches s (RStar r) i i
| matches_star_cons r i k j :
    matches s r i k -> matches s (RStar r) k j -> matches s (RStar r) i j
| matches_bol : matches s RBol 0%nat 0%nat
| matches_eol i : i = length s \/ drop i s = [newline] -> matches s REol i i.

(** ** The Python and pandas runtime

    Library functions whose exact result the validator does not depend on:
    the float parser and printer, the pattern compiler and pandas' date
    parser.  Everything below is stated for an arbitrary runtime. *)
Class PyRuntime := {
  (** [float(s)] on a [str]; [None] is [ValueError]. *)
  float_of_str : string -> option pyfloat;
  (** [float(i)] on an integer: the nearest binary64 value; [None] is the
      [OverflowError] of an integer too large for a float. *)
  float_of_int : Z -> option pyfloat;
  (** [str(x)] on a [float]. *)
  str_of_float : pyfloat -> string;
  (** [str(t)] on a [Timestamp]. *)
  str_of_time : Timestamp -> string;
  (** [repr] of a list of [str], as an f-string prints it. *)
  repr_list : list string -> string;
  (** [re.compile(pattern)]; [None] is [re.error].  Patterns are those
      that denote a [regex]. *)
  re_compile : string -> option regex;
  (** The empty pattern compiles to the regex that matches the empty word. *)
  re_compile_empty : re_compile "" = Some REps;
  (** [pd.to_datetime(x)]: outer [None] is an exception, [Some None] is
      [NaT]. *)
  to_datetime : Value -> option (option Timestamp);
}.

(** ** Strings *)

(** [s.split(sep)] for a one-character separator. *)
Fixpoint str_split (sep : ascii) (s : string) : list string :=
  match s with
  | EmptyString => [EmptyString]
  | String c s' =>
      if Ascii.eqb c sep then EmptyString :: str_split sep s'
      else match str_split sep s' with
           | [] => [String c EmptyString]
           | w :: ws => String c w :: ws
           end
  end.

(** The characters [str.strip()] removes, among the first 256 code
    points: the ASCII whitespace, U+0085 and U+00A0. *)
Definition is_space (c : ascii) : bool :=
  let n := Ascii.nat_of_ascii c in
  ((9 <=? n) && (n <=? 13) || (28 <=? n) && (n <=? 32) || (n =? 133) || (n =? 160))%nat.

(** [s.strip() == ''] *)
Definition strip_is_empty (s : string) : bool :=
  forallb is_space (list_ascii_of_string s).

(** ** Configuration records ([xml_parser.py]) *)

Record ValidationRule := mkValidationRule {
  rule_type : string;
  parameters : gmap string Value;
}.

Record FieldMapping := mkFieldMapping {
  source_field : string;
  target_field : string;
  data_type : string;
  required : bool;
  validations : list ValidationRule;
}.

#[global] Instance ValidationRule_eq_dec : EqDecision ValidationRule.
Proof. solve_decision. Defined.

#[global] Instance FieldMapping_eq_dec : EqDecision FieldMapping.
Proof. solve_decision. Defined.

(** ** Validation errors *)

Record ValidationError := mkValidationError {
  row_index : Z;
  field_name : string;
  field_value : Value;
  error_type : string;
  error_message : string;
}.

#[global] Instance ValidationError_eq_dec : EqDecision ValidationError.
Proof. solve_decision. Defined.

(** ** Exceptions and results *)

Inductive exn :=
| ValueError (missing : gset string)
| KeyError (keys : list string)
| AttributeError
| TypeError
| ReError (pattern : string)
| IndexingError
| ZeroDivisionError
| OverflowError
| ReferenceError.

Inductive result (A : Type) :=
| Ok (a : A)
| Raise (e : exn).

Arguments Ok {A} a.
Arguments Raise {A} e.

(** ** pandas frames *)

(** A frame: its column labels and its rows in order, each row with its
    index label.  A row maps column labels to cells, as the row series of
    [iterrows] presents them. *)
Record DataFrame := mkDataFrame {
  df_columns : list string;
  df_rows : list (Z * gmap string Value);
}.

(** [df.index] *)
Definition df_index (df : DataFrame) : list Z := (df_rows df).*1.

(** [len(df)] *)
Definition df_len (df : DataFrame) : nat := length (df_rows df).

(** [df.empty]: no rows or no columns. *)
Definition df_empty (df : DataFrame) : bool :=
  match df_rows df, df_columns df with
  | [], _ | _, [] => true
  | _, _ => false
  end.

(** [pd.DataFrame()] *)
Definition empty_frame : DataFrame := mkDataFrame [] [].

(** [row.get(key)]: the cell, or [None] when the row has no such key. *)
Definition row_get (row : gmap string Value) (key : string) : Value :=
  default VNone (row !! key).

(** The cells of a row under the columns of [subset]. *)
Definition subset_key (subset : list string) (row : gmap string Value) : list (option Value) :=
  (fun f => row !! f) <$> subset.

(** The mask of [df.duplicated(subset, keep=False)] on a frame with rows:
    a row is marked when its key occurs at least twice in the frame. *)
Definition duplicated_mask (subset : list string) (rows : list (Z * gmap string Value)) : list bool :=
  let keys := (fun r => subset_key subset r.2) <$> rows in
  (fun k => bool_decide (2 <= length (filter (fun k' => k' = k) keys))%nat) <$> keys.

(** [df.duplicated(subset=subset, keep=False)]: an empty frame gives the
    empty mask; otherwise every label of [subset] must be a column. *)
Definition duplicated (df : DataFrame) (subset : list string) : result (list bool) :=
  if df_empty df then Ok []
  else
    match filter (fun f => f ∉ df_columns df) subset with
    | [] => Ok (duplicated_mask subset (df_rows df))
    | diff => Raise (KeyError diff)
    end.

(** Rows of [rows] under a mask of the same length. *)
Fixpoint mask_rows {A : Type} (rows : list A) (mask : list bool) : list A :=
  match rows, mask with
  | r :: rows', b :: mask' => if b then r :: mask_rows rows' mask' else mask_rows rows' mask'
  | _, _ => []
  end.

(** [df[mask]] for a boolean mask. *)
Definition getitem_mask (df : DataFrame) (mask : list bool) : result DataFrame :=
  if decide (length mask = length (df_rows df))
  then Ok (mkDataFrame (df_columns df) (mask_rows (df_rows df) mask))
  else Raise IndexingError.

(** The rows of [df.loc[labels]]: for each label in turn, the rows that
    carry it; a label that no row carries is a [KeyError]. *)
Fixpoint loc_rows (rows : list (Z * gmap string Value)) (labels : list Z)
  : result (list (Z * gmap string Value)) :=
  match labels with
  | [] => Ok []
  | l :: labels' =>
      match filter (fun r => r.1 = l) rows with
      | [] => Raise (KeyError [pretty l])
      | hit =>
          match loc_rows rows labels' with
          | Ok rest => Ok (hit ++ rest)
          | Raise e => Raise e
          end
      end
  end.

(** [df.loc[labels]] for a list of labels. *)
Definition loc_ (df : DataFrame) (labels : list Z) : result DataFrame :=
  match loc_rows (df_rows df) labels with
  | Ok rows => Ok (mkDataFrame (df_columns df) rows)
  | Raise e => Raise e
  end.

(** [l.remove(x)]: drops the first occurrence. *)
Fixpoint list_remove (x : Z) (l : list Z) : list Z :=
  match l with
  | [] => []
  | y :: l' => if decide (x = y) then l' else y :: list_remove x l'
  end.

(** ** The validator object and the store *)

(** The attributes of a [DataValidator]. *)
Record DataValidator := mkDataValidator {
  field_mappings : list FieldMapping;
  global_validations : list (gmap string Value);
  errors : list ValidationError;
  valid_rows : list Z;
  invalid_rows : list Z;
  _lookup_cache : gmap string (gset string);
}.

(** Frame objects are held in a store and passed by reference; the
    validator is the object [self]. *)
Record World := mkWorld {
  heap : gmap positive DataFrame;
  self : DataValidator;
}.

(** A method: reads and updates the world, returns or raises.  The world
    is kept when an exception is raised: updates made before it stay. *)
Definition M (A : Type) : Type := World -> result A * World.

Definition ret {A} (a : A) : M A := fun w => (Ok a, w).

Definition raise {A} (e : exn) : M A := fun w => (Raise e, w).

Definition bind {A B} (m : M A) (k : A -> M B) : M B :=
  fun w =>
    match m w with
    | (Ok a, w') => k a w'
    | (Raise e, w') => (Raise e, w')
    end.

Declare Scope py_scope.
Delimit Scope py_scope with py.
Notation "x <- m ;; k" := (bind m (fun x => k))
  (at level 100, m at next level, right associativity) : py_scope.
Notation "m ;; k" := (bind m (fun _ => k))
  (at level 100, right associativity) : py_scope.
Open Scope py_scope.

(** A computation that cannot touch the world. *)
Definition lift {A} (r : result A) : M A := fun w => (r, w).

Definition get_self {A} (proj : DataValidator -> A) : M A :=
  fun w => (Ok (proj (self w)), w).

Definition modify_self (f : DataValidator -> DataValidator) : M unit :=
  fun w => (Ok tt, mkWorld (heap w) (f (self w))).

Definition set_errors (v : list ValidationError) (s : DataValidator) : DataValidator :=
  mkDataValidator (field_mappings s) (global_validations s) v
                  (valid_rows s) (invalid_rows s) (_lookup_cache s).

Definition set_valid_rows (v : list Z) (s : DataValidator) : DataValidator :=
  mkDataValidator (field_mappings s) (global_validations s) (errors s)
                  v (invalid_rows s) (_lookup_cache s).

Definition set_invalid_rows (v : list Z) (s : DataValidator) : DataValidator :=
  mkDataValidator (field_mappings s) (global_validations s) (errors s)
                  (valid_rows s) v (_lookup_cache s).

Definition set_lookup_cache (v : gmap string (gset string)) (s : DataValidator) : DataValidator :=
  mkDataValidator (field_mappings s) (global_validations s) (errors s)
                  (valid_rows s) (invalid_rows s) v.

(** Reading the frame behind a reference. *)
Definition get_frame (df : positive) : M DataFrame :=
  fun w =>
    match heap w !! df with
    | Some d => (Ok d, w)
    | None => (Raise ReferenceError, w)
    end.

(** A new frame object; its reference is fresh for the store. *)
Definition new_frame (d : DataFrame) : M positive :=
  fun w =>
    let l := fresh (dom (heap w)) in
    (Ok l, mkWorld (<[l := d]> (heap w)) (self w)).

(** [for x in l: body(x)] *)
Fixpoint for_each {A} (l : list A) (body : A -> M unit) : M unit :=
  match l with
  | [] => ret tt
  | x :: l' => body x ;; for_each l' body
  end.

(** A loop that threads a local variable through its iterations. *)
Fixpoint fold_loop {A B} (l : list A) (body : B -> A -> M B) (acc : B) : M B :=
  match l with
  | [] => ret acc
  | x :: l' => acc' <- body acc x ;; fold_loop l' body acc'
  end.

(** ** The methods of [DataValidator] *)

Section Validator.
Context `{PyRuntime}.

(** [str(value)] *)
Definition py_str (value : Value) : string :=
  match value with
  | VNone => "None"
  | VNaT => "NaT"
  | VStr s => s
  | VInt z => pretty z
  | VFloat f => str_of_float f
  | VTime t => str_of_time t
  end.

(** What [float(value)] does: it returns a number, it raises
    [ValueError] or [TypeError] on a value that is not a number, or it
    raises [OverflowError] on an integer too large for a float. *)
Inductive coercion :=
| Number (x : pyfloat)
| NotANumber
| TooLarge.

(** [float(value)] *)
Definition py_float (value : Value) : coercion :=
  match value with
  | VStr s => match float_of_str s with Some x => Number x | None => NotANumber end
  | VInt z => match float_of_int z with Some x => Number x | None => TooLarge end
  | VFloat f => Number f
  | VNone | VNaT | VTime _ => NotANumber
  end.

(** A rule parameter as a number, for [<] and [>] against a [float];
    [None] is the [TypeError] of comparing a [float] with something else. *)
Definition number_of (v : Value) : option pyfloat :=
  match v with
  | VInt z => Some (FFin (Qc_of_Z z))
  | VFloat f => Some f
  | _ => None
  end.

(** [num_val < bound] *)
Definition float_lt_value (num_val : pyfloat) (bound : Value) : option bool :=
  match number_of bound with
  | Some b => Some (float_lt num_val b)
  | None => None
  end.

(** [num_val > bound] *)
Definition float_gt_value (num_val : pyfloat) (bound : Value) : option bool :=
  match number_of bound with
  | Some b => Some (float_lt b num_val)
  | None => None
  end.

(** [dict.get(key)] read as a value: an absent key gives [None]. *)
Definition py_get (d : gmap string Value) (key : string) : Value :=
  default VNone (d !! key).

(** The branch [rule_type == 'not_null']. *)
Definition rule_not_null (idx : Z) (field : string) (value : Value) : option ValidationError :=
  if isna value || strip_is_empty (py_str value)
  then Some (mkValidationError idx field value "NOT_NULL" (field +:+ " cannot be null"))
  else None.

(** The comparisons of the branch [rule_type == 'range'] on the number
    [num_val]; a [TypeError] in a comparison gives the [NUMERIC] error. *)
Definition range_check (idx : Z) (field : string) (value : Value) (rule : ValidationRule)
    (num_val : pyfloat) : option ValidationError :=
  let numeric :=
    Some (mkValidationError idx field value "NUMERIC"
            (field +:+ "='" +:+ py_str value +:+ "' is not a valid number")) in
  let min_val := parameters rule !! "min" in
  let max_val := parameters rule !! "max" in
  match (if is_not_None min_val
         then float_lt_value num_val (default VNone min_val) else Some false) with
  | None => numeric
  | Some true =>
      Some (mkValidationError idx field value "RANGE"
              (field +:+ "=" +:+ str_of_float num_val +:+ " below minimum "
                 +:+ py_str (default VNone min_val)))
  | Some false =>
      match (if is_not_None max_val
             then float_gt_value num_val (default VNone max_val) else Some false) with
      | None => numeric
      | Some true =>
          Some (mkValidationError idx field value "RANGE"
                  (field +:+ "=" +:+ str_of_float num_val +:+ " exceeds maximum "
                     +:+ py_str (default VNone max_val)))
      | Some false => None
      end
  end.

(** The branch [rule_type == 'range'].  The [except (ValueError,
    TypeError)] clause covers the coercion and both comparisons; the
    [OverflowError] of the coercion is not caught. *)
Definition rule_range (idx : Z) (field : string) (value : Value) (rule : ValidationRule)
  : result (option ValidationError) :=
  match py_float value with
  | TooLarge => Raise OverflowError
  | NotANumber =>
      Ok (Some (mkValidationError idx field value "NUMERIC"
                  (field +:+ "='" +:+ py_str value +:+ "' is not a valid number")))
  | Number num_val => Ok (range_check idx field value rule num_val)
  end.

(** The branch [rule_type == 'regex'].  [re.match] raises [TypeError] on
    a pattern that is not a string and [re.error] on one that does not
    compile; neither is caught. *)
Definition rule_regex (idx : Z) (field : string) (value : Value) (rule : ValidationRule)
  : result (option ValidationError) :=
  let pattern := parameters rule !! "pattern" in
  if opt_truthy pattern then
    match pattern with
    | Some (VStr p) =>
        match re_compile p with
        | None => Raise (ReError p)
        | Some r =>
            if re_match r (py_str value) then Ok None
            else
              let desc :=
                default (VStr ("match pattern " +:+ p)) (parameters rule !! "description") in
              Ok (Some (mkValidationError idx field value "REGEX"
                          (field +:+ "='" +:+ py_str value
                             +:+ "' does not match required format: " +:+ py_str desc)))
        end
    | _ => Raise TypeError
    end
  else Ok None.

(** A value on the left of [<] or [>] against a [Timestamp]; outer [None]
    is [TypeError], [Some None] is [NaT]. *)
Definition as_timestamp (v : Value) : option (option Timestamp) :=
  match v with
  | VTime t => Some (Some t)
  | VNaT => Some None
  | _ => None
  end.

(** Two timestamps can be ordered when both carry a timezone or both
    are naive. *)
Definition comparable (x y : Timestamp) : bool :=
  Bool.eqb (bool_decide (tz x = None)) (bool_decide (tz y = None)).

(** [a < b] on timestamps; comparisons with [NaT] are false, and [None]
    is the [TypeError] of comparing a timestamp that carries a timezone
    with a naive one. *)
Definition time_lt (a b : option Timestamp) : option bool :=
  match a, b with
  | Some x, Some y => if comparable x y then Some (instant x <? instant y) else None
  | _, _ => Some false
  end.

(** [if bound and cmp(dt_val, pd.to_datetime(bound))]; [None] is any
    exception raised on the way. *)
Definition date_check (cmp : option Timestamp -> option Timestamp -> option bool)
    (dt_val : Value) (bound : option Value) : option bool :=
  if opt_truthy bound then
    match to_datetime (default VNone bound) with
    | None => None
    | Some b =>
        match as_timestamp dt_val with
        | None => None
        | Some a => cmp a b
        end
    end
  else Some false.

(** The branch [rule_type == 'date_range']; [except Exception] covers the
    whole branch. *)
Definition rule_date_range (idx : Z) (field : string) (value : Value) (rule : ValidationRule)
  : option ValidationError :=
  let bad :=
    Some (mkValidationError idx field value "DATE_FORMAT"
            (field +:+ "='" +:+ py_str value +:+ "' is not a valid date")) in
  let dt :=
    match value with
    | VStr _ =>
        match to_datetime value with
        | Some (Some t) => Some (VTime t)
        | Some None => Some VNaT
        | None => None
        end
    | _ => Some value
    end in
  match dt with
  | None => bad
  | Some dt_val =>
      let min_date := parameters rule !! "min" in
      let max_date := parameters rule !! "max" in
      match date_check time_lt dt_val min_date with
      | None => bad
      | Some true =>
          Some (mkValidationError idx field value "DATE_RANGE"
                  (field +:+ " date before minimum " +:+ py_str (default VNone min_date)))
      | Some false =>
          match date_check (fun a b => time_lt b a) dt_val max_date with
          | None => bad
          | Some true =>
              Some (mkValidationError idx field value "DATE_RANGE"
                      (field +:+ " date after maximum " +:+ py_str (default VNone max_date)))
          | Some false => None
          end
      end
  end.

(** The product codes the lookup branch knows. *)
Definition valid_products : gset string :=
  {[ "PROD-A1"; "PROD-B2"; "PROD-C3"; "PROD-D4" ]}.

(** The branch [rule_type == 'lookup']: an entry for the key is made in
    [self._lookup_cache] if there is none, then the value is checked
    against [valid_products] when the column is ['ProductCode']. *)
Definition rule_lookup (idx : Z) (field : string) (value : Value) (rule : ValidationRule)
  : M (option ValidationError) :=
  let lookup_table := py_get (parameters rule) "table" in
  let lookup_column := py_get (parameters rule) "column" in
  let cache_key := py_str lookup_table +:+ "." +:+ py_str lookup_column in
  cache <- get_self _lookup_cache ;;
  (if bool_decide (cache_key ∈ dom cache) then ret tt
   else modify_self (set_lookup_cache (<[cache_key := ∅]> cache))) ;;
  if bool_decide (lookup_column = VStr "ProductCode")
     && negb (bool_decide (py_str value ∈ valid_products))
  then ret (Some (mkValidationError idx field value "LOOKUP"
                    (field +:+ "='" +:+ py_str value +:+ "' not found in "
                       +:+ py_str lookup_table)))
  else ret None.

(** [_apply_rule(idx, field, value, rule)]: dispatch on the rule type; an
    unknown type yields [None]. *)
Definition _apply_rule (idx : Z) (field : string) (value : Value) (rule : ValidationRule)
  : M (option ValidationError) :=
  if String.eqb (rule_type rule) "not_null" then ret (rule_not_null idx field value)
  else if String.eqb (rule_type rule) "range" then lift (rule_range idx field value rule)
  else if String.eqb (rule_type rule) "regex" then lift (rule_regex idx field value rule)
  else if String.eqb (rule_type rule) "date_range" then ret (rule_date_range idx field value rule)
  else if String.eqb (rule_type rule) "lookup" then rule_lookup idx field value rule
  else ret None.

(** The body of the loop over [mapping.validations]: one rule applied,
    its error appended to the local list [errors]. *)
Definition _validate_row_rule (idx : Z) (field_name : string) (value : Value)
    (errors : list ValidationError) (rule : ValidationRule) : M (list ValidationError) :=
  error <- _apply_rule idx field_name value rule ;;
  match error with
  | Some e => ret (errors ++ [e])
  | None => ret errors
  end.

(** The body of the loop over [self.field_mappings] in [_validate_row]. *)
Definition _validate_row_field (idx : Z) (row : gmap string Value)
    (errors : list ValidationError) (mapping : FieldMapping) : M (list ValidationError) :=
  let field_name := source_field mapping in
  let value := row_get row field_name in
  if required mapping && isna value then
    ret (errors ++ [mkValidationError idx field_name value "REQUIRED_FIELD_MISSING"
                      ("Required field '" +:+ field_name +:+ "' is empty")])
  else if isna value && negb (required mapping) then ret errors
  else fold_loop (validations mapping) (_validate_row_rule idx field_name value) errors.

(** [_validate_row(idx, row)] *)
Definition _validate_row (idx : Z) (row : gmap string Value) : M (list ValidationError) :=
  mappings <- get_self field_mappings ;;
  fold_loop mappings (_validate_row_field idx row) [].

(** [_validate_columns(df)] *)
Definition _validate_columns (df : positive) : M unit :=
  mappings <- get_self field_mappings ;;
  let required_cols := source_field <$> mappings in
  d <- get_frame df ;;
  let missing : gset string := list_to_set required_cols ∖ list_to_set (df_columns d) in
  if decide (missing = ∅) then ret tt else raise (ValueError missing).

(** [rule[key]] on a dictionary. *)
Definition dict_getitem (d : gmap string Value) (key : string) : M Value :=
  match d !! key with
  | Some v => ret v
  | None => raise (KeyError [key])
  end.

(** [v.split(',')]; only a [str] has the method. *)
Definition py_split (v : Value) : M (list string) :=
  match v with
  | VStr s => ret (str_split "," s)
  | _ => raise AttributeError
  end.

(** [df[mask]]: a new frame object. *)
Definition frame_getitem (df : positive) (mask : list bool) : M positive :=
  d <- get_frame df ;;
  sel <- lift (getitem_mask d mask) ;;
  new_frame sel.

(** [df.loc[labels]]: a new frame object. *)
Definition frame_loc (df : positive) (labels : list Z) : M positive :=
  d <- get_frame df ;;
  sel <- lift (loc_ d labels) ;;
  new_frame sel.

(** [df.copy()]: a new frame object with the same content. *)
Definition frame_copy (df : positive) : M positive :=
  d <- get_frame df ;;
  new_frame d.

(** The error recorded for a duplicate row. *)
Definition duplicate_error (fields : list string) (idx : Z) : ValidationError :=
  mkValidationError idx (String.concat "," fields) (VStr "multiple") "DUPLICATE"
                    ("Duplicate combination of " +:+ repr_list fields).

(** The body of the loop over [duplicates.index]. *)
Definition _demote (fields : list string) (idx : Z) : M unit :=
  inv <- get_self invalid_rows ;;
  if bool_decide (idx ∈ inv) then ret tt
  else
    modify_self (fun s => set_invalid_rows (invalid_rows s ++ [idx]) s) ;;
    val <- get_self valid_rows ;;
    (if bool_decide (idx ∈ val)
     then modify_self (fun s => set_valid_rows (list_remove idx (valid_rows s)) s)
     else ret tt) ;;
    modify_self (fun s => set_errors (errors s ++ [duplicate_error fields idx]) s).

(** The body of the loop over [self.global_validations]. *)
Definition _global_rule (df : positive) (rule : gmap string Value) : M unit :=
  rt <- dict_getitem rule "rule_type" ;;
  if bool_decide (rt = VStr "duplicate_check") then
    fv <- dict_getitem rule "fields" ;;
    fields <- py_split fv ;;
    d <- get_frame df ;;
    mask <- lift (duplicated d fields) ;;
    duplicates <- frame_getitem df mask ;;
    dup <- get_frame duplicates ;;
    for_each (df_index dup) (_demote fields)
  else ret tt.

(** [_run_global_validations(df)] *)
Definition _run_global_validations (df : positive) : M unit :=
  rules <- get_self global_validations ;;
  for_each rules (_global_rule df).

(** [_print_summary(total, valid, invalid)].  Printed text is not part of
    the world; what remains is the division [valid/total], which raises
    when [total] is zero. *)
Definition _print_summary (total valid invalid : nat) : M unit :=
  if decide (total = 0%nat) then raise ZeroDivisionError else ret tt.

(** [df.loc[labels].copy() if labels else pd.DataFrame()] *)
Definition select_rows (df : positive) (labels : list Z) : M positive :=
  match labels with
  | [] => new_frame empty_frame
  | _ :: _ => picked <- frame_loc df labels ;; frame_copy picked
  end.

(** The body of the loop over [df.iterrows()]. *)
Definition _validate_one (r : Z * gmap string Value) : M unit :=
  row_errors <- _validate_row r.1 r.2 ;;
  match row_errors with
  | _ :: _ =>
      modify_self (fun s => set_invalid_rows (invalid_rows s ++ [r.1]) s) ;;
      modify_self (fun s => set_errors (errors s ++ row_errors) s)
  | [] => modify_self (fun s => set_valid_rows (valid_rows s ++ [r.1]) s)
  end.

(** [validate_dataframe(df)]: returns the references of the frames of
    valid and of invalid records. *)
Definition validate_dataframe (df : positive) : M (positive * positive) :=
  modify_self (set_errors []) ;;
  modify_self (set_valid_rows []) ;;
  modify_self (set_invalid_rows []) ;;
  _validate_columns df ;;
  d <- get_frame df ;;
  for_each (df_rows d) _validate_one ;;
  _run_global_validations df ;;
  valid <- get_self valid_rows ;;
  valid_df <- select_rows df valid ;;
  invalid <- get_self invalid_rows ;;
  invalid_df <- select_rows df invalid ;;
  total <- get_frame df ;;
  n_valid <- get_frame valid_df ;;
  n_invalid <- get_frame invalid_df ;;
  _print_summary (df_len total) (df_len n_valid) (df_len n_invalid) ;;
  ret (valid_df, invalid_df).

End Validator.

(** ** A small runtime, to run the validator on examples

    It reads plain decimal literals as floats, compiles patterns made of
    literal characters, [.], [^], [$], [\d] and the postfix operators
    [*], [+], [?] and [{n}], and reads a string of digits as a timestamp,
    one with a timezone when a [Z] follows the digits.  The theorems
    below do not depend on it. *)
Module Demo.

Definition digit_of (c : ascii) : option Z :=
  let n := Ascii.nat_of_ascii c in
  if ((48 <=? n) && (n <=? 57))%nat then Some (Z.of_nat n - 48) else None.

(** The number written by a non-empty list of decimal digits, after [acc]. *)
Fixpoint digits_from (acc : Z) (l : list ascii) : option Z :=
  match l with
  | [] => Some acc
  | c :: l' =>
      match digit_of c with
      | Some d => digits_from (10 * acc + d) l'
      | None => None
      end
  end.

Definition digits (l : list ascii) : option Z :=
  match l with
  | [] => None
  | _ => digits_from 0 l
  end.

(** An unsigned literal [ddd] or [ddd.ddd] as a rational. *)
Definition unsigned_literal (l : list ascii) : option Qc :=
  match str_split "." (string_of_list_ascii l) with
  | [i] =>
      n ← digits (list_ascii_of_string i); Some (Qc_of_Z n)
  | [i; f] =>
      n ← digits (list_ascii_of_string i);
      m ← digits (list_ascii_of_string f);
      Some (Qc_of_Z n + Q2Qc (m # Pos.pow 10 (Pos.of_nat (String.length f))))%Qc
  | _ => None
  end.

Definition parse_float (s : string) : option pyfloat :=
  match list_ascii_of_string s with
  | "-"%char :: l => q ← unsigned_literal l; Some (FFin (- q)%Qc)
  | l => FFin <$> unsigned_literal l
  end.

Definition print_float (f : pyfloat) : string :=
  match f with
  | FNaN => "nan"
  | FInf true => "-inf"
  | FInf false => "inf"
  | FFin q =>
      match Qden q with
      | 1%positive => pretty (Qnum q) +:+ ".0"
      | d => pretty (Qnum q) +:+ "/" +:+ pretty (Z.pos d)
      end
  end.

Definition print_list (l : list string) : string :=
  "[" +:+ String.concat ", " ((fun s => "'" +:+ s +:+ "'") <$> l) +:+ "]".

Definition is_operator (c : ascii) : bool :=
  bool_decide (c ∈ ["*"; "+"; "?"; "{"; "}"; "("; ")"; "["; "]"; "|"]%char).

(** [r] repeated [n] times. *)
Fixpoint repeat_regex (r : regex) (n : nat) : regex :=
  match n with
  | O => REps
  | S n' => RCat r (repeat_regex r n')
  end.

(** One atom at the head of the pattern, and the rest. *)
Definition parse_atom (l : list ascii) : option (regex * list ascii) :=
  match l with
  | [] => None
  | "\"%char :: "d"%char :: l' => Some (RSet false [("0", "9")]%char, l')
  | "\"%char :: c :: l' => Some (RChr c, l')
  | "\"%char :: [] => None
  | "."%char :: l' => Some (RAny, l')
  | "^"%char :: l' => Some (RBol, l')
  | "$"%char :: l' => Some (REol, l')
  | c :: l' => if is_operator c then None else Some (RChr c, l')
  end.

(** A postfix operator after the atom [r], if there is one. *)
Definition parse_postfix (r : regex) (l : list ascii) : option (regex * list ascii) :=
  match l with
  | "*"%char :: l' => Some (RStar r, l')
  | "+"%char :: l' => Some (RCat r (RStar r), l')
  | "?"%char :: l' => Some (RAlt r REps, l')
  | "{"%char :: c :: "}"%char :: l' =>
      n ← digit_of c; Some (repeat_regex r (Z.to_nat n), l')
  | _ => Some (r, l)
  end.

Fixpoint parse_pattern (fuel : nat) (l : list ascii) : option regex :=
  match l, fuel with
  | [], _ => Some REps
  | _, O => None
  | _, S fuel' =>
      '(a, l1) ← parse_atom l;
      '(r, l2) ← parse_postfix a l1;
      rest ← parse_pattern fuel' l2;
      Some (match rest with REps => r | _ => RCat r rest end)
  end.

Definition compile (p : string) : option regex :=
  parse_pattern (String.length p) (list_ascii_of_string p).

(** A string of digits is read as a naive instant, and as an instant in
    UTC when a [Z] follows the digits. *)
Definition parse_instant (s : string) : option Timestamp :=
  match reverse (list_ascii_of_string s) with
  | "Z"%char :: l => (fun z => mkTimestamp z (Some "UTC")) <$> digits (reverse l)
  | _ => (fun z => mkTimestamp z None) <$> digits (list_ascii_of_string s)
  end.

Definition parse_datetime (v : Value) : option (option Timestamp) :=
  match v with
  | VStr s => Some <$> parse_instant s
  | VInt z => Some (Some (mkTimestamp z None))
  | VTime t => Some (Some t)
  | VNone | VNaT => Some None
  | VFloat _ => None
  end.

Definition print_time (t : Timestamp) : string :=
  match tz t with
  | None => pretty (instant t)
  | Some zone => pretty (instant t) +:+ "+" +:+ zone
  end.

#[export] Instance runtime : PyRuntime := {|
  float_of_str := parse_float;
  float_of_int := fun z =>
    if bool_decide (Z.abs z < 2 ^ 1024 - 2 ^ 970) then Some (FFin (Qc_of_Z z)) else None;
  str_of_float := print_float;
  str_of_time := print_time;
  repr_list := print_list;
  re_compile := compile;
  re_compile_empty := eq_refl;
  to_datetime := parse_datetime;
|}.

(** *** A configuration and batches in the style of the test suite *)

Definition dict (l : list (string * Value)) : gmap string Value := list_to_map l.

Definition line_rule : ValidationRule :=
  mkValidationRule "regex" (dict [("pattern", VStr "^LINE\d{3}$")]).

Definition product_rule : ValidationRule :=
  mkValidationRule "lookup"
    (dict [("table", VStr "Products"); ("column", VStr "ProductCode")]).

Definition operator_rule : ValidationRule :=
  mkValidationRule "lookup"
    (dict [("table", VStr "Operators"); ("column", VStr "OperatorID")]).

Definition temperature_rule : ValidationRule :=
  mkValidationRule "range" (dict [("min", VInt 0); ("max", VInt 250)]).

Definition humidity_rule : ValidationRule :=
  mkValidationRule "range" (dict [("min", VInt 0); ("max", VInt 100)]).

Definition line_field : FieldMapping :=
  mkFieldMapping "line_id" "ProductionLineID" "string" true [line_rule].

Definition product_field : FieldMapping :=
  mkFieldMapping "product_code" "ProductCode" "string" true [product_rule].

Definition temperature_field : FieldMapping :=
  mkFieldMapping "temperature_c" "TemperatureCelsius" "float" true [temperature_rule].

Definition humidity_field : FieldMapping :=
  mkFieldMapping "humidity_pct" "HumidityPercent" "float" false [humidity_rule].

Definition schema : list FieldMapping :=
  [line_field; product_field; temperature_field; humidity_field].

Definition dataset_rules : list (gmap string Value) :=
  [ dict [("rule_type", VStr "duplicate_check"); ("fields", VStr "line_id,batch_number")] ].

Definition validator : DataValidator :=
  mkDataValidator schema dataset_rules [] [] [] ∅.

Definition columns : list string :=
  ["line_id"; "batch_number"; "product_code"; "temperature_c"; "humidity_pct"].

Definition record (line batch product : string) (temperature : Value) (humidity : Value)
  : gmap string Value :=
  dict [("line_id", VStr line); ("batch_number", VStr batch); ("product_code", VStr product);
        ("temperature_c", temperature); ("humidity_pct", humidity)].

Definition degrees (z : Z) : Value := VFloat (FFin (Qc_of_Z z)).

(** Rows 0 and 2 agree on line and batch; row 1 is too hot; row 3 is
    fine.  Humidity is missing in row 0. *)
Definition batch : DataFrame :=
  mkDataFrame columns
    [ (0, record "LINE001" "B001" "PROD-A1" (degrees 150) (VFloat FNaN));
      (1, record "LINE002" "B002" "PROD-B2" (degrees 300) (degrees 50));
      (2, record "LINE001" "B001" "PROD-A1" (degrees 155) (degrees 51));
      (3, record "LINE003" "B003" "PROD-C3" (degrees 160) (degrees 52)) ].

(** The same columns and no record. *)
Definition empty_batch : DataFrame := mkDataFrame columns [].

(** One record whose temperature is an integer too large for a float. *)
Definition huge_batch : DataFrame :=
  mkDataFrame columns
    [ (0, record "LINE001" "B001" "PROD-A1" (VInt (10 ^ 400)) (degrees 50)) ].

(** Two records under the same index label; the second is too hot. *)
Definition relabelled_batch : DataFrame :=
  mkDataFrame columns
    [ (0, record "LINE001" "B001" "PROD-A1" (degrees 150) (degrees 50));
      (0, record "LINE002" "B002" "PROD-B2" (degrees 300) (degrees 50)) ].

(** A batch without the column [temperature_c]. *)
Definition short_batch : DataFrame :=
  mkDataFrame ["line_id"; "batch_number"; "product_code"; "humidity_pct"]
    [ (0, dict [("line_id", VStr "LINE001"); ("batch_number", VStr "B001");
                ("product_code", VStr "PROD-A1"); ("humidity_pct", degrees 50)]) ].

(** The caller's frame is object 1 of the store. *)
Definition world (d : DataFrame) : World := mkWorld {[ 1%positive := d ]} validator.

End Demo.

(** ** The dataset phase read as a function on the validator's lists

    The loops of [_run_global_validations] only read the frame and update
    the three lists of the validator; the definitions below say what they
    compute, and [run_global_validations_reading] proves it. *)

Section Readings.
Context `{PyRuntime}.

(** One iteration of the loop over [duplicates.index]. *)
Definition demote (fields : list string) (idx : Z) (s : DataValidator) : DataValidator :=
  if bool_decide (idx ∈ invalid_rows s) then s
  else
    let s1 := set_invalid_rows (invalid_rows s ++ [idx]) s in
    let s2 :=
      if bool_decide (idx ∈ valid_rows s1)
      then set_valid_rows (list_remove idx (valid_rows s1)) s1 else s1 in
    set_errors (errors s2 ++ [duplicate_error fields idx]) s2.

(** The whole loop over [duplicates.index]. *)
Definition demote_all (fields : list string) (idxs : list Z) (s : DataValidator) : DataValidator :=
  foldl (fun s idx => demote fields idx s) s idxs.

(** What one dataset rule asks for on the frame [d]: nothing when it is
    not a duplicate check, else the compared fields and the labels of the
    duplicated rows, or the exception it raises. *)
Definition rule_duplicates (d : DataFrame) (rule : gmap string Value)
  : result (option (list string * list Z)) :=
  match rule !! "rule_type" with
  | None => Raise (KeyError ["rule_type"])
  | Some rt =>
      if bool_decide (rt = VStr "duplicate_check") then
        match rule !! "fields" with
        | None => Raise (KeyError ["fields"])
        | Some (VStr s) =>
            match duplicated d (str_split "," s) with
            | Raise e => Raise e
            | Ok mask =>
                match getitem_mask d mask with
                | Raise e => Raise e
                | Ok dup => Ok (Some (str_split "," s, df_index dup))
                end
            end
        | Some _ => Raise AttributeError
        end
      else Ok None
  end.

(** The loop over the dataset rules: the result and the final lists. *)
Fixpoint run_rules (d : DataFrame) (rules : list (gmap string Value)) (s : DataValidator)
  : result unit * DataValidator :=
  match rules with
  | [] => (Ok tt, s)
  | rule :: rest =>
      match rule_duplicates d rule with
      | Raise e => (Raise e, s)
      | Ok None => run_rules d rest s
      | Ok (Some (fields, idxs)) => run_rules d rest (demote_all fields idxs s)
      end
  end.

(** The errors a field contributes under a null value: one
    [REQUIRED_FIELD_MISSING] when the field is required, none otherwise. *)
Definition null_contribution (idx : Z) (row : gmap string Value) (mapping : FieldMapping)
  : list ValidationError :=
  if required mapping
  then [mkValidationError idx (source_field mapping) (row_get row (source_field mapping))
          "REQUIRED_FIELD_MISSING"
          ("Required field '" +:+ source_field mapping +:+ "' is empty")]
  else [].

(** The validator after [validate_dataframe] has emptied its three lists. *)
Definition reset_lists (s : DataValidator) : DataValidator :=
  set_invalid_rows [] (set_valid_rows [] (set_errors [] s)).

(** A bound of a range rule as the schema gives it: absent, [None], or a
    number. *)
Definition bound_ok (o : option Value) : Prop :=
  match o with
  | None | Some VNone | Some (VInt _) | Some (VFloat _) => True
  | Some _ => False
  end.

(** A dataset rule as the configuration parser builds it: it has a rule
    type, and a duplicate check names its fields in a string. *)
Definition dataset_rule_ok (rule : gmap string Value) : Prop :=
  is_Some (rule !! "rule_type")
  /\ (rule !! "rule_type" = Some (VStr "duplicate_check") ->
      exists s, rule !! "fields" = Some (VStr s)).

(** A regex without the anchor [$]. *)
Fixpoint eol_free (r : regex) : bool :=
  match r with
  | REol => false
  | RCat r1 r2 | RAlt r1 r2 => eol_free r1 && eol_free r2
  | RStar r1 => eol_free r1
  | _ => true
  end.

(** The supplied bound of a range rule under [key], as a number. *)
Definition range_bound (rule : ValidationRule) (key : string) : option pyfloat :=
  parameters rule !! key ≫= number_of.

(** [x] is strictly below the lower bound or strictly above the upper
    bound, where a bound is checked only if it is supplied. *)
Definition out_of_range (x : pyfloat) (lo hi : option pyfloat) : bool :=
  from_option (float_lt x) false lo || from_option (fun h => float_lt h x) false hi.

(** The key under which a lookup rule enters [self._lookup_cache]. *)
Definition lookup_cache_key (rule : ValidationRule) : string :=
  py_str (py_get (parameters rule) "table") +:+ "."
    +:+ py_str (py_get (parameters rule) "column").

(** The reference set the validator holds for the table and column of a
    lookup rule: the entry of [self._lookup_cache]. *)
Definition reference_set (s : DataValidator) (rule : ValidationRule) : gset string :=
  default ∅ (_lookup_cache s !! lookup_cache_key rule).

End Readings.

(** [split_of l l1 l2]: [l1] and [l2] share out the elements of [l], each
    keeping the order of [l]. *)
Inductive split_of {A : Type} : list A -> list A -> list A -> Prop :=
| split_of_nil : split_of [] [] []
| split_of_left x l l1 l2 : split_of l l1 l2 -> split_of (x :: l) (x :: l1) l2
| split_of_right x l l1 l2 : split_of l l1 l2 -> split_of (x :: l) l1 (x :: l2).

(** Two worlds that differ at most in [self._lookup_cache]. *)
Definition same_but_cache (w w' : World) : Prop :=
  exists c, w' = mkWorld (heap w) (set_lookup_cache c (self w)).

(** The store only grows and the configuration is kept. *)
Definition store_grows (w w' : World) : Prop :=
  heap w ⊆ heap w'
  /\ field_mappings (self w') = field_mappings (self w)
  /\ global_validations (self w') = global_validations (self w).

(** Every run of [m] relates its initial to its final world by [R],
    whether it returns or raises. *)
Definition respects {A} (R : World -> World -> Prop) (m : M A) : Prop :=
  forall w, R w (m w).2.

(** ** Further readings of the validator *)

(** An invariant kept by a step: if it holds before, it holds after. *)
Definition keeps (P : World -> Prop) (w w' : World) : Prop := P w -> P w'.

(** Two worlds whose validators hold the same three lists. *)
Definition lists_kept (w w' : World) : Prop :=
  errors (self w') = errors (self w)
  /\ valid_rows (self w') = valid_rows (self w)
  /\ invalid_rows (self w') = invalid_rows (self w).

(** The invalid labels are exactly the row indices of the recorded
    errors. *)
Definition errors_cover (s : DataValidator) : Prop :=
  forall idx, idx ∈ invalid_rows s <-> exists e, e ∈ errors s /\ row_index e = idx.

(** The error types a rule of a given type can report. *)
Definition kinds_of (rule_type : string) : list string :=
  if String.eqb rule_type "not_null" then ["NOT_NULL"]
  else if String.eqb rule_type "range" then ["RANGE"; "NUMERIC"]
  else if String.eqb rule_type "regex" then ["REGEX"]
  else if String.eqb rule_type "date_range" then ["DATE_RANGE"; "DATE_FORMAT"]
  else if String.eqb rule_type "lookup" then ["LOOKUP"]
  else [].

(** The error types of row validation. *)
Definition row_error_kinds : list string :=
  ["REQUIRED_FIELD_MISSING"; "NOT_NULL"; "RANGE"; "NUMERIC"; "REGEX";
   "DATE_RANGE"; "DATE_FORMAT"; "LOOKUP"].

(** The error types the validator records. *)
Definition error_kinds : list string := row_error_kinds ++ ["DUPLICATE"].

(** Every recorded error has one of the known types. *)
Definition errors_typed (s : DataValidator) : Prop :=
  Forall (fun e => error_type e ∈ error_kinds) (errors s).

(** [m] returns, and keeps [I], whenever it is run in a world where [I]
    holds. *)
Definition returns_keeping (I : World -> Prop) {A} (m : M A) : Prop :=
  forall w, I w -> exists a w', m w = (Ok a, w') /\ I w'.

Section Runs.
Context `{PyRuntime}.

(** A rule that [_apply_rule] can evaluate without an exception: a regex
    rule has no pattern, a falsy one, or a string that compiles. *)
Definition rule_runs (rule : ValidationRule) : Prop :=
  rule_type rule = "regex" ->
  match parameters rule !! "pattern" with
  | None => True
  | Some v => py_truthy v = false \/ exists p r, v = VStr p /\ re_compile p = Some r
  end.

(** A schema all of whose rules can be evaluated. *)
Definition schema_runs (mappings : list FieldMapping) : Prop :=
  forall m rule, m ∈ mappings -> rule ∈ validations m -> rule_runs rule.

(** The cells of a row under the range rules of the schema are within
    the reach of [float]: none is an integer too large for a float. *)
Definition row_fits (mappings : list FieldMapping) (row : gmap string Value) : Prop :=
  forall m rule, m ∈ mappings -> rule ∈ validations m -> rule_type rule = "range" ->
    py_float (row_get row (source_field m)) <> TooLarge.

(** A dataset rule that can be run on a frame with the given columns:
    a duplicate check names columns of the frame. *)
Definition dataset_rule_runs (columns : list string) (rule : gmap string Value) : Prop :=
  is_Some (rule !! "rule_type")
  /\ (rule !! "rule_type" = Some (VStr "duplicate_check") ->
      exists s, rule !! "fields" = Some (VStr s)
                /\ forall f, f ∈ str_split "," s -> f ∈ columns).

End Runs.

Section DateReadings.
Context `{PyRuntime}.

(** The instant a value stands for under a date rule: a string is parsed,
    a timestamp is taken as it is; outer [None] is a value that is no
    date, [Some None] is [NaT]. *)
Definition instant_of (value : Value) : option (option Timestamp) :=
  match value with
  | VStr _ => to_datetime value
  | _ => as_timestamp value
  end.

(** A bound of a date rule is supplied when it is truthy. *)
Definition date_supplied (rule : ValidationRule) (key : string) : bool :=
  opt_truthy (parameters rule !! key).

(** The timestamp of a supplied bound; [None] when the bound is not
    supplied or is [NaT], against which every comparison is false. *)
Definition date_bound (rule : ValidationRule) (key : string) : option Timestamp :=
  if date_supplied rule key
  then mjoin (to_datetime (default VNone (parameters rule !! key)))
  else None.

(** The two comparisons of the date rule on the timestamp [t], in the
    order of the source: [None] is the [TypeError] of a comparison between
    a timestamp that carries a timezone and a naive one, [Some true] is a
    timestamp strictly before [lo] or strictly after [hi]. *)
Definition date_verdict (t lo hi : option Timestamp) : option bool :=
  match time_lt t lo with
  | None => None
  | Some true => Some true
  | Some false => time_lt hi t
  end.

(** A supplied bound is one [pd.to_datetime] accepts. *)
Definition date_bound_parses (rule : ValidationRule) (key : string) : Prop :=
  date_supplied rule key = true ->
  is_Some (to_datetime (default VNone (parameters rule !! key))).

End DateReadings.

(** The lookup cache of [w'] is that of [w] with, at most, empty entries
    added under keys it did not have. *)
Definition cache_gains_empty (w w' : World) : Prop :=
  forall key,
    _lookup_cache (self w') !! key = _lookup_cache (self w) !! key
    \/ (_lookup_cache (self w) !! key = None
        /\ _lookup_cache (self w') !! key = Some ∅).

(** [s'] is [s] after demotions: labels that were not invalid were added
    to the invalid list, each once, and for each of them, in the same
    order, one [DUPLICATE] error was added to the error list. *)
Definition demoted (s s' : DataValidator) : Prop :=
  exists added new,
    invalid_rows s' = invalid_rows s ++ added
    /\ errors s' = errors s ++ new
    /\ row_index <$> new = added
    /\ Forall (fun e => error_type e = "DUPLICATE" /\ field_value e = VStr "multiple") new
    /\ NoDup added
    /\ (forall idx, idx ∈ added -> idx ∉ invalid_rows s).

(** The same, between the validators of two worlds. *)
Definition demoted_world (w w' : World) : Prop := demoted (self w) (self w').

(** ** The error report ([to_dict], [get_error_report]) *)

(** The labels of [l] in the order of their first appearance. *)
Definition first_seen (l : list string) : list string :=
  foldl (fun acc c => if bool_decide (c ∈ acc) then acc else acc ++ [c]) [] l.

(** One record of [pd.DataFrame(records)] as a row under [columns]: a key
    the record lacks reads as NaN. *)
Definition record_row (columns : list string) (r : list (string * Value)) : gmap string Value :=
  list_to_map ((fun c => (c, default (VFloat FNaN)
                              ((list_to_map r : gmap string Value) !! c))) <$> columns).

(** [pd.DataFrame(records)] on a list of dictionaries, each given by its
    items: the columns are the keys in the order of their first
    appearance, the index is [0 .. n-1]. *)
Definition frame_of_records (records : list (list (string * Value))) : DataFrame :=
  let columns := first_seen (concat ((fun r => r.*1) <$> records)) in
  mkDataFrame columns (imap (fun k r => (Z.of_nat k, record_row columns r)) records).

Section Report.
Context `{PyRuntime}.

(** [ValidationError.to_dict()]: the items in the order of the literal. *)
Definition to_dict (e : ValidationError) : list (string * Value) :=
  [("row_index", VInt (row_index e));
   ("field_name", VStr (field_name e));
   ("field_value", VStr (py_str (field_value e)));
   ("error_type", VStr (error_type e));
   ("error_message", VStr (error_message e))].

(** The keys of [to_dict], in order. *)
Definition report_columns : list string :=
  ["row_index"; "field_name"; "field_value"; "error_type"; "error_message"].

(** [get_error_report()]: the reference of a new frame. *)
Definition get_error_report : M positive :=
  errs <- get_self errors ;;
  match errs with
  | [] => new_frame empty_frame
  | _ :: _ => new_frame (frame_of_records (to_dict <$> errs))
  end.

End Report.

(** * The configuration parser ([xml_parser.py]) *)

(** ** XML elements *)

(** An element of [xml.etree.ElementTree]: its tag, its attributes (a
    dictionary), its text and its children in document order. *)
#[warnings="-register-all"]
Inductive Element :=
| mkElement (tag : string) (attrib : gmap string string) (text : option string)
            (children : list Element).

Definition tag (e : Element) : string := let 'mkElement t _ _ _ := e in t.
Definition attrib (e : Element) : gmap string string := let 'mkElement _ a _ _ := e in a.
Definition text (e : Element) : option string := let 'mkElement _ _ t _ := e in t.
Definition children (e : Element) : list Element := let 'mkElement _ _ _ c := e in c.

(** [e.findall(name)] for a tag name: the children with that tag, in
    document order. *)
Definition findall (e : Element) (name : string) : list Element :=
  filter (fun c => tag c = name) (children e).

(** [e.find(name)]: the first such child, or [None]. *)
Definition find (e : Element) (name : string) : option Element :=
  head (findall e name).

(** [e.get(key)]: the attribute, or [None]. *)
Definition elem_get (e : Element) (key : string) : option string := attrib e !! key.

(** ** What the parser raises *)

Inductive parse_exn :=
(** [AttributeError]: a method or attribute of [None]. *)
| NoneAttribute
(** [ValueError]: [int] or [float] on a literal it rejects. *)
| InvalidLiteral (literal : string).

Inductive parsed (A : Type) :=
| Returns (a : A)
| Raises (e : parse_exn).

Arguments Returns {A} a.
Arguments Raises {A} e.

Definition parsed_bind {A B} (m : parsed A) (k : A -> parsed B) : parsed B :=
  match m with
  | Returns a => k a
  | Raises e => Raises e
  end.

(** [[f(x) for x in l]], or a loop that appends [f(x)]: the first
    exception ends it. *)
Fixpoint parsed_map {A B} (f : A -> parsed B) (l : list A) : parsed (list B) :=
  match l with
  | [] => Returns []
  | x :: l' =>
      parsed_bind (f x) (fun y =>
      parsed_bind (parsed_map f l') (fun ys => Returns (y :: ys)))
  end.

(** ** The records as the parser fills them *)

(** A [ValidationRule] as [get_field_mappings] builds it: the rule type
    is [val_elem.get('rule')], which is [None] for an element without
    that attribute. *)
Record ParsedRule := mkParsedRule {
  parsed_rule_type : option string;
  parsed_parameters : gmap string Value;
}.

(** A [FieldMapping] as [get_field_mappings] builds it. *)
Record ParsedMapping := mkParsedMapping {
  parsed_source_field : option string;
  parsed_target_field : option string;
  parsed_data_type : option string;
  parsed_required : bool;
  parsed_validations : list ParsedRule;
}.

(** The records the validator works with, for a configuration whose
    elements carry the attributes. *)
Definition rule_of (r : ParsedRule) : option ValidationRule :=
  match parsed_rule_type r with
  | Some t => Some (mkValidationRule t (parsed_parameters r))
  | None => None
  end.

Definition mapping_of (m : ParsedMapping) : option FieldMapping :=
  match parsed_source_field m, parsed_target_field m, parsed_data_type m,
        mapM rule_of (parsed_validations m) with
  | Some s, Some t, Some d, Some rules => Some (mkFieldMapping s t d (parsed_required m) rules)
  | _, _, _, _ => None
  end.

(** [s.lower()] on the ASCII letters. *)
Definition ascii_lower (c : ascii) : ascii :=
  let n := Ascii.nat_of_ascii c in
  if ((65 <=? n) && (n <=? 90))%nat then Ascii.ascii_of_nat (n + 32) else c.

Fixpoint py_lower (s : string) : string :=
  match s with
  | EmptyString => EmptyString
  | String c s' => String (ascii_lower c) (py_lower s')
  end.

(** ['.' in s] *)
Definition contains_dot (s : string) : bool :=
  existsb (Ascii.eqb ".") (list_ascii_of_string s).

(** [int(s)] on a [str]; [None] is [ValueError]. *)
Class PyInt := {
  int_of_str : string -> option Z;
}.

(** A value of [get] in a dictionary of the configuration. *)
Definition opt_str (o : option string) : Value :=
  match o with
  | Some s => VStr s
  | None => VNone
  end.

Section Parser.
Context `{PyRuntime} `{PyInt}.

(** [float(s) if '.' in str(s) else int(s)] *)
Definition number_literal (s : string) : parsed Value :=
  if contains_dot s then
    match float_of_str s with
    | Some f => Returns (VFloat f)
    | None => Raises (InvalidLiteral s)
    end
  else
    match int_of_str s with
    | Some z => Returns (VInt z)
    | None => Raises (InvalidLiteral s)
    end.

(** [float(s)] *)
Definition float_literal (s : string) : parsed Value :=
  match float_of_str s with
  | Some f => Returns (VFloat f)
  | None => Raises (InvalidLiteral s)
  end.

(** [if key in params: params[key] = conv(params[key])], where the
    parameter is still the attribute string. *)
Definition convert_param (conv : string -> parsed Value) (key : string)
    (raw : gmap string string) (params : gmap string Value) : parsed (gmap string Value) :=
  match raw !! key with
  | Some s => parsed_bind (conv s) (fun v => Returns (<[key := v]> params))
  | None => Returns params
  end.

(** The body of the loop over the [Validation] elements of a field. *)
Definition parse_validation (val_elem : Element) : parsed ParsedRule :=
  let rule_type := elem_get val_elem "rule" in
  let raw := delete "rule" (attrib val_elem) in
  let params : gmap string Value := VStr <$> raw in
  parsed_bind
    (if bool_decide (rule_type = Some "range") then
       parsed_bind (convert_param number_literal "min" raw params)
                   (convert_param number_literal "max" raw)
     else Returns params) (fun params =>
  parsed_bind (convert_param float_literal "threshold" raw params) (fun params =>
  Returns (mkParsedRule rule_type params))).

(** The body of the loop over the [Field] elements. *)
Definition parse_field (field_elem : Element) : parsed ParsedMapping :=
  parsed_bind (parsed_map parse_validation (findall field_elem "Validation"))
    (fun validations =>
  match elem_get field_elem "required" with
  | None => Raises NoneAttribute
  | Some r =>
      Returns (mkParsedMapping (elem_get field_elem "source")
                               (elem_get field_elem "target")
                               (elem_get field_elem "dataType")
                               (bool_decide (py_lower r = "true"))
                               validations)
  end).

(** [get_field_mappings()] on the root element of the configuration. *)
Definition get_field_mappings (root : Element) : parsed (list ParsedMapping) :=
  match find root "FieldMappings" with
  | None => Raises NoneAttribute
  | Some fields => parsed_map parse_field (findall fields "Field")
  end.

End Parser.

(** The body of the loop of [get_global_validations]: the dictionary
    [{'rule_type': val.get('rule')}] updated with the other attributes. *)
Definition global_rule_of (val : Element) : gmap string Value :=
  (VStr <$> delete "rule" (attrib val)) ∪ {[ "rule_type" := opt_str (elem_get val "rule") ]}.

(** [get_global_validations()] on the root element. *)
Definition get_global_validations (root : Element) : parsed (list (gmap string Value)) :=
  match find root "GlobalValidations" with
  | None => Raises NoneAttribute
  | Some globals_elem => Returns (global_rule_of <$> findall globals_elem "Validation")
  end.

(** [FieldMapping.get_validation(rule_type)]: the first rule of that
    type, or [None]. *)
Fixpoint first_rule (rule_type0 : string) (validations0 : list ValidationRule)
  : option ValidationRule :=
  match validations0 with
  | [] => None
  | v :: rest => if String.eqb (rule_type v) rule_type0 then Some v else first_rule rule_type0 rest
  end.

Definition get_validation (m : FieldMapping) (rule_type0 : string) : option ValidationRule :=
  first_rule rule_type0 (validations m).

Section ParserReadings.
Context `{PyRuntime} `{PyInt}.

(** What an attribute [k="s"] of a [Validation] element of the given rule
    type becomes as a parameter. *)
Definition parameter_reading (rule_type0 : option string) (k s : string) : parsed Value :=
  if bool_decide (k = "threshold") then float_literal s
  else if bool_decide (rule_type0 = Some "range")
          && (bool_decide (k = "min") || bool_decide (k = "max"))
  then number_literal s
  else Returns (VStr s).

(** The literals of a [Validation] element can be converted. *)
Definition validation_parses (val_elem : Element) : Prop :=
  forall k s, k <> "rule" -> attrib val_elem !! k = Some s ->
    exists v, parameter_reading (elem_get val_elem "rule") k s = Returns v.

(** A [Field] element can be parsed. *)
Definition field_parses (field_elem : Element) : Prop :=
  is_Some (elem_get field_elem "required")
  /\ Forall validation_parses (findall field_elem "Validation").

End ParserReadings.

(** A dataset rule cannot fail on its own shape: it has a rule type, and
    its fields, if any, are a string. *)
Definition rule_shaped (rule : gmap string Value) : Prop :=
  is_Some (rule !! "rule_type")
  /\ forall v, rule !! "fields" = Some v -> exists s, v = VStr s.


(** ** A configuration document for the examples *)

Module DemoConfig.

(** [int] on a string of decimal digits. *)
#[export] Instance int_parser : PyInt := {|
  int_of_str := fun s => Demo.digits (list_ascii_of_string s);
|}.

Definition attrs (l : list (string * string)) : gmap string string := list_to_map l.

Definition validation (l : list (string * string)) : Element :=
  mkElement "Validation" (attrs l) None [].

Definition field (source target data_type required0 : string) (rules : list Element)
  : Element :=
  mkElement "Field"
    (attrs [("source", source); ("target", target); ("dataType", data_type);
            ("required", required0)])
    None rules.

Definition temperature_validation : Element :=
  validation [("rule", "range"); ("min", "0"); ("max", "250")].

Definition field_mappings_elem : Element :=
  mkElement "FieldMappings" ∅ None
    [ field "line_id" "ProductionLineID" "string" "true"
        [validation [("rule", "regex"); ("pattern", "^LINE\d{3}$")]];
      field "product_code" "ProductCode" "string" "true"
        [validation [("rule", "lookup"); ("table", "Products"); ("column", "ProductCode")]];
      field "temperature_c" "TemperatureCelsius" "float" "True" [temperature_validation];
      field "humidity_pct" "HumidityPercent" "float" "false"
        [validation [("rule", "range"); ("min", "0"); ("max", "100")]] ].

Definition duplicate_validation (fields : string) : Element :=
  validation [("rule", "duplicate_check"); ("fields", fields)].

(** The document of the schema and of the dataset rule of the examples. *)
Definition root : Element :=
  mkElement "DataIntegrationConfig" ∅ None
    [ field_mappings_elem;
      mkElement "GlobalValidations" ∅ None [duplicate_validation "line_id,batch_number"] ].

(** A document whose duplicate check names a column the batches lack. *)
Definition other_root : Element :=
  mkElement "DataIntegrationConfig" ∅ None
    [ field_mappings_elem;
      mkElement "GlobalValidations" ∅ None [duplicate_validation "line_id,serial"] ].

(** A validator with the given dataset rules and no field. *)
Definition world (rules : list (gmap string Value)) : World :=
  mkWorld {[ 1%positive := Demo.batch ]} (mkDataValidator [] rules [] [] [] ∅).

End DemoConfig.

(** * The loader ([etl_processor.py]) *)

(** ** The connection *)

(** The two statements the loader prepares: the insert into the target
    table and the insert into [Production.DataValidationErrors]. *)
Inductive statement :=
| InsertRecord (target_table : string)
| InsertValidationError.

(** A call on the connection or on its cursor. *)
Inductive db_call :=
| Execute (sql : statement) (params : list Value)
| Commit
| Rollback.

(** A call that was made, and whether it returned ([true]) or raised. *)
Definition db_event : Type := db_call * bool.

(** What a method of the loader raises. *)
Inductive etl_exn :=
(** the exception of the driver in a call *)
| DatabaseError (call : db_call)
(** [KeyError]: [row[key]] on a row without that label *)
| RowKeyError (key : string)
(** [ZeroDivisionError]: [rows_inserted % 0] *)
| ModuloByZero.

Inductive outcome (A : Type) :=
| Done (a : A)
| Failed (e : etl_exn).

Arguments Done {A} a.
Arguments Failed {A} e.

(** The database as the loader meets it: whether a call raises, given
    the calls made so far.  Everything below holds for every database. *)
Class Database := {
  db_raises : list db_event -> db_call -> bool;
}.

(** A method of the loader: it extends the log of the calls on the
    connection, and returns or raises. *)
Definition Etl (A : Type) : Type := list db_event -> outcome A * list db_event.

Definition etl_ret {A} (a : A) : Etl A := fun log => (Done a, log).

Definition etl_raise {A} (e : etl_exn) : Etl A := fun log => (Failed e, log).

Definition etl_bind {A B} (m : Etl A) (k : A -> Etl B) : Etl B :=
  fun log =>
    match m log with
    | (Done a, log') => k a log'
    | (Failed e, log') => (Failed e, log')
    end.

(** [try: m  except Exception as e: handler(e)] *)
Definition try_except {A} (m : Etl A) (handler : etl_exn -> Etl A) : Etl A :=
  fun log =>
    match m log with
    | (Done a, log') => (Done a, log')
    | (Failed e, log') => handler e log'
    end.

(** A loop that threads a local variable through its iterations. *)
Fixpoint etl_fold {A B} (l : list A) (body : B -> A -> Etl B) (acc : B) : Etl B :=
  match l with
  | [] => etl_ret acc
  | x :: l' => etl_bind (body acc x) (etl_fold l' body)
  end.

(** [for x in l: body(x)] *)
Fixpoint etl_for_each {A} (l : list A) (body : A -> Etl unit) : Etl unit :=
  match l with
  | [] => etl_ret tt
  | x :: l' => etl_bind (body x) (fun _ => etl_for_each l' body)
  end.

(** One call on the connection. *)
Definition db_do `{Database} (c : db_call) : Etl unit :=
  fun log =>
    if db_raises log c then (Failed (DatabaseError c), log ++ [(c, false)])
    else (Done tt, log ++ [(c, true)]).

(** ** The tables behind a log

    The rows a log of calls leaves behind on a connection without
    autocommit: those of the executed statements that a later commit has
    made durable, and those still pending in the open transaction.  A
    call that raised changes neither. *)
Definition db_step (st : list (statement * list Value) * list (statement * list Value))
    (ev : db_event) : list (statement * list Value) * list (statement * list Value) :=
  match ev with
  | (Execute sql params, true) => (st.1, st.2 ++ [(sql, params)])
  | (Commit, true) => (st.1 ++ st.2, [])
  | (Rollback, true) => (st.1, [])
  | (_, false) => st
  end.

Definition db_state (log : list db_event)
  : list (statement * list Value) * list (statement * list Value) :=
  foldl db_step ([], []) log.

(** The durable rows and the pending rows of a log. *)
Definition durable (log : list db_event) : list (statement * list Value) := (db_state log).1.
Definition pending (log : list db_event) : list (statement * list Value) := (db_state log).2.

(** ** The methods of [ETLProcessor] *)

(** The attributes of an [ETLProcessor] that its methods read: the target
    table of [target_config] and the batch size of [etl_config]. *)
Record ETLProcessor := mkETLProcessor {
  target_table : string;
  batch_size : Z;
}.

(** [row[key]] on a row series. *)
Definition row_item (row : gmap string Value) (key : string) : Etl Value :=
  match row !! key with
  | Some v => etl_ret v
  | None => etl_raise (RowKeyError key)
  end.

(** The humidity parameter: the cell, or [None] when it is missing. *)
Definition humidity_param (row : gmap string Value) : Value :=
  if negb (isna (row_get row "humidity_pct")) then row_get row "humidity_pct" else VNone.

(** The parameters of the insert of one record, in the order of the
    tuple. *)
Definition record_params (row : gmap string Value) (source_file : string) : Etl (list Value) :=
  let humidity := humidity_param row in
  etl_bind (row_item row "timestamp") (fun timestamp =>
  etl_bind (row_item row "line_id") (fun line_id =>
  etl_bind (row_item row "batch_number") (fun batch_number =>
  etl_bind (row_item row "product_code") (fun product_code =>
  etl_bind (row_item row "temperature_c") (fun temperature_c =>
  etl_bind (row_item row "pressure_kpa") (fun pressure_kpa =>
  etl_bind (row_item row "operator_id") (fun operator_id =>
  etl_bind (row_item row "defect_count") (fun defect_count =>
  etl_ret [timestamp; line_id; batch_number; product_code; temperature_c; pressure_kpa;
           humidity; operator_id; defect_count; VStr source_file])))))))).

Section Loader.
Context `{Database}.

(** The body of the loop of [load_valid_data]; the local variable is
    [rows_inserted]. *)
Definition load_row (p : ETLProcessor) (source_file : string) (rows_inserted : Z)
    (r : Z * gmap string Value) : Etl Z :=
  etl_bind (record_params r.2 source_file) (fun params =>
  etl_bind (db_do (Execute (InsertRecord (target_table p)) params)) (fun _ =>
  let rows_inserted := rows_inserted + 1 in
  if decide (batch_size p = 0) then etl_raise ModuloByZero
  else if decide (rows_inserted mod batch_size p = 0)
       then etl_bind (db_do Commit) (fun _ => etl_ret rows_inserted)
       else etl_ret rows_inserted)).

(** [load_valid_data(df, source_file)] *)
Definition load_valid_data (p : ETLProcessor) (df : DataFrame) (source_file : string) : Etl Z :=
  if df_empty df then etl_ret 0
  else
    try_except
      (etl_bind (etl_fold (df_rows df) (load_row p source_file) 0) (fun rows_inserted =>
       etl_bind (db_do Commit) (fun _ => etl_ret rows_inserted)))
      (fun e => etl_bind (db_do Rollback) (fun _ => etl_raise e)).

End Loader.

Section ErrorLog.
Context `{PyRuntime} `{Database}.

(** [s[:255]] *)
Definition truncate_255 (s : string) : string :=
  string_of_list_ascii (take 255 (list_ascii_of_string s)).

(** The parameters of the insert of one error. *)
Definition error_params (source_file : string) (error : ValidationError) : list Value :=
  [VStr source_file; VStr (error_type error); VStr (error_message error);
   VStr (field_name error); VStr (truncate_255 (py_str (field_value error)))].

(** The body of the loop of [log_errors]. *)
Definition log_error (source_file : string) (error : ValidationError) : Etl unit :=
  db_do (Execute InsertValidationError (error_params source_file error)).

(** [log_errors(errors, source_file)] *)
Definition log_errors (errors0 : list ValidationError) (source_file : string) : Etl Z :=
  match errors0 with
  | [] => etl_ret 0
  | _ :: _ =>
      try_except
        (etl_bind (etl_for_each errors0 (log_error source_file)) (fun _ =>
         etl_bind (db_do Commit) (fun _ => etl_ret (Z.of_nat (length errors0)))))
        (fun e => etl_bind (db_do Rollback) (fun _ => etl_raise e))
  end.

End ErrorLog.

(** ** Readings of the loader *)

(** The columns [load_valid_data] reads with [row[...]], in the order of
    the tuple. *)
Definition record_columns : list string :=
  ["timestamp"; "line_id"; "batch_number"; "product_code"; "temperature_c"; "pressure_kpa";
   "operator_id"; "defect_count"].

(** The parameters of the insert of a record that has these columns. *)
Definition params_of (source_file : string) (row : gmap string Value) : list Value :=
  [row_get row "timestamp"; row_get row "line_id"; row_get row "batch_number";
   row_get row "product_code"; row_get row "temperature_c"; row_get row "pressure_kpa";
   humidity_param row; row_get row "operator_id"; row_get row "defect_count";
   VStr source_file].

(** The inserts of the records of a frame. *)
Definition record_inserts (p : ETLProcessor) (source_file : string) (df : DataFrame)
  : list (statement * list Value) :=
  (fun r => (InsertRecord (target_table p), params_of source_file r.2)) <$> df_rows df.

Section ErrorLogReadings.
Context `{PyRuntime}.

(** The inserts of a list of errors. *)
Definition error_inserts (source_file : string) (errors0 : list ValidationError)
  : list (statement * list Value) :=
  (fun e => (InsertValidationError, error_params source_file e)) <$> errors0.

End ErrorLogReadings.

(** The state of the tables while [load_valid_data] has gone through the
    first [k] records of [inserts] after a log with the durable rows [D]:
    the records up to the last commit point [c] are durable, the others
    are pending, and [c] is a whole number of batches. *)
Definition loaded_up_to (batch : Z) (D inserts : list (statement * list Value))
    (c k : nat) (log : list db_event) : Prop :=
  (c <= k)%nat
  /\ durable log = D ++ take c inserts
  /\ pending log = drop c (take k inserts)
  /\ (batch <> 0 -> Z.of_nat c mod batch = 0)
  /\ (batch = 0 -> c = 0%nat).

Section Causes.
Context `{Database}.

(** What an exception of [load_valid_data] on the frame [d] tells: a row
    lacks a column, the batch size is 0, or the database raised in the
    call. *)
Definition failure_cause (p : ETLProcessor) (d : DataFrame) (e : etl_exn) : Prop :=
  match e with
  | RowKeyError k => k ∈ record_columns /\ exists r, r ∈ df_rows d /\ r.2 !! k = None
  | ModuloByZero => batch_size p = 0
  | DatabaseError c => exists l, db_raises l c = true
  end.

End Causes.

(** ** A load for the examples *)

Module DemoLoad.

(** A database that raises in no call. *)
Definition steady : Database := {| db_raises := fun _ _ => false |}.

(** A database that raises in the fourth call made on the connection. *)
Definition flaky : Database :=
  {| db_raises := fun log _ => bool_decide (length log = 3%nat) |}.

(** Batches of two records. *)
Definition processor : ETLProcessor := mkETLProcessor "Production.QualityData" 2.

(** The same loader with a batch size of 0. *)
Definition stuck_processor : ETLProcessor := mkETLProcessor "Production.QualityData" 0.

Definition record (line batch : string) (temperature : Z) (humidity : Value)
  : gmap string Value :=
  Demo.dict [("timestamp", VStr "2024-02-15 10:00:00"); ("line_id", VStr line);
             ("batch_number", VStr batch); ("product_code", VStr "PROD-A1");
             ("temperature_c", Demo.degrees temperature); ("pressure_kpa", Demo.degrees 400);
             ("humidity_pct", humidity); ("operator_id", VStr "OP0001");
             ("defect_count", VInt 0)].

(** Three valid records; the humidity of the second is missing. *)
Definition records : DataFrame :=
  mkDataFrame ["timestamp"; "line_id"; "batch_number"; "product_code"; "temperature_c";
               "pressure_kpa"; "humidity_pct"; "operator_id"; "defect_count"]
    [ (0, record "LINE001" "B001" 150 (Demo.degrees 50));
      (1, record "LINE002" "B002" 151 (VFloat FNaN));
      (2, record "LINE003" "B003" 152 (Demo.degrees 52)) ].

End DemoLoad.

(** ** What a run depends on *)

(** Two validators with the same configuration and the same three lists;
    their lookup caches may differ. *)
Definition same_lists (s1 s2 : DataValidator) : Prop :=
  field_mappings s1 = field_mappings s2
  /\ global_validations s1 = global_validations s2
  /\ errors s1 = errors s2
  /\ valid_rows s1 = valid_rows s2
  /\ invalid_rows s1 = invalid_rows s2.

(** A method that leaves the store alone, and whose result and whose
    effect on the lists depend neither on the store nor on the lookup
    cache. *)
Definition cache_blind {A} (m : M A) : Prop :=
  forall w1 w2, same_lists (self w1) (self w2) ->
    (m w1).1 = (m w2).1
    /\ same_lists (self (m w1).2) (self (m w2).2)
    /\ heap (m w1).2 = heap w1
    /\ heap (m w2).2 = heap w2.

(** The frame [select_rows] builds from the frame [d]: [pd.DataFrame()]
    for no label, else [d.loc[labels]]. *)
Definition selected (d : DataFrame) (labels : list Z) : result DataFrame :=
  match labels with
  | [] => Ok empty_frame
  | _ :: _ => loc_ d labels
  end.

(** What [validate_dataframe] returns after the dataset phase, on the
    frame [d] and with the lists of [s]: the two frames, or the exception. *)
Definition split_frames (d : DataFrame) (s : DataValidator) : result (DataFrame * DataFrame) :=
  match selected d (valid_rows s) with
  | Raise e => Raise e
  | Ok valid_df =>
      match selected d (invalid_rows s) with
      | Raise e => Raise e
      | Ok invalid_df =>
          if decide (df_len d = 0%nat) then Raise ZeroDivisionError
          else Ok (valid_df, invalid_df)
      end
  end.


(** ** The selections of [validate_dataframe], read off the input *)

(** A method whose result does not depend on the world it is run in. *)
Definition world_blind {A} (m : M A) : Prop := forall w1 w2, (m w1).1 = (m w2).1.

Section Selections.
Context `{PyRuntime}.

(** The row fails row validation: [_validate_row], run on it with the
    schema of [w], returns an error. *)
Definition row_fails (w : World) (r : Z * gmap string Value) : bool :=
  match (_validate_row r.1 r.2 w).1 with
  | Ok [] => false
  | _ => true
  end.

(** The labels of the rows a dataset rule finds duplicated, in the order
    of the frame; none when the rule is not a duplicate check. *)
Definition duplicate_labels (d : DataFrame) (rule : gmap string Value) : list Z :=
  match rule_duplicates d rule with
  | Ok (Some (_, idxs)) => idxs
  | _ => []
  end.

(** The labels the dataset phase demotes, one group for each rule in
    turn: the labels the rule finds duplicated that are not invalid yet,
    [invalid] being the invalid labels when the rule is reached. *)
Fixpoint demotions (d : DataFrame) (rules : list (gmap string Value)) (invalid : list Z)
  : list (list Z) :=
  match rules with
  | [] => []
  | rule :: rest =>
      let group := filter (fun idx => idx ∉ invalid) (duplicate_labels d rule) in
      group :: demotions d rest (invalid ++ group)
  end.

(** The rows of the frame with a label in [labels], in the order of the
    frame. *)
Definition rows_labelled (d : DataFrame) (labels : list Z) : list (Z * gmap string Value) :=
  filter (fun r => r.1 ∈ labels) (df_rows d).

End Selections.
(** * Properties *)

(** ** The monad *)

Lemma bind_eq {A B} (m : M A) (k : A -> M B) w a w1 :
  m w = (Ok a, w1) -> bind m k w = k a w1.
Proof. intros Hm. unfold bind. now rewrite Hm. Qed.

Lemma bind_raise {A B} (m : M A) (k : A -> M B) w e w1 :
  m w = (Raise e, w1) -> bind m k w = (Raise e, w1).
Proof. intros Hm. unfold bind. now rewrite Hm. Qed.

Lemma bind_inv {A B} (m : M A) (k : A -> M B) w r w' :
  bind m k w = (r, w') ->
  (exists a w1, m w = (Ok a, w1) /\ k a w1 = (r, w'))
  \/ (exists e, m w = (Raise e, w') /\ r = Raise e).
Proof.
  unfold bind. destruct (m w) as [[a|e] w1]; intros Hk.
  - left. eauto.
  - right. exists e. now inversion Hk.
Qed.

Lemma bind_ok_inv {A B} (m : M A) (k : A -> M B) w b w' :
  bind m k w = (Ok b, w') ->
  exists a w1, m w = (Ok a, w1) /\ k a w1 = (Ok b, w').
Proof.
  intros Hb. apply bind_inv in Hb as [Hok|(e & _ & He)]; [assumption|discriminate].
Qed.

(** ** Relations kept by every step *)

Section Respects.
Context (R : World -> World -> Prop) `{!PreOrder R}.

Lemma respects_ret {A} (a : A) : respects R (ret a).
Proof. intros w. simpl. reflexivity. Qed.

Lemma respects_raise {A} e : respects R (@raise A e).
Proof. intros w. simpl. reflexivity. Qed.

Lemma respects_lift {A} (r : result A) : respects R (lift r).
Proof. intros w. simpl. reflexivity. Qed.

Lemma respects_get_self {A} (proj : DataValidator -> A) : respects R (get_self proj).
Proof. intros w. simpl. reflexivity. Qed.

Lemma respects_get_frame df : respects R (get_frame df).
Proof. intros w. unfold get_frame. destruct (heap w !! df); simpl; reflexivity. Qed.

Lemma respects_bind {A B} (m : M A) (k : A -> M B) :
  respects R m -> (forall a, respects R (k a)) -> respects R (bind m k).
Proof.
  intros Hm Hk w. unfold bind. specialize (Hm w).
  destruct (m w) as [[a|e] w1]; simpl in *.
  - etransitivity; [exact Hm|apply Hk].
  - exact Hm.
Qed.

Lemma respects_for_each {A} (l : list A) (body : A -> M unit) :
  (forall x, respects R (body x)) -> respects R (for_each l body).
Proof.
  intros Hbody. induction l as [|x l IH]; simpl.
  - apply respects_ret.
  - apply respects_bind; auto.
Qed.

Lemma respects_fold_loop {A B} (l : list A) (body : B -> A -> M B) acc :
  (forall b x, respects R (body b x)) -> respects R (fold_loop l body acc).
Proof.
  intros Hbody. revert acc. induction l as [|x l IH]; intros acc; simpl.
  - apply respects_ret.
  - apply respects_bind; auto.
Qed.

End Respects.

#[global] Instance same_but_cache_preorder : PreOrder same_but_cache.
Proof.
  split.
  - intros [h [fm gv er vr ir c]]. exists c. reflexivity.
  - intros w1 w2 w3 [c1 ->] [c2 ->]. exists c2. reflexivity.
Qed.

#[global] Instance store_grows_preorder : PreOrder store_grows.
Proof.
  split.
  - intros w. repeat split; reflexivity.
  - intros w1 w2 w3 (Hh1 & Hf1 & Hg1) (Hh2 & Hf2 & Hg2). repeat split.
    + etransitivity; eassumption.
    + congruence.
    + congruence.
Qed.

Lemma same_but_cache_store_grows w w' : same_but_cache w w' -> store_grows w w'.
Proof. intros [c ->]. repeat split; reflexivity. Qed.

Lemma store_grows_lookup w w' df d :
  store_grows w w' -> heap w !! df = Some d -> heap w' !! df = Some d.
Proof. intros (Hh & _) Hd. eapply lookup_weaken; eassumption. Qed.

Lemma store_grows_modify_self (f : DataValidator -> DataValidator) :
  (forall s, field_mappings (f s) = field_mappings s) ->
  (forall s, global_validations (f s) = global_validations s) ->
  respects store_grows (modify_self f).
Proof. intros Hf Hg w. simpl. split; [reflexivity|]. split; simpl; auto. Qed.

Lemma store_grows_new_frame d : respects store_grows (new_frame d).
Proof.
  intros w. simpl. split; [|split; reflexivity]. simpl.
  apply insert_subseteq, not_elem_of_dom, is_fresh.
Qed.

(** Discharges [respects R m] by following the shape of [m]. *)
Create HintDb respects discriminated.

Ltac respects_auto :=
  repeat first
    [ solve [auto with respects nocore]
    | apply respects_ret; typeclasses eauto
    | apply respects_raise; typeclasses eauto
    | apply respects_lift; typeclasses eauto
    | apply respects_get_self; typeclasses eauto
    | apply respects_get_frame; typeclasses eauto
    | apply respects_bind; [typeclasses eauto| |intros ?]
    | apply respects_for_each; [typeclasses eauto|intros ?]
    | apply respects_fold_loop; [typeclasses eauto|intros ? ?]
    | assumption
    | match goal with
      | |- respects _ (if ?b then _ else _) => destruct b
      | |- respects _ (match ?x with _ => _ end) => destruct x
      end ].

(** ** Row validation *)

Section RowValidation.
Context `{PyRuntime}.

Lemma same_but_cache_set_cache c :
  respects same_but_cache (modify_self (set_lookup_cache c)).
Proof. intros w. exists c. reflexivity. Qed.
#[local] Hint Resolve same_but_cache_set_cache : respects.

Lemma rule_lookup_cache idx field value rule :
  respects same_but_cache (rule_lookup idx field value rule).
Proof. unfold rule_lookup. respects_auto. Qed.
#[local] Hint Resolve rule_lookup_cache : respects.

Lemma apply_rule_cache idx field value rule :
  respects same_but_cache (_apply_rule idx field value rule).
Proof. unfold _apply_rule. respects_auto. Qed.
#[local] Hint Resolve apply_rule_cache : respects.

Lemma validate_row_rule_cache idx field value errs rule :
  respects same_but_cache (_validate_row_rule idx field value errs rule).
Proof. unfold _validate_row_rule. respects_auto. Qed.
#[local] Hint Resolve validate_row_rule_cache : respects.

Lemma validate_row_field_cache idx row errs mapping :
  respects same_but_cache (_validate_row_field idx row errs mapping).
Proof. unfold _validate_row_field. respects_auto. Qed.
#[local] Hint Resolve validate_row_field_cache : respects.

Lemma validate_row_cache idx row : respects same_but_cache (_validate_row idx row).
Proof. unfold _validate_row. respects_auto. Qed.

(** An error returned by a rule is attributed to the row, the field and
    the value the rule was applied to. *)
Lemma apply_rule_error idx field value rule w e w' :
  _apply_rule idx field value rule w = (Ok (Some e), w') ->
  row_index e = idx /\ field_name e = field /\ field_value e = value.
Proof.
  unfold _apply_rule, ret, lift.
  repeat (destruct (String.eqb _ _)).
  - unfold rule_not_null. destruct (_ || _); intros [= <- _]; auto.
  - unfold rule_range, range_check.
    repeat match goal with
           | |- context [match ?x with _ => _ end] => destruct x
           end; intros [= <- _]; auto.
  - unfold rule_regex.
    repeat match goal with
           | |- context [match ?x with _ => _ end] => destruct x
           end; intros [= <- _]; auto.
  - unfold rule_date_range.
    repeat match goal with
           | |- context [match ?x with _ => _ end] => destruct x
           end; intros [= <- _]; auto.
  - unfold rule_lookup, bind, get_self, modify_self, ret.
    repeat match goal with
           | |- context [if ?x then _ else _] => destruct x
           end; simpl; intros [= <- _]; auto.
  - intros [=].
Qed.

End RowValidation.

Lemma filter_all {A} (P : A -> Prop) `{!forall x, Decision (P x)} (l : list A) :
  Forall P l -> filter P l = l.
Proof.
  induction 1 as [|x l Hx _ IH]; [reflexivity|].
  rewrite filter_cons_True by assumption. now rewrite IH.
Qed.

Lemma filter_none {A} (P : A -> Prop) `{!forall x, Decision (P x)} (l : list A) :
  Forall (fun x => ~ P x) l -> filter P l = [].
Proof.
  induction 1 as [|x l Hx _ IH]; [reflexivity|].
  now rewrite filter_cons_False by assumption.
Qed.

Section RowErrors.
Context `{PyRuntime}.

Lemma validate_row_field_null idx row errs mapping w :
  isna (row_get row (source_field mapping)) = true ->
  _validate_row_field idx row errs mapping w
  = (Ok (errs ++ null_contribution idx row mapping), w).
Proof.
  intros Hna. unfold _validate_row_field, null_contribution. rewrite Hna.
  destruct (required mapping); simpl.
  - reflexivity.
  - now rewrite app_nil_r.
Qed.

(** The rules of a field only append errors attributed to that field. *)
Lemma validate_rules_errors idx field value rules errs w errs' w' :
  fold_loop rules (_validate_row_rule idx field value) errs w = (Ok errs', w') ->
  exists new, errs' = errs ++ new /\ Forall (fun e => field_name e = field) new.
Proof.
  revert errs w. induction rules as [|rule rules IH]; intros errs w; simpl.
  - intros [= <- _]. exists []. split; [now rewrite app_nil_r|constructor].
  - intros Hrun. apply bind_ok_inv in Hrun as (errs1 & w1 & Hrule & Hrest).
    unfold _validate_row_rule in Hrule.
    apply bind_ok_inv in Hrule as (oe & w2 & Happly & Hret).
    apply IH in Hrest as (new & -> & Hnew).
    destruct oe as [e|]; injection Hret as <- _.
    + apply apply_rule_error in Happly as (_ & Hf & _).
      exists (e :: new). split; [now rewrite <- app_assoc|now constructor].
    + now exists new.
Qed.

Lemma validate_row_field_errors idx row errs mapping w errs' w' :
  _validate_row_field idx row errs mapping w = (Ok errs', w') ->
  exists new, errs' = errs ++ new
              /\ Forall (fun e => field_name e = source_field mapping) new.
Proof.
  unfold _validate_row_field.
  destruct (_ && _).
  { intros [= <- _]. eexists. split; [reflexivity|]. repeat constructor. }
  destruct (_ && _).
  { intros [= <- _]. exists []. split; [now rewrite app_nil_r|constructor]. }
  apply validate_rules_errors.
Qed.

Lemma validate_fields_errors idx row mappings errs w errs' w' :
  fold_loop mappings (_validate_row_field idx row) errs w = (Ok errs', w') ->
  exists new, errs' = errs ++ new
              /\ Forall (fun e => field_name e ∈ source_field <$> mappings) new.
Proof.
  revert errs w. induction mappings as [|m mappings IH]; intros errs w; simpl.
  - intros [= <- _]. exists []. split; [now rewrite app_nil_r|constructor].
  - intros Hrun. apply bind_ok_inv in Hrun as (errs1 & w1 & Hfield & Hrest).
    apply validate_row_field_errors in Hfield as (new1 & -> & Hnew1).
    apply IH in Hrest as (new2 & -> & Hnew2).
    exists (new1 ++ new2). split; [now rewrite <- app_assoc|].
    apply Forall_app. split.
    + eapply Forall_impl; [exact Hnew1|]. intros e ->. apply list_elem_of_here.
    + eapply Forall_impl; [exact Hnew2|]. intros e He. now apply list_elem_of_further.
Qed.

(** Among the errors of a row, those of a field whose value is null are
    exactly its null contribution, when source fields are unique. *)
Lemma validate_fields_null idx row mappings mapping errs w errs' w' :
  NoDup (source_field <$> mappings) ->
  mapping ∈ mappings ->
  isna (row_get row (source_field mapping)) = true ->
  fold_loop mappings (_validate_row_field idx row) errs w = (Ok errs', w') ->
  filter (fun e => field_name e = source_field mapping) errs'
  = filter (fun e => field_name e = source_field mapping) errs
      ++ null_contribution idx row mapping.
Proof.
  intros Hnodup Hin Hna. revert errs w Hnodup Hin.
  induction mappings as [|m mappings IH]; intros errs w Hnodup Hin; simpl.
  { now apply elem_of_nil in Hin. }
  intros Hrun. apply bind_ok_inv in Hrun as (errs1 & w1 & Hfield & Hrest).
  rewrite fmap_cons in Hnodup. apply NoDup_cons in Hnodup as [Hfresh Hnodup].
  apply elem_of_cons in Hin as [->|Hin].
  - rewrite validate_row_field_null in Hfield by assumption.
    injection Hfield as <- <-.
    apply validate_fields_errors in Hrest as (new & -> & Hnew).
    rewrite !filter_app. rewrite <- app_assoc. f_equal.
    rewrite (filter_none _ new).
    + rewrite app_nil_r. apply filter_all.
      unfold null_contribution. destruct (required m); repeat constructor.
    + eapply Forall_impl; [exact Hnew|]. intros e He Heq. simpl in He.
      apply Hfresh. rewrite <- Heq. exact He.
  - apply validate_row_field_errors in Hfield as (new & -> & Hnew).
    erewrite IH by eassumption. f_equal.
    rewrite filter_app, (filter_none _ new); [apply app_nil_r|].
    eapply Forall_impl; [exact Hnew|]. intros e He Heq. simpl in He. apply Hfresh.
    rewrite <- He, Heq. now apply list_elem_of_fmap_2.
Qed.

End RowErrors.

(** ** Equations for running a method step by step *)

Lemma bind_ret_l {A B} (a : A) (k : A -> M B) w : bind (ret a) k w = k a w.
Proof. reflexivity. Qed.

Lemma bind_raise_l {A B} e (k : A -> M B) w : bind (raise e) k w = (Raise e, w).
Proof. reflexivity. Qed.

Lemma bind_lift_ok {A B} (a : A) (k : A -> M B) w : bind (lift (Ok a)) k w = k a w.
Proof. reflexivity. Qed.

Lemma bind_lift_raise {A B} e (k : A -> M B) w : bind (lift (Raise e)) k w = (Raise e, w).
Proof. reflexivity. Qed.

Lemma bind_get_self {A B} (proj : DataValidator -> A) (k : A -> M B) w :
  bind (get_self proj) k w = k (proj (self w)) w.
Proof. reflexivity. Qed.

Lemma bind_modify_self {B} f (k : unit -> M B) w :
  bind (modify_self f) k w = k tt (mkWorld (heap w) (f (self w))).
Proof. reflexivity. Qed.

Lemma bind_get_frame {B} df d (k : DataFrame -> M B) w :
  heap w !! df = Some d -> bind (get_frame df) k w = k d w.
Proof. intros Hd. unfold bind, get_frame. now rewrite Hd. Qed.

Lemma bind_new_frame {B} d (k : positive -> M B) w :
  bind (new_frame d) k w
  = k (fresh (dom (heap w))) (mkWorld (<[fresh (dom (heap w)) := d]> (heap w)) (self w)).
Proof. reflexivity. Qed.

Lemma bind_assoc {A B C} (m : M A) (k1 : A -> M B) (k2 : B -> M C) w :
  bind (bind m k1) k2 w = bind m (fun a => bind (k1 a) k2) w.
Proof. unfold bind. destruct (m w) as [[a|e] w1]; reflexivity. Qed.

Lemma fresh_insert_subseteq (h : gmap positive DataFrame) d :
  h ⊆ <[fresh (dom h) := d]> h.
Proof. apply insert_subseteq, not_elem_of_dom, is_fresh. Qed.

(** ** Sharing out a list *)

Lemma split_of_sublist_l {A} (l l1 l2 : list A) : split_of l l1 l2 -> l1 `sublist_of` l.
Proof.
  induction 1; [constructor|now apply sublist_skip|now apply sublist_cons].
Qed.

Lemma split_of_sublist_r {A} (l l1 l2 : list A) : split_of l l1 l2 -> l2 `sublist_of` l.
Proof.
  induction 1; [constructor|now apply sublist_cons|now apply sublist_skip].
Qed.

Lemma split_of_perm {A} (l l1 l2 : list A) : split_of l l1 l2 -> l1 ++ l2 ≡ₚ l.
Proof.
  induction 1 as [|x l l1 l2 _ IH|x l l1 l2 _ IH]; simpl.
  - reflexivity.
  - now rewrite IH.
  - rewrite <- Permutation_middle. now rewrite IH.
Qed.

(** ** The loop over the rows *)

Section RowLoop.
Context `{PyRuntime}.

Lemma validate_one_ok r w w' :
  _validate_one r w = (Ok tt, w') ->
  heap w' = heap w
  /\ field_mappings (self w') = field_mappings (self w)
  /\ global_validations (self w') = global_validations (self w)
  /\ ((valid_rows (self w') = valid_rows (self w) ++ [r.1]
       /\ invalid_rows (self w') = invalid_rows (self w))
      \/ (valid_rows (self w') = valid_rows (self w)
          /\ invalid_rows (self w') = invalid_rows (self w) ++ [r.1])).
Proof.
  unfold _validate_one. intros Hrun.
  apply bind_ok_inv in Hrun as (row_errors & w1 & Hrow & Hrest).
  pose proof (validate_row_cache r.1 r.2 w) as Hcache.
  rewrite Hrow in Hcache. simpl in Hcache. destruct Hcache as [c ->].
  destruct row_errors as [|e row_errors].
  - injection Hrest as <-. simpl. auto 10.
  - unfold bind, modify_self in Hrest. injection Hrest as <-. simpl. auto 10.
Qed.

Lemma row_loop_ok rows w w' :
  for_each rows _validate_one w = (Ok tt, w') ->
  heap w' = heap w
  /\ field_mappings (self w') = field_mappings (self w)
  /\ global_validations (self w') = global_validations (self w)
  /\ exists ok bad,
      split_of rows.*1 ok bad
      /\ valid_rows (self w') = valid_rows (self w) ++ ok
      /\ invalid_rows (self w') = invalid_rows (self w) ++ bad.
Proof.
  revert w. induction rows as [|r rows IH]; intros w; simpl.
  - intros [= <-]. repeat split. exists [], []. rewrite !app_nil_r.
    repeat split. constructor.
  - intros Hrun. apply bind_ok_inv in Hrun as ([] & w1 & Hone & Hrest).
    apply validate_one_ok in Hone as (Hh & Hf & Hg & Hcase).
    apply IH in Hrest as (Hh' & Hf' & Hg' & ok & bad & Hsplit & Hok & Hbad).
    repeat split; try congruence.
    destruct Hcase as [[Hv Hi]|[Hv Hi]]; rewrite Hv in Hok; rewrite Hi in Hbad.
    + exists (r.1 :: ok), bad. rewrite <- app_assoc in Hok.
      repeat split; [now constructor|assumption|assumption].
    + exists ok, (r.1 :: bad). rewrite <- app_assoc in Hbad.
      repeat split; [now constructor|assumption|assumption].
Qed.

End RowLoop.

(** ** The dataset phase *)

Section DatasetPhase.
Context `{PyRuntime}.

Lemma demote_reading fields idx w :
  _demote fields idx w = (Ok tt, mkWorld (heap w) (demote fields idx (self w))).
Proof.
  destruct w as [h s]. unfold _demote, demote, bind, get_self, modify_self, ret. cbn.
  destruct (bool_decide (idx ∈ invalid_rows s)); [reflexivity|]. cbn.
  destruct (bool_decide (idx ∈ valid_rows s)); reflexivity.
Qed.

Lemma demote_all_reading fields idxs w :
  for_each idxs (_demote fields) w
  = (Ok tt, mkWorld (heap w) (demote_all fields idxs (self w))).
Proof.
  revert w. induction idxs as [|idx idxs IH]; intros w; simpl.
  - now destruct w.
  - erewrite bind_eq by apply demote_reading. now rewrite IH.
Qed.

(** One dataset rule: on an exception the world is as before; otherwise
    the store has grown and the lists are those of [demote_all]. *)
Lemma global_rule_reading df d rule w :
  heap w !! df = Some d ->
  match rule_duplicates d rule with
  | Raise e => _global_rule df rule w = (Raise e, w)
  | Ok None => _global_rule df rule w = (Ok tt, w)
  | Ok (Some (fields, idxs)) =>
      exists h, heap w ⊆ h
                /\ _global_rule df rule w
                   = (Ok tt, mkWorld h (demote_all fields idxs (self w)))
  end.
Proof.
  intros Hd. unfold rule_duplicates, _global_rule, dict_getitem.
  destruct (rule !! "rule_type") as [rt|]; [|reflexivity].
  rewrite bind_ret_l.
  destruct (bool_decide (rt = VStr "duplicate_check")); [|reflexivity].
  destruct (rule !! "fields") as [fv|]; [|reflexivity].
  rewrite bind_ret_l.
  destruct fv; try reflexivity.
  unfold py_split. rewrite bind_ret_l. rewrite (bind_get_frame _ _ _ _ Hd).
  destruct (duplicated d (str_split "," s)) as [mask|e]; [|reflexivity].
  rewrite bind_lift_ok. unfold frame_getitem.
  rewrite bind_assoc, (bind_get_frame _ _ _ _ Hd), bind_assoc.
  destruct (getitem_mask d mask) as [dup|e]; [|reflexivity].
  rewrite bind_lift_ok, bind_new_frame.
  erewrite bind_get_frame by apply lookup_insert_eq.
  rewrite demote_all_reading. simpl.
  eexists. split; [|reflexivity]. apply fresh_insert_subseteq.
Qed.

End DatasetPhase.

(** ** Removing the first occurrence *)

Lemma list_remove_notin x l : x ∉ l -> list_remove x l = l.
Proof.
  induction l as [|y l IH]; intros Hx; simpl; [reflexivity|].
  apply not_elem_of_cons in Hx as [Hxy Hx].
  destruct (decide (x = y)); [contradiction|]. now rewrite IH.
Qed.

Lemma list_remove_sublist x l : list_remove x l `sublist_of` l.
Proof.
  induction l as [|y l IH]; simpl; [constructor|].
  destruct (decide (x = y)); [now apply sublist_cons|now apply sublist_skip].
Qed.

Lemma list_remove_other x y l : y ∈ l -> y ≠ x -> y ∈ list_remove x l.
Proof.
  induction l as [|z l IH]; simpl; intros Hy Hne; [assumption|].
  apply elem_of_cons in Hy as [->|Hy].
  - destruct (decide (x = z)); [congruence|apply list_elem_of_here].
  - destruct (decide (x = z)); [assumption|]. apply list_elem_of_further. auto.
Qed.

(** ** The dataset phase on the lists *)

Section DatasetLists.
Context `{PyRuntime}.

Lemma demote_invalid fields idx s :
  invalid_rows (demote fields idx s)
  = invalid_rows s ++ (if bool_decide (idx ∈ invalid_rows s) then [] else [idx]).
Proof.
  unfold demote. destruct (bool_decide (idx ∈ invalid_rows s)).
  - now rewrite app_nil_r.
  - cbn. now destruct (bool_decide (idx ∈ valid_rows s)).
Qed.

Lemma demote_valid fields idx s :
  valid_rows (demote fields idx s)
  = if bool_decide (idx ∈ invalid_rows s) then valid_rows s
    else list_remove idx (valid_rows s).
Proof.
  unfold demote. destruct (bool_decide (idx ∈ invalid_rows s)); [reflexivity|].
  cbn. case_bool_decide; [reflexivity|]. cbn. now rewrite list_remove_notin.
Qed.

Lemma demote_noop fields idx s : idx ∈ invalid_rows s -> demote fields idx s = s.
Proof. intros Hin. unfold demote. now rewrite bool_decide_eq_true_2. Qed.

Lemma demote_all_cons fields idx idxs s :
  demote_all fields (idx :: idxs) s = demote_all fields idxs (demote fields idx s).
Proof. reflexivity. Qed.

(** The invalid list only grows, at its end, by labels of [idxs] in the
    order of [idxs]. *)
Lemma demote_all_invalid fields idxs s :
  exists new, invalid_rows (demote_all fields idxs s) = invalid_rows s ++ new
              /\ new `sublist_of` idxs.
Proof.
  revert s. induction idxs as [|idx idxs IH]; intros s.
  - exists []. split; [now rewrite app_nil_r|constructor].
  - rewrite demote_all_cons. destruct (IH (demote fields idx s)) as (new & -> & Hsub).
    rewrite demote_invalid. case_bool_decide.
    + exists new. rewrite app_nil_r. split; [reflexivity|now apply sublist_cons].
    + exists (idx :: new). rewrite <- app_assoc. split; [reflexivity|now apply sublist_skip].
Qed.

(** The valid list only shrinks, keeping its order. *)
Lemma demote_all_valid fields idxs s :
  valid_rows (demote_all fields idxs s) `sublist_of` valid_rows s.
Proof.
  revert s. induction idxs as [|idx idxs IH]; intros s; [reflexivity|].
  rewrite demote_all_cons. etransitivity; [apply IH|].
  rewrite demote_valid. case_bool_decide; [reflexivity|apply list_remove_sublist].
Qed.

(** After the loop every label of [idxs] is invalid. *)
Lemma demote_all_covers fields idxs s idx :
  idx ∈ idxs -> idx ∈ invalid_rows (demote_all fields idxs s).
Proof.
  revert s. induction idxs as [|i idxs IH]; intros s Hin.
  { now apply elem_of_nil in Hin. }
  rewrite demote_all_cons. apply elem_of_cons in Hin as [->|Hin]; [|now apply IH].
  destruct (demote_all_invalid fields idxs (demote fields i s)) as (new & -> & _).
  apply elem_of_app. left. rewrite demote_invalid. case_bool_decide.
  - now rewrite app_nil_r.
  - apply elem_of_app. right. apply list_elem_of_here.
Qed.

(** A second pass over labels that are all invalid changes nothing. *)
Lemma demote_all_noop fields idxs s :
  (forall idx, idx ∈ idxs -> idx ∈ invalid_rows s) -> demote_all fields idxs s = s.
Proof.
  revert s. induction idxs as [|i idxs IH]; intros s Hall; [reflexivity|].
  rewrite demote_all_cons, demote_noop by (apply Hall, list_elem_of_here).
  apply IH. intros idx Hin. now apply Hall, list_elem_of_further.
Qed.

(** A label that leaves the valid list is in the invalid list. *)
Lemma demote_all_moved fields idxs s idx :
  idx ∈ valid_rows s -> idx ∉ valid_rows (demote_all fields idxs s) ->
  idx ∈ invalid_rows (demote_all fields idxs s).
Proof.
  revert s. induction idxs as [|i idxs IH]; intros s Hin Hout; [contradiction|].
  rewrite demote_all_cons in *.
  destruct (decide (idx ∈ valid_rows (demote fields i s))) as [Hstill|Hgone].
  { now apply IH. }
  destruct (demote_all_invalid fields idxs (demote fields i s)) as (new & -> & _).
  apply elem_of_app. left.
  rewrite demote_valid in Hgone. rewrite demote_invalid.
  case_bool_decide; [contradiction|].
  destruct (decide (idx = i)) as [->|Hne].
  - apply elem_of_app. right. apply list_elem_of_here.
  - exfalso. apply Hgone. now apply list_remove_other.
Qed.

End DatasetLists.

Lemma list_remove_perm x l : x ∈ l -> l ≡ₚ x :: list_remove x l.
Proof.
  induction l as [|y l IH]; intros Hx; [now apply elem_of_nil in Hx|]. simpl.
  destruct (decide (x = y)) as [->|Hne]; [reflexivity|].
  apply elem_of_cons in Hx as [?|Hx]; [contradiction|].
  rewrite (IH Hx) at 1. apply perm_swap.
Qed.

Lemma mask_rows_sublist {A} (rows : list A) mask : mask_rows rows mask `sublist_of` rows.
Proof.
  revert mask. induction rows as [|r rows IH]; intros [|[] mask]; simpl;
    try apply sublist_nil_l.
  - apply sublist_skip, IH.
  - apply sublist_cons, IH.
Qed.

Section DatasetRules.
Context `{PyRuntime}.

(** The labels a rule marks are labels of the frame, in frame order. *)
Lemma rule_duplicates_sublist d rule fields idxs :
  rule_duplicates d rule = Ok (Some (fields, idxs)) -> idxs `sublist_of` df_index d.
Proof.
  unfold rule_duplicates.
  destruct (rule !! "rule_type") as [rt|]; [|discriminate].
  destruct (bool_decide _); [|discriminate].
  destruct (rule !! "fields") as [[]|]; try discriminate.
  destruct (duplicated _ _) as [mask|]; [|discriminate].
  unfold getitem_mask. destruct (decide _); [|discriminate].
  intros [= _ <-]. unfold df_index. simpl. apply fmap_sublist, mask_rows_sublist.
Qed.

(** One demotion keeps the two lists a sharing-out of the index. *)
Lemma demote_perm fields idx s index :
  idx ∈ index ->
  valid_rows s ++ invalid_rows s ≡ₚ index ->
  valid_rows (demote fields idx s) ++ invalid_rows (demote fields idx s) ≡ₚ index.
Proof.
  intros Hin Hperm. rewrite demote_valid, demote_invalid.
  case_bool_decide as Hinv; [now rewrite app_nil_r|].
  assert (idx ∈ valid_rows s) as Hval.
  { rewrite <- Hperm in Hin. apply elem_of_app in Hin as [?|?]; [assumption|contradiction]. }
  rewrite <- Hperm. rewrite (list_remove_perm idx (valid_rows s) Hval) at 2.
  rewrite app_assoc. rewrite (Permutation_app_comm _ [idx]). reflexivity.
Qed.

Lemma demote_all_perm fields idxs s index :
  (forall idx, idx ∈ idxs -> idx ∈ index) ->
  valid_rows s ++ invalid_rows s ≡ₚ index ->
  valid_rows (demote_all fields idxs s) ++ invalid_rows (demote_all fields idxs s) ≡ₚ index.
Proof.
  revert s. induction idxs as [|i idxs IH]; intros s Hsub Hperm; [assumption|].
  rewrite demote_all_cons. apply IH.
  - intros idx Hin. now apply Hsub, list_elem_of_further.
  - apply demote_perm; [apply Hsub, list_elem_of_here|assumption].
Qed.

Lemma run_rules_perm d rules s :
  valid_rows s ++ invalid_rows s ≡ₚ df_index d ->
  valid_rows (run_rules d rules s).2 ++ invalid_rows (run_rules d rules s).2 ≡ₚ df_index d.
Proof.
  revert s. induction rules as [|rule rules IH]; intros s Hperm; simpl; [assumption|].
  destruct (rule_duplicates d rule) as [[[fields idxs]|]|e] eqn:Hrule; simpl; auto.
  apply IH, demote_all_perm; [|assumption].
  intros idx Hin. eapply elem_of_sublist; [exact Hin|].
  eapply rule_duplicates_sublist; eassumption.
Qed.

(** The invalid list after the dataset phase: the list before, then for
    each rule in turn labels of the frame in frame order. *)
Lemma run_rules_invalid d rules s :
  exists groups,
    invalid_rows (run_rules d rules s).2 = invalid_rows s ++ concat groups
    /\ Forall (fun g => g `sublist_of` df_index d) groups
    /\ (length groups <= length rules)%nat.
Proof.
  revert s. induction rules as [|rule rules IH]; intros s; simpl.
  { exists []. simpl. rewrite app_nil_r. repeat split; [constructor|lia]. }
  destruct (rule_duplicates d rule) as [[[fields idxs]|]|e] eqn:Hrule; simpl.
  - destruct (IH (demote_all fields idxs s)) as (groups & -> & Hall & Hlen).
    destruct (demote_all_invalid fields idxs s) as (new & -> & Hnew).
    exists (new :: groups). simpl. rewrite <- app_assoc. repeat split; [|lia].
    constructor; [|assumption].
    etransitivity; [exact Hnew|]. eapply rule_duplicates_sublist; eassumption.
  - destruct (IH s) as (groups & -> & Hall & Hlen).
    exists groups. repeat split; [assumption|lia].
  - exists []. simpl. rewrite app_nil_r. repeat split; [constructor|lia].
Qed.

Lemma run_rules_valid d rules s :
  valid_rows (run_rules d rules s).2 `sublist_of` valid_rows s.
Proof.
  revert s. induction rules as [|rule rules IH]; intros s; simpl; [reflexivity|].
  destruct (rule_duplicates d rule) as [[[fields idxs]|]|e]; simpl; auto.
  etransitivity; [apply IH|apply demote_all_valid].
Qed.

Lemma run_rules_moved d rules s idx :
  idx ∈ valid_rows s -> idx ∉ valid_rows (run_rules d rules s).2 ->
  idx ∈ invalid_rows (run_rules d rules s).2.
Proof.
  revert s. induction rules as [|rule rules IH]; intros s Hin Hout; simpl in *.
  { contradiction. }
  destruct (rule_duplicates d rule) as [[[fields idxs]|]|e]; simpl in *; auto.
  - destruct (decide (idx ∈ valid_rows (demote_all fields idxs s))) as [Hstill|Hgone].
    { now apply IH. }
    destruct (run_rules_invalid d rules (demote_all fields idxs s)) as (groups & -> & _).
    apply elem_of_app. left. now apply demote_all_moved.
  - contradiction.
Qed.

(** Running the rules again on their own output changes nothing. *)
Lemma run_rules_idempotent d rules s :
  run_rules d rules (run_rules d rules s).2 = run_rules d rules s.
Proof.
  revert s. induction rules as [|rule rules IH]; intros s; simpl; [reflexivity|].
  destruct (rule_duplicates d rule) as [[[fields idxs]|]|e] eqn:Hrule; simpl.
  - rewrite demote_all_noop; [apply IH|].
    intros idx Hin.
    destruct (run_rules_invalid d rules (demote_all fields idxs s)) as (groups & -> & _).
    apply elem_of_app. left. now apply demote_all_covers.
  - apply IH.
  - reflexivity.
Qed.

(** [_run_global_validations] computes [run_rules] on the lists, and only
    adds temporary frames to the store. *)
Lemma for_each_global_rule_reading df d rules w :
  heap w !! df = Some d ->
  exists h, heap w ⊆ h
            /\ for_each rules (_global_rule df) w
               = ((run_rules d rules (self w)).1, mkWorld h (run_rules d rules (self w)).2).
Proof.
  revert w. induction rules as [|rule rules IH]; intros w Hd; simpl.
  { exists (heap w). split; [reflexivity|now destruct w]. }
  pose proof (global_rule_reading df d rule w Hd) as Hrule.
  destruct (rule_duplicates d rule) as [[[fields idxs]|]|e].
  - destruct Hrule as (h1 & Hsub1 & Hrule).
    rewrite (bind_eq _ _ _ _ _ Hrule).
    destruct (IH (mkWorld h1 (demote_all fields idxs (self w)))) as (h & Hsub & ->).
    { simpl. eapply lookup_weaken; eassumption. }
    exists h. split; [|reflexivity]. etransitivity; eassumption.
  - rewrite (bind_eq _ _ _ _ _ Hrule). now apply IH.
  - rewrite (bind_raise _ _ _ _ _ Hrule).
    exists (heap w). split; [reflexivity|now destruct w].
Qed.

Lemma run_global_validations_reading df d w :
  heap w !! df = Some d ->
  exists h, heap w ⊆ h
            /\ _run_global_validations df w
               = ((run_rules d (global_validations (self w)) (self w)).1,
                  mkWorld h (run_rules d (global_validations (self w)) (self w)).2).
Proof.
  intros Hd. unfold _run_global_validations. rewrite bind_get_self.
  now apply for_each_global_rule_reading.
Qed.

End DatasetRules.

(** ** The store *)

Section Store.
Context `{PyRuntime}.

Lemma store_grows_set_errors (f : DataValidator -> list ValidationError) :
  respects store_grows (modify_self (fun s => set_errors (f s) s)).
Proof. apply store_grows_modify_self; reflexivity. Qed.

Lemma store_grows_set_valid_rows (f : DataValidator -> list Z) :
  respects store_grows (modify_self (fun s => set_valid_rows (f s) s)).
Proof. apply store_grows_modify_self; reflexivity. Qed.

Lemma store_grows_set_invalid_rows (f : DataValidator -> list Z) :
  respects store_grows (modify_self (fun s => set_invalid_rows (f s) s)).
Proof. apply store_grows_modify_self; reflexivity. Qed.

Lemma store_grows_reset (f : DataValidator -> DataValidator) :
  f = set_errors [] \/ f = set_valid_rows [] \/ f = set_invalid_rows [] ->
  respects store_grows (modify_self f).
Proof. intros [->|[->| ->]]; apply store_grows_modify_self; reflexivity. Qed.

#[local] Hint Resolve store_grows_set_errors store_grows_set_valid_rows
  store_grows_set_invalid_rows store_grows_new_frame : respects.

Lemma validate_row_store idx row : respects store_grows (_validate_row idx row).
Proof. intros w. apply same_but_cache_store_grows, validate_row_cache. Qed.
#[local] Hint Resolve validate_row_store : respects.

Lemma validate_one_store r : respects store_grows (_validate_one r).
Proof. unfold _validate_one. respects_auto. Qed.
#[local] Hint Resolve validate_one_store : respects.

Lemma validate_columns_store df : respects store_grows (_validate_columns df).
Proof. unfold _validate_columns. respects_auto. Qed.
#[local] Hint Resolve validate_columns_store : respects.

Lemma demote_store fields idx : respects store_grows (_demote fields idx).
Proof. unfold _demote. respects_auto. Qed.
#[local] Hint Resolve demote_store : respects.

Lemma frame_getitem_store df mask : respects store_grows (frame_getitem df mask).
Proof. unfold frame_getitem. respects_auto. Qed.
#[local] Hint Resolve frame_getitem_store : respects.

Lemma global_rule_store df rule : respects store_grows (_global_rule df rule).
Proof. unfold _global_rule, dict_getitem, py_split. respects_auto. Qed.
#[local] Hint Resolve global_rule_store : respects.

Lemma run_global_validations_store df : respects store_grows (_run_global_validations df).
Proof. unfold _run_global_validations. respects_auto. Qed.
#[local] Hint Resolve run_global_validations_store : respects.

Lemma select_rows_store df labels : respects store_grows (select_rows df labels).
Proof. unfold select_rows, frame_loc, frame_copy. respects_auto. Qed.
#[local] Hint Resolve select_rows_store : respects.

Lemma print_summary_store total valid invalid :
  respects store_grows (_print_summary total valid invalid).
Proof. unfold _print_summary. respects_auto. Qed.
#[local] Hint Resolve print_summary_store : respects.

(** Whether it returns or raises, [validate_dataframe] keeps every frame
    of the store and the configuration of the validator. *)
Lemma validate_dataframe_store df : respects store_grows (validate_dataframe df).
Proof.
  unfold validate_dataframe.
  apply respects_bind; [typeclasses eauto|apply store_grows_reset; auto|intros _].
  apply respects_bind; [typeclasses eauto|apply store_grows_reset; auto|intros _].
  apply respects_bind; [typeclasses eauto|apply store_grows_reset; auto|intros _].
  respects_auto.
Qed.

(** A selection is a new object of the store; the validator is untouched. *)
Lemma select_rows_ok df labels w l w' :
  select_rows df labels w = (Ok l, w') ->
  self w' = self w
  /\ heap w ⊆ heap w'
  /\ (l ∉ dom (heap w))
  /\ exists dl, heap w' !! l = Some dl
                /\ forall d, heap w !! df = Some d ->
                             loc_rows (df_rows d) labels = Ok (df_rows dl).
Proof.
  unfold select_rows. destruct labels as [|label labels].
  - intros [= <- <-]. simpl. repeat split.
    + apply fresh_insert_subseteq.
    + apply is_fresh.
    + exists empty_frame. split; [apply lookup_insert_eq|reflexivity].
  - set (ls := label :: labels). unfold frame_loc, frame_copy.
    rewrite !bind_assoc. unfold bind at 1, get_frame at 1.
    destruct (heap w !! df) as [d|] eqn:Hd; [|discriminate].
    rewrite bind_assoc. unfold loc_.
    destruct (loc_rows (df_rows d) ls) as [rows|e] eqn:Hloc; [|discriminate].
    rewrite bind_lift_ok, bind_new_frame.
    erewrite bind_get_frame by apply lookup_insert_eq.
    intros [= <- <-]. simpl.
    set (tmp := fresh (dom (heap w))).
    set (h1 := <[tmp := mkDataFrame (df_columns d) rows]> (heap w)).
    assert (heap w ⊆ h1) as Hsub1 by apply fresh_insert_subseteq.
    repeat split.
    + etransitivity; [exact Hsub1|apply fresh_insert_subseteq].
    + intros Hin. apply (is_fresh (dom h1)).
      eapply subseteq_dom in Hsub1. now apply Hsub1.
    + eexists. split; [apply lookup_insert_eq|].
      intros d' [= <-]. exact Hloc.
Qed.

End Store.

(** ** The whole call *)

Section Pipeline.
Context `{PyRuntime}.

Lemma missing_columns_empty (mappings : list FieldMapping) (columns : list string) :
  (list_to_set (source_field <$> mappings) ∖ list_to_set columns : gset string) = ∅
  <-> forall m, m ∈ mappings -> source_field m ∈ columns.
Proof.
  split.
  - intros Hempty m Hm.
    destruct (decide (source_field m ∈ columns)) as [|Hnot]; [assumption|].
    exfalso. apply (not_elem_of_empty (C:=gset string) (source_field m)).
    rewrite <- Hempty. apply elem_of_difference. split.
    + apply elem_of_list_to_set. now apply list_elem_of_fmap_2.
    + now rewrite elem_of_list_to_set.
  - intros Hall. apply set_eq. intros x. split; [|intros Hx; now apply not_elem_of_empty in Hx].
    intros Hx. apply elem_of_difference in Hx as [Hin Hnot].
    apply elem_of_list_to_set, list_elem_of_fmap in Hin as (m & -> & Hm).
    exfalso. apply Hnot, elem_of_list_to_set. auto.
Qed.

Lemma validate_columns_ok df d w w' :
  heap w !! df = Some d ->
  _validate_columns df w = (Ok tt, w') ->
  w' = w /\ forall m, m ∈ field_mappings (self w) -> source_field m ∈ df_columns d.
Proof.
  intros Hd. unfold _validate_columns.
  rewrite bind_get_self, (bind_get_frame _ _ _ _ Hd).
  destruct (decide _) as [Hempty|]; [|discriminate].
  intros [= <-]. split; [reflexivity|]. now apply missing_columns_empty.
Qed.

Lemma validate_columns_present df d w :
  heap w !! df = Some d ->
  (forall m, m ∈ field_mappings (self w) -> source_field m ∈ df_columns d) ->
  _validate_columns df w = (Ok tt, w).
Proof.
  intros Hd Hall. unfold _validate_columns.
  rewrite bind_get_self, (bind_get_frame _ _ _ _ Hd).
  destruct (decide _) as [|Hne]; [reflexivity|].
  exfalso. now apply Hne, missing_columns_empty.
Qed.

Lemma validate_columns_missing df d w m :
  heap w !! df = Some d ->
  m ∈ field_mappings (self w) ->
  source_field m ∉ df_columns d ->
  exists missing : gset string,
    source_field m ∈ missing /\ _validate_columns df w = (Raise (ValueError missing), w).
Proof.
  intros Hd Hm Hnot. unfold _validate_columns.
  rewrite bind_get_self, (bind_get_frame _ _ _ _ Hd).
  destruct (decide _) as [Hempty|].
  { exfalso. apply Hnot. eapply missing_columns_empty; eassumption. }
  eexists. split; [|reflexivity].
  apply elem_of_difference. split.
  - apply elem_of_list_to_set. now apply list_elem_of_fmap_2.
  - now rewrite elem_of_list_to_set.
Qed.

(** What a call that returns has done, phase by phase. *)
Lemma validate_dataframe_ok df d w v i w' :
  heap w !! df = Some d ->
  validate_dataframe df w = (Ok (v, i), w') ->
  exists s0 dv di,
    split_of (df_index d) (valid_rows s0) (invalid_rows s0)
    /\ global_validations s0 = global_validations (self w)
    /\ run_rules d (global_validations (self w)) s0 = (Ok tt, self w')
    /\ heap w ⊆ heap w'
    /\ heap w' !! v = Some dv
    /\ heap w' !! i = Some di
    /\ loc_rows (df_rows d) (valid_rows (self w')) = Ok (df_rows dv)
    /\ loc_rows (df_rows d) (invalid_rows (self w')) = Ok (df_rows di)
    /\ (v ∉ dom (heap w)) /\ (i ∉ dom (heap w)) /\ v ≠ i
    /\ df_rows d ≠ []
    /\ forall m, m ∈ field_mappings (self w) -> source_field m ∈ df_columns d.
Proof.
  intros Hd Hrun. unfold validate_dataframe in Hrun.
  rewrite !bind_modify_self in Hrun. simpl in Hrun.
  fold (reset_lists (self w)) in Hrun.
  set (w0 := mkWorld (heap w) (reset_lists (self w))) in *.
  assert (heap w0 !! df = Some d) as Hd0 by exact Hd.
  apply bind_ok_inv in Hrun as ([] & w1 & Hcols & Hrun).
  apply (validate_columns_ok df d) in Hcols as [-> Hpresent]; [|exact Hd0].
  rewrite (bind_get_frame _ _ _ _ Hd0) in Hrun.
  apply bind_ok_inv in Hrun as ([] & w2 & Hrows & Hrun).
  apply row_loop_ok in Hrows as (Hh2 & Hf2 & Hg2 & ok & bad & Hsplit & Hok & Hbad).
  simpl in Hh2, Hf2, Hg2, Hok, Hbad.
  apply bind_ok_inv in Hrun as ([] & w3 & Hglob & Hrun).
  assert (heap w2 !! df = Some d) as Hd2 by now rewrite Hh2.
  destruct (run_global_validations_reading df d w2 Hd2) as (h3 & Hsub3 & Hglob').
  rewrite Hglob' in Hglob. injection Hglob as Hres <-.
  rewrite bind_get_self in Hrun. cbn [self] in Hrun.
  apply bind_ok_inv in Hrun as (v' & w4 & Hsel1 & Hrun).
  apply select_rows_ok in Hsel1 as (Hs4 & Hsub4 & Hfresh4 & dv & Hdv & Hloc1).
  cbn [self heap] in Hs4, Hsub4, Hfresh4, Hloc1.
  rewrite bind_get_self in Hrun. rewrite Hs4 in Hrun.
  apply bind_ok_inv in Hrun as (i' & w5 & Hsel2 & Hrun).
  apply select_rows_ok in Hsel2 as (Hs5 & Hsub5 & Hfresh5 & di & Hdi & Hloc2).
  assert (heap w ⊆ heap w5) as Hsub.
  { rewrite <- Hh2. etransitivity; [exact Hsub3|]. etransitivity; eassumption. }
  assert (heap w5 !! df = Some d) as Hd5 by exact (lookup_weaken _ _ _ _ Hd Hsub).
  assert (heap w5 !! v' = Some dv) as Hdv5 by (eapply lookup_weaken; eassumption).
  rewrite (bind_get_frame _ _ _ _ Hd5), (bind_get_frame _ _ _ _ Hdv5),
    (bind_get_frame _ _ _ _ Hdi) in Hrun.
  unfold _print_summary in Hrun.
  destruct (decide (df_len d = 0%nat)) as [|Hlen]; [discriminate|].
  rewrite bind_ret_l in Hrun. injection Hrun as <- <- <-.
  assert (h3 !! df = Some d) as Hd3 by exact (lookup_weaken _ _ _ _ Hd2 Hsub3).
  assert (heap w4 !! df = Some d) as Hd4 by exact (lookup_weaken _ _ _ _ Hd3 Hsub4).
  specialize (Hloc1 d Hd3). specialize (Hloc2 d Hd4).
  rewrite Hg2 in Hres, Hs4, Hloc1, Hloc2.
  exists (self w2), dv, di. rewrite Hs5, Hs4, Hok, Hbad.
  repeat split; try assumption.
  - destruct (run_rules d _ _) as [r s3]. simpl in *. now subst r.
  - intros Hin. apply Hfresh4. rewrite <- Hh2 in Hin.
    eapply subseteq_dom in Hsub3. now apply Hsub3.
  - intros Hin. apply Hfresh5. rewrite <- Hh2 in Hin.
    eapply subseteq_dom in Hsub3, Hsub4. now apply Hsub4, Hsub3.
  - intros ->. apply Hfresh5. apply elem_of_dom. eauto.
  - unfold df_len in Hlen. now destruct (df_rows d).
Qed.

End Pipeline.

Section DatasetConfig.
Context `{PyRuntime}.

Lemma demote_config fields idx s :
  global_validations (demote fields idx s) = global_validations s.
Proof.
  unfold demote. destruct (bool_decide _); [reflexivity|]. cbn.
  now destruct (bool_decide _).
Qed.

Lemma demote_all_config fields idxs s :
  global_validations (demote_all fields idxs s) = global_validations s.
Proof.
  revert s. induction idxs as [|idx idxs IH]; intros s; [reflexivity|].
  rewrite demote_all_cons, IH. apply demote_config.
Qed.

Lemma run_rules_config d rules s :
  global_validations (run_rules d rules s).2 = global_validations s.
Proof.
  revert s. induction rules as [|rule rules IH]; intros s; simpl; [reflexivity|].
  destruct (rule_duplicates d rule) as [[[fields idxs]|]|e]; simpl; auto.
  rewrite IH. apply demote_all_config.
Qed.

End DatasetConfig.

(** ** Selecting rows by label *)

Lemma filter_label_notin (rows : list (Z * gmap string Value)) (l : Z) :
  l ∉ rows.*1 -> filter (fun r => r.1 = l) rows = [].
Proof.
  intros Hnot. apply filter_none. apply Forall_forall. intros r Hr Heq.
  apply Hnot. rewrite <- Heq. now apply list_elem_of_fmap_2.
Qed.

Lemma loc_rows_skip r rows labels :
  r.1 ∉ labels -> loc_rows (r :: rows) labels = loc_rows rows labels.
Proof.
  induction labels as [|l labels IH]; intros Hnot; simpl; [reflexivity|].
  apply not_elem_of_cons in Hnot as [Hne Hnot].
  rewrite filter_cons_False by (simpl; congruence).
  now rewrite IH.
Qed.

(** With distinct labels, a selection by labels in frame order lists the
    rows in frame order. *)
Lemma loc_rows_sublist rows labels rs :
  NoDup rows.*1 ->
  labels `sublist_of` rows.*1 ->
  loc_rows rows labels = Ok rs ->
  rs `sublist_of` rows.
Proof.
  revert labels rs. induction rows as [|r rows IH]; intros labels rs Hnodup Hsub.
  { apply sublist_nil_r in Hsub as ->. simpl. now intros [= <-]. }
  rewrite fmap_cons in Hnodup, Hsub. apply NoDup_cons in Hnodup as [Hfresh Hnodup].
  apply sublist_cons_r in Hsub as [Hsub|(labels' & -> & Hsub)].
  - rewrite loc_rows_skip.
    + intros Hloc. apply sublist_cons. eapply IH; eassumption.
    + intros Hin. apply Hfresh. eapply elem_of_sublist; eassumption.
  - simpl. rewrite filter_cons_True by reflexivity.
    rewrite filter_label_notin by assumption.
    rewrite loc_rows_skip.
    + destruct (loc_rows rows labels') as [rest|e] eqn:Hrest; [|discriminate].
      intros [= <-]. simpl. apply sublist_skip. eapply IH; eauto.
    + intros Hin. apply Hfresh. eapply elem_of_sublist; eassumption.
Qed.

Lemma loc_rows_app rows l1 l2 rs :
  loc_rows rows (l1 ++ l2) = Ok rs ->
  exists rs1 rs2, rs = rs1 ++ rs2 /\ loc_rows rows l1 = Ok rs1 /\ loc_rows rows l2 = Ok rs2.
Proof.
  revert rs. induction l1 as [|l l1 IH]; intros rs; simpl.
  { intros Hloc. exists [], rs. auto. }
  destruct (filter _ rows) as [|hit hits]; [discriminate|].
  destruct (loc_rows rows (l1 ++ l2)) as [rest|e]; [|discriminate].
  intros [= <-]. destruct (IH rest eq_refl) as (rs1 & rs2 & -> & -> & ->).
  exists ((hit :: hits) ++ rs1), rs2. rewrite <- app_assoc. auto.
Qed.

Lemma loc_rows_concat rows groups rs :
  loc_rows rows (concat groups) = Ok rs ->
  exists picked, rs = concat picked
                 /\ Forall2 (fun g p => loc_rows rows g = Ok p) groups picked.
Proof.
  revert rs. induction groups as [|g groups IH]; intros rs; simpl.
  { intros [= <-]. exists []. split; [reflexivity|constructor]. }
  intros Hloc. apply loc_rows_app in Hloc as (rs1 & rs2 & -> & Hg & Hrest).
  destruct (IH rs2 Hrest) as (picked & -> & Hall).
  exists (rs1 :: picked). split; [reflexivity|now constructor].
Qed.

(** ** The dataset phase on a batch without rows *)

Section EmptyBatch.
Context `{PyRuntime}.

Lemma rule_duplicates_empty d rule :
  df_rows d = [] -> dataset_rule_ok rule ->
  rule_duplicates d rule = Ok None
  \/ exists fields, rule_duplicates d rule = Ok (Some (fields, [])).
Proof.
  intros Hrows [[rt Hrt] Hfields]. unfold rule_duplicates. rewrite Hrt.
  case_bool_decide as Hdup; [|now left]. subst rt.
  destruct (Hfields Hrt) as [s ->]. right.
  unfold duplicated, df_empty. rewrite Hrows.
  unfold getitem_mask. rewrite Hrows. simpl. eauto.
Qed.

Lemma run_rules_empty d rules s :
  df_rows d = [] -> Forall dataset_rule_ok rules -> run_rules d rules s = (Ok tt, s).
Proof.
  intros Hrows Hall. induction Hall as [|rule rules Hrule _ IH]; simpl; [reflexivity|].
  destruct (rule_duplicates_empty d rule Hrows Hrule) as [->|[fields ->]]; exact IH.
Qed.

End EmptyBatch.

(** ** Matching a prefix *)

Lemma elem_of_flat_map {A B} (f : A -> list B) (l : list A) (y : B) :
  y ∈ flat_map f l <-> exists x, x ∈ l /\ y ∈ f x.
Proof.
  rewrite list_elem_of_In, in_flat_map. split.
  - intros (x & Hx & Hy). exists x. now rewrite !list_elem_of_In.
  - intros (x & Hx & Hy). exists x. now rewrite <- !list_elem_of_In.
Qed.

Lemma list_ascii_of_string_app (s t : string) :
  list_ascii_of_string (s +:+ t) = list_ascii_of_string s ++ list_ascii_of_string t.
Proof. induction s as [|c s IH]; simpl; [reflexivity|now rewrite IH]. Qed.

Lemma step_char_extend s t p i j : j ∈ step_char s p i -> j ∈ step_char (s ++ t) p i.
Proof.
  unfold step_char. destruct (s !! i) as [c|] eqn:Hc.
  - now rewrite (lookup_app_l_Some _ _ _ _ Hc).
  - intros Hin. now apply elem_of_nil in Hin.
Qed.

Lemma star_ends_mono (step step' : nat -> list nat) fuel fuel' i j :
  (forall a b, b ∈ step a -> b ∈ step' a) ->
  (fuel <= fuel')%nat ->
  j ∈ star_ends step fuel i -> j ∈ star_ends step' fuel' i.
Proof.
  intros Hstep. revert fuel' i. induction fuel as [|fuel IH]; intros fuel' i Hle; simpl.
  - intros Hj. apply list_elem_of_singleton in Hj as ->.
    destruct fuel'; apply list_elem_of_here.
  - destruct fuel' as [|fuel']; [lia|]. simpl.
    intros Hj. apply elem_of_cons in Hj as [->|Hj]; [apply list_elem_of_here|].
    apply list_elem_of_further. apply elem_of_flat_map in Hj as (k & Hk & Hj).
    apply elem_of_flat_map. exists k. split; [now apply Hstep|].
    destruct (decide (i < k)%nat); [|assumption]. apply IH; [lia|assumption].
Qed.

(** A match of a regex without [$] is still a match when the subject is
    extended. *)
Lemma ends_extend s t r i j :
  eol_free r = true -> j ∈ ends s r i -> j ∈ ends (s ++ t) r i.
Proof.
  revert i j. induction r as [|c| |neg ranges|r1 IH1 r2 IH2|r1 IH1 r2 IH2|r IH| |];
    intros i j Hfree; simpl in *; try discriminate; try (apply step_char_extend);
    try (intros Hj; exact Hj).
  - apply andb_true_iff in Hfree as [Hf1 Hf2].
    intros Hj. apply elem_of_flat_map in Hj as (k & Hk & Hj).
    apply elem_of_flat_map. exists k. auto.
  - apply andb_true_iff in Hfree as [Hf1 Hf2].
    intros Hj. apply elem_of_app in Hj as [Hj|Hj]; apply elem_of_app; auto.
  - apply star_ends_mono; [auto|]. rewrite length_app. lia.
Qed.

Lemma re_match_extend r s t :
  eol_free r = true -> re_match r s = true -> re_match r (s +:+ t) = true.
Proof.
  unfold re_match. intros Hfree. rewrite list_ascii_of_string_app.
  destruct (ends (list_ascii_of_string s) r 0) as [|j js] eqn:Hends; [discriminate|].
  intros _.
  assert (j ∈ ends (list_ascii_of_string s ++ list_ascii_of_string t) r 0) as Hj.
  { apply ends_extend; [assumption|]. rewrite Hends. apply list_elem_of_here. }
  destruct (ends (list_ascii_of_string s ++ list_ascii_of_string t) r 0);
    [now apply elem_of_nil in Hj|reflexivity].
Qed.

(** A match of the whole subject is a match at its start. *)
Lemma re_fullmatch_match r s : re_fullmatch r s = true -> re_match r s = true.
Proof.
  unfold re_fullmatch, re_match. intros Hfull. apply bool_decide_eq_true in Hfull.
  revert Hfull. destruct (ends _ r 0); intros Hfull;
    [now apply elem_of_nil in Hfull|reflexivity].
Qed.

(** ** The rule evaluators *)

Section Rules.
Context `{PyRuntime}.

Lemma apply_rule_range idx field value rule w :
  rule_type rule = "range" ->
  _apply_rule idx field value rule w = (rule_range idx field value rule, w).
Proof. intros Hty. unfold _apply_rule. now rewrite Hty. Qed.

Lemma apply_rule_regex idx field value rule w :
  rule_type rule = "regex" ->
  _apply_rule idx field value rule w = (rule_regex idx field value rule, w).
Proof. intros Hty. unfold _apply_rule. now rewrite Hty. Qed.

Lemma apply_rule_lookup idx field value rule w :
  rule_type rule = "lookup" ->
  _apply_rule idx field value rule w = rule_lookup idx field value rule w.
Proof. intros Hty. unfold _apply_rule. now rewrite Hty. Qed.

Lemma lower_bound_check x o :
  bound_ok o ->
  (if is_not_None o then float_lt_value x (default VNone o) else Some false)
  = Some (from_option (float_lt x) false (o ≫= number_of)).
Proof. destruct o as [[]|]; simpl; intros Hok; (reflexivity || contradiction). Qed.

Lemma upper_bound_check x o :
  bound_ok o ->
  (if is_not_None o then float_gt_value x (default VNone o) else Some false)
  = Some (from_option (fun h => float_lt h x) false (o ≫= number_of)).
Proof. destruct o as [[]|]; simpl; intros Hok; (reflexivity || contradiction). Qed.

End Rules.

(** ** The matcher computes the meaning of a regex *)

Lemma step_char_spec s p i j :
  j ∈ step_char s p i <-> exists c, s !! i = Some c /\ p c = true /\ j = S i.
Proof.
  unfold step_char. destruct (s !! i) as [c|].
  - destruct (p c) eqn:Hp.
    + rewrite list_elem_of_singleton. split; [eauto|].
      now intros (c' & _ & _ & ->).
    + rewrite elem_of_nil. split; [contradiction|].
      intros (c' & [= <-] & Hp' & _). congruence.
  - rewrite elem_of_nil. split; [contradiction|]. now intros (c' & [=] & _).
Qed.

Lemma star_ends_sound s r fuel i j :
  (forall a b, b ∈ ends s r a -> matches s r a b) ->
  j ∈ star_ends (ends s r) fuel i -> matches s (RStar r) i j.
Proof.
  intros Hstep. revert i. induction fuel as [|fuel IH]; intros i; simpl.
  - intros Hj. apply list_elem_of_singleton in Hj as ->. constructor.
  - intros Hj. apply elem_of_cons in Hj as [->|Hj]; [constructor|].
    apply elem_of_flat_map in Hj as (k & Hk & Hj).
    destruct (decide (i < k)%nat); [|now apply elem_of_nil in Hj].
    eapply matches_star_cons; [apply Hstep; eassumption|now apply IH].
Qed.

Lemma ends_sound s r i j : j ∈ ends s r i -> matches s r i j.
Proof.
  revert i j. induction r as [|c| |neg ranges|r1 IH1 r2 IH2|r1 IH1 r2 IH2|r IH| |];
    intros i j; simpl.
  - intros Hj. apply list_elem_of_singleton in Hj as ->. constructor.
  - intros Hj. apply step_char_spec in Hj as (d & Hd & Heq & ->).
    apply Ascii.eqb_eq in Heq as ->. now constructor.
  - intros Hj. apply step_char_spec in Hj as (d & Hd & Hne & ->).
    apply matches_any with d; [assumption|].
    intros ->. now rewrite Ascii.eqb_refl in Hne.
  - intros Hj. apply step_char_spec in Hj as (d & Hd & Hin & ->).
    now apply matches_set with d.
  - intros Hj. apply elem_of_flat_map in Hj as (k & Hk & Hj).
    eapply matches_cat; eauto.
  - intros Hj. apply elem_of_app in Hj as [Hj|Hj].
    + apply matches_alt_l. auto.
    + apply matches_alt_r. auto.
  - apply star_ends_sound. exact IH.
  - destruct (decide (i = 0)%nat) as [->|]; intros Hj.
    + apply list_elem_of_singleton in Hj as ->. constructor.
    + now apply elem_of_nil in Hj.
  - destruct (decide (i = length s)) as [Hi|Hi].
    { intros Hj. apply list_elem_of_singleton in Hj as ->. constructor. now left. }
    destruct (decide (drop i s = [newline])) as [Hd|Hd]; intros Hj.
    + apply list_elem_of_singleton in Hj as ->. constructor. now right.
    + now apply elem_of_nil in Hj.
Qed.

(** A match ends at or after its start, and inside the subject. *)
Lemma matches_bounds s r i j :
  matches s r i j -> (i <= j)%nat /\ ((i <= length s)%nat -> (j <= length s)%nat).
Proof.
  induction 1 as [i|c i Hc|c i Hc _|neg ranges c i Hc _|r1 r2 i k j _ [IH1 IH1'] _ [IH2 IH2']
                 |r1 r2 i j _ IH|r1 r2 i j _ IH|r i|r i k j _ [IH1 IH1'] _ [IH2 IH2']| |i _].
  - auto.
  - apply lookup_lt_Some in Hc. lia.
  - apply lookup_lt_Some in Hc. lia.
  - apply lookup_lt_Some in Hc. lia.
  - split; [lia|auto].
  - exact IH.
  - exact IH.
  - auto.
  - split; [lia|auto].
  - auto.
  - auto.
Qed.

(** Once the fuel covers what is left of the subject, more fuel reaches
    nothing new. *)
Lemma star_ends_fuel (step : nat -> list nat) len fuel fuel' i j :
  (forall a b, (a <= len)%nat -> b ∈ step a -> (b <= len)%nat) ->
  (i <= len)%nat ->
  (len - i <= fuel)%nat ->
  j ∈ star_ends step fuel' i -> j ∈ star_ends step fuel i.
Proof.
  intros Hstep. revert fuel' i. induction fuel as [|fuel IH]; intros fuel' i Hi Hfuel.
  - destruct fuel' as [|fuel']; simpl; [auto|].
    intros Hj. apply elem_of_cons in Hj as [->|Hj]; [apply list_elem_of_here|].
    apply elem_of_flat_map in Hj as (k & Hk & Hj).
    apply Hstep in Hk; [|assumption].
    destruct (decide (i < k)%nat); [lia|now apply elem_of_nil in Hj].
  - destruct fuel' as [|fuel']; simpl.
    + intros Hj. apply list_elem_of_singleton in Hj as ->. apply list_elem_of_here.
    + intros Hj. apply elem_of_cons in Hj as [->|Hj]; [apply list_elem_of_here|].
      apply list_elem_of_further.
      apply elem_of_flat_map in Hj as (k & Hk & Hj).
      apply elem_of_flat_map. exists k. split; [assumption|].
      destruct (decide (i < k)%nat); [|assumption].
      pose proof (Hstep i k Hi Hk).
      eapply IH; [lia|lia|eassumption].
Qed.

Lemma ends_complete s r i j :
  matches s r i j -> (i <= length s)%nat -> j ∈ ends s r i.
Proof.
  induction 1 as [i|c i Hc|c i Hc Hne|neg ranges c i Hc Hin|r1 r2 i k j H1 IH1 H2 IH2
                 |r1 r2 i j _ IH|r1 r2 i j _ IH|r i|r i k j H1 IH1 H2 IH2| |i Hi];
    intros Hle; simpl.
  - apply list_elem_of_here.
  - apply step_char_spec. exists c. now rewrite Ascii.eqb_refl.
  - apply step_char_spec. exists c. repeat split; [assumption|].
    apply negb_true_iff, Ascii.eqb_neq. exact Hne.
  - apply step_char_spec. eauto.
  - apply elem_of_flat_map. exists k. split; [auto|].
    apply IH2. now apply (matches_bounds s r1 i k).
  - apply elem_of_app. auto.
  - apply elem_of_app. auto.
  - destruct (length s); apply list_elem_of_here.
  - specialize (IH1 Hle).
    destruct (matches_bounds s r i k H1) as [Hik Hk].
    specialize (IH2 (Hk Hle)). simpl in IH2.
    destruct (decide (i = k)) as [<-|Hne]; [exact IH2|].
    destruct (length s) as [|n] eqn:Hlen; [specialize (Hk Hle); lia|].
    simpl. apply list_elem_of_further, elem_of_flat_map. exists k. split; [assumption|].
    destruct (decide (i < k)%nat); [|lia].
    apply (star_ends_fuel _ (S n) n (S n)); [|lia|lia|exact IH2].
    intros a b Ha Hb. apply ends_sound, matches_bounds in Hb as [_ Hb].
    rewrite <- Hlen. apply Hb. lia.
  - apply list_elem_of_here.
  - destruct (decide (i = length s)); [apply list_elem_of_here|].
    destruct Hi as [?|Hd]; [contradiction|].
    destruct (decide (drop i s = [newline])); [apply list_elem_of_here|contradiction].
Qed.

(** [ends] lists exactly the ends of the matches that start at [i]. *)
Lemma ends_matches s r i j :
  (i <= length s)%nat -> j ∈ ends s r i <-> matches s r i j.
Proof. intros Hi. split; [apply ends_sound|intros Hm; now apply ends_complete]. Qed.

(** [re.match] succeeds exactly when the pattern matches a prefix. *)
Lemma re_match_spec r s :
  re_match r s = true <-> exists j, matches (list_ascii_of_string s) r 0 j.
Proof.
  unfold re_match. split.
  - destruct (ends _ r 0) as [|j js] eqn:Hends; [discriminate|]. intros _.
    exists j. apply ends_sound. rewrite Hends. apply list_elem_of_here.
  - intros [j Hj]. apply ends_complete in Hj; [|lia].
    destruct (ends _ r 0); [now apply elem_of_nil in Hj|reflexivity].
Qed.

(** [re.fullmatch] succeeds exactly when the pattern matches the whole
    subject. *)
Lemma re_fullmatch_spec r s :
  re_fullmatch r s = true
  <-> matches (list_ascii_of_string s) r 0 (length (list_ascii_of_string s)).
Proof.
  unfold re_fullmatch. rewrite bool_decide_eq_true. apply ends_matches. lia.
Qed.

(** ** What the result of row validation depends on *)

Section WorldBlind.

Lemma world_blind_ret {A} (a : A) : world_blind (ret a).
Proof. now intros w1 w2. Qed.

Lemma world_blind_lift {A} (r : result A) : world_blind (lift r).
Proof. now intros w1 w2. Qed.

Lemma world_blind_bind {A B} (m : M A) (k : A -> M B) :
  world_blind m -> (forall a, world_blind (k a)) -> world_blind (bind m k).
Proof.
  intros Hm Hk w1 w2. unfold bind. specialize (Hm w1 w2).
  destruct (m w1) as [[a1|e1] w1'], (m w2) as [[a2|e2] w2']; simpl in *; try discriminate.
  - injection Hm as <-. apply Hk.
  - now injection Hm as <-.
Qed.

Lemma world_blind_fold_loop {A B} (l : list A) (body : B -> A -> M B) acc :
  (forall b x, world_blind (body b x)) -> world_blind (fold_loop l body acc).
Proof.
  intros Hbody. revert acc. induction l as [|x l IH]; intros acc; simpl.
  - apply world_blind_ret.
  - apply world_blind_bind; auto.
Qed.

End WorldBlind.

Section RowResult.
Context `{PyRuntime}.

Lemma rule_lookup_result idx field value rule : world_blind (rule_lookup idx field value rule).
Proof.
  intros w1 w2. unfold rule_lookup, bind, get_self, modify_self, ret. simpl.
  destruct (bool_decide (_ ∈ dom (_lookup_cache (self w1))));
    destruct (bool_decide (_ ∈ dom (_lookup_cache (self w2))));
    now destruct (_ && _).
Qed.

Lemma apply_rule_result idx field value rule : world_blind (_apply_rule idx field value rule).
Proof.
  unfold _apply_rule.
  repeat match goal with
         | |- world_blind (if ?b then _ else _) => destruct b
         end;
    auto using world_blind_ret, world_blind_lift, rule_lookup_result.
Qed.

Lemma validate_row_field_result idx row acc m :
  world_blind (_validate_row_field idx row acc m).
Proof.
  unfold _validate_row_field.
  destruct (_ && _); [apply world_blind_ret|].
  destruct (_ && _); [apply world_blind_ret|].
  apply world_blind_fold_loop. intros b rule. unfold _validate_row_rule.
  apply world_blind_bind; [apply apply_rule_result|].
  intros [e|]; apply world_blind_ret.
Qed.

(** The result of [_validate_row] depends on the world through the schema
    only. *)
Lemma validate_row_result idx row w1 w2 :
  field_mappings (self w1) = field_mappings (self w2) ->
  (_validate_row idx row w1).1 = (_validate_row idx row w2).1.
Proof.
  intros Hschema. unfold _validate_row. rewrite !bind_get_self, Hschema.
  apply world_blind_fold_loop. intros b m. apply validate_row_field_result.
Qed.

Lemma row_fails_schema w1 w2 r :
  field_mappings (self w1) = field_mappings (self w2) -> row_fails w1 r = row_fails w2 r.
Proof. intros Hschema. unfold row_fails. now rewrite (validate_row_result _ _ w1 w2). Qed.

(** One iteration of the loop over the rows: the label goes to the
    invalid list when the row fails, to the valid list when it does not. *)
Lemma validate_one_lists r w w' :
  _validate_one r w = (Ok tt, w') ->
  field_mappings (self w') = field_mappings (self w)
  /\ valid_rows (self w') = valid_rows (self w) ++ (if row_fails w r then [] else [r.1])
  /\ invalid_rows (self w') = invalid_rows (self w) ++ (if row_fails w r then [r.1] else []).
Proof.
  unfold _validate_one, row_fails. intros Hrun.
  apply bind_ok_inv in Hrun as (row_errors & w1 & Hrow & Hrest).
  pose proof (validate_row_cache r.1 r.2 w) as Hcache.
  rewrite Hrow in Hcache. simpl in Hcache. destruct Hcache as [c ->].
  rewrite Hrow. simpl. destruct row_errors as [|e row_errors].
  - injection Hrest as <-. simpl. now rewrite app_nil_r.
  - unfold bind, modify_self in Hrest. injection Hrest as <-. simpl. now rewrite app_nil_r.
Qed.

(** The loop over the rows: the rows that fail, in the order of the
    frame, go to the invalid list, the others to the valid list. *)
Lemma row_loop_lists rows w0 w w' :
  field_mappings (self w) = field_mappings (self w0) ->
  for_each rows _validate_one w = (Ok tt, w') ->
  valid_rows (self w') = valid_rows (self w) ++ (filter (fun r => ¬ row_fails w0 r) rows).*1
  /\ invalid_rows (self w')
     = invalid_rows (self w) ++ (filter (fun r => row_fails w0 r) rows).*1.
Proof.
  revert w. induction rows as [|r rows IH]; intros w Hschema; simpl.
  - intros [= <-]. now rewrite !app_nil_r.
  - intros Hrun. apply bind_ok_inv in Hrun as ([] & w1 & Hone & Hrest).
    apply validate_one_lists in Hone as (Hf & Hv & Hi).
    apply IH in Hrest as [-> ->]; [|congruence].
    rewrite Hv, Hi, (row_fails_schema w w0 r Hschema), <- !app_assoc.
    destruct (row_fails w0 r) eqn:Hfails.
    + rewrite filter_cons_False by (rewrite Hfails; intros Hn; now apply Hn).
      rewrite filter_cons_True by now rewrite Hfails.
      now split.
    + rewrite filter_cons_True by (rewrite Hfails; intros []).
      rewrite filter_cons_False by (rewrite Hfails; intros []).
      now split.
Qed.

End RowResult.

(** ** The lists after the dataset phase *)

Lemma filter_ext_in {A} (P Q : A -> Prop) `{!forall x, Decision (P x)}
    `{!forall x, Decision (Q x)} (l : list A) :
  (forall x, x ∈ l -> P x <-> Q x) -> filter P l = filter Q l.
Proof.
  induction l as [|x l IH]; intros Hext; [reflexivity|].
  assert (filter P l = filter Q l) as Hl by (apply IH; intros y Hy; apply Hext; now right).
  destruct (decide (P x)) as [HP|HP].
  - rewrite !filter_cons_True; [now rewrite Hl| |assumption].
    now apply (Hext x); [left|].
  - rewrite !filter_cons_False; [assumption| |assumption].
    intros HQ. apply HP. now apply (Hext x); [left|].
Qed.

Lemma list_remove_filter x l : NoDup l -> list_remove x l = filter (fun y => y ≠ x) l.
Proof.
  induction l as [|y l IH]; intros Hnodup; [reflexivity|]. simpl.
  apply NoDup_cons in Hnodup as [Hfresh Hnodup].
  destruct (decide (x = y)) as [->|Hne].
  - rewrite filter_cons_False by (intros Hn; now apply Hn).
    symmetry. apply filter_all. apply Forall_forall. now intros z Hz ->.
  - rewrite filter_cons_True by congruence. now rewrite IH.
Qed.

Section Demotions.
Context `{PyRuntime}.

Lemma duplicate_labels_sublist d rule : duplicate_labels d rule `sublist_of` df_index d.
Proof.
  unfold duplicate_labels.
  destruct (rule_duplicates d rule) as [[[fields idxs]|]|e] eqn:Hrule;
    try apply sublist_nil_l.
  eapply rule_duplicates_sublist, Hrule.
Qed.

(** The loop over the duplicated labels, when they are distinct: those
    not invalid yet go to the end of the invalid list, in their order,
    and leave the valid list. *)
Lemma demote_all_lists fields idxs s :
  NoDup idxs -> NoDup (valid_rows s) ->
  let group := filter (fun idx => idx ∉ invalid_rows s) idxs in
  invalid_rows (demote_all fields idxs s) = invalid_rows s ++ group
  /\ valid_rows (demote_all fields idxs s) = filter (fun idx => idx ∉ group) (valid_rows s).
Proof.
  cbv zeta. revert s. induction idxs as [|idx idxs IH]; intros s Hidxs Hvalid.
  { simpl. rewrite app_nil_r. split; [reflexivity|].
    symmetry. apply filter_all, Forall_forall. intros x _. apply not_elem_of_nil. }
  apply NoDup_cons in Hidxs as [Hfresh Hidxs]. rewrite demote_all_cons.
  destruct (IH (demote fields idx s) Hidxs) as [Hi Hv].
  { rewrite demote_valid. case_bool_decide; [assumption|].
    eapply sublist_NoDup; [eassumption|apply list_remove_sublist]. }
  rewrite Hi, Hv, demote_invalid, demote_valid. case_bool_decide as Hin.
  - rewrite app_nil_r. rewrite filter_cons_False by (intros Hn; now apply Hn).
    now split.
  - rewrite filter_cons_True by assumption.
    assert (filter (fun i => i ∉ invalid_rows s ++ [idx]) idxs
            = filter (fun i => i ∉ invalid_rows s) idxs) as ->.
    { apply filter_ext_in. intros i Hi'. rewrite elem_of_app, list_elem_of_singleton.
      split; [tauto|]. intros Hn [?| ->]; [tauto|contradiction]. }
    rewrite <- app_assoc. split; [reflexivity|].
    rewrite (list_remove_filter _ _ Hvalid), list_filter_filter.
    apply filter_ext_in. intros i _. rewrite elem_of_cons. tauto.
Qed.

(** The dataset phase on a frame with distinct labels: the groups of
    [demotions] go to the end of the invalid list, rule by rule, and
    leave the valid list. *)
Lemma run_rules_lists d rules s :
  NoDup (df_index d) -> NoDup (valid_rows s) ->
  (run_rules d rules s).1 = Ok tt ->
  let groups := demotions d rules (invalid_rows s) in
  invalid_rows (run_rules d rules s).2 = invalid_rows s ++ concat groups
  /\ valid_rows (run_rules d rules s).2
     = filter (fun idx => idx ∉ concat groups) (valid_rows s).
Proof.
  cbv zeta. intros Hnodup. revert s. induction rules as [|rule rules IH]; intros s Hvalid.
  { simpl. intros _. rewrite app_nil_r. split; [reflexivity|].
    symmetry. apply filter_all, Forall_forall. intros x _. apply not_elem_of_nil. }
  simpl. pose proof (duplicate_labels_sublist d rule) as Hsub. unfold duplicate_labels in *.
  destruct (rule_duplicates d rule) as [[[fields idxs]|]|e] eqn:Hrule; simpl.
  - intros Hok.
    destruct (demote_all_lists fields idxs s) as [Hi Hv];
      [exact (sublist_NoDup _ _ Hnodup Hsub)|assumption|].
    destruct (IH (demote_all fields idxs s)) as [Hi' Hv']; [|assumption|].
    { rewrite Hv. eapply sublist_NoDup; [eassumption|apply sublist_filter]. }
    rewrite Hi', Hv', Hi, Hv, <- app_assoc. split; [reflexivity|].
    rewrite list_filter_filter. apply filter_ext_in. intros i _.
    rewrite elem_of_app. tauto.
  - intros Hok. rewrite filter_nil. simpl. rewrite app_nil_r. now apply IH.
  - discriminate.
Qed.

Lemma demotions_sublist d rules invalid :
  Forall (fun g => g `sublist_of` df_index d) (demotions d rules invalid).
Proof.
  revert invalid. induction rules as [|rule rules IH]; intros invalid; simpl; constructor.
  - etransitivity; [apply sublist_filter|apply duplicate_labels_sublist].
  - apply IH.
Qed.

End Demotions.

(** ** Selections in the order of the frame *)

(** With distinct labels, a selection by labels in frame order is the
    rows with these labels, in frame order. *)
Lemma loc_rows_filter rows labels rs :
  NoDup rows.*1 ->
  labels `sublist_of` rows.*1 ->
  loc_rows rows labels = Ok rs ->
  rs = filter (fun r => r.1 ∈ labels) rows.
Proof.
  revert labels rs. induction rows as [|r rows IH]; intros labels rs Hnodup Hsub.
  { apply sublist_nil_r in Hsub as ->. simpl. now intros [= <-]. }
  rewrite fmap_cons in Hnodup, Hsub. apply NoDup_cons in Hnodup as [Hfresh Hnodup].
  apply sublist_cons_r in Hsub as [Hsub|(labels' & -> & Hsub)].
  - assert (r.1 ∉ labels) as Hout.
    { intros Hin. apply Hfresh. eapply elem_of_sublist; eassumption. }
    rewrite loc_rows_skip by assumption. intros Hloc.
    rewrite filter_cons_False by assumption. eapply IH; eassumption.
  - assert (r.1 ∉ labels') as Hout.
    { intros Hin. apply Hfresh. eapply elem_of_sublist; eassumption. }
    simpl. rewrite filter_cons_True by reflexivity.
    rewrite filter_label_notin by assumption.
    rewrite loc_rows_skip by assumption.
    destruct (loc_rows rows labels') as [rest|e] eqn:Hrest; [|discriminate].
    intros [= <-]. simpl. rewrite filter_cons_True by apply list_elem_of_here.
    f_equal. rewrite (IH labels' rest Hnodup Hsub Hrest).
    apply filter_ext_in. intros x Hx. rewrite elem_of_cons.
    split; [tauto|]. intros [Heq|?]; [|assumption].
    exfalso. apply Hfresh. rewrite <- Heq. now apply list_elem_of_fmap_2.
Qed.

(** With distinct labels, a row of the frame has the label of a row with
    a property exactly when it has the property. *)
Lemma label_of_filter (P : Z * gmap string Value -> Prop) `{!forall r, Decision (P r)}
    (rows : list (Z * gmap string Value)) r :
  NoDup rows.*1 -> r ∈ rows -> r.1 ∈ (filter P rows).*1 <-> P r.
Proof.
  intros Hnodup Hr. split.
  - intros Hin. apply list_elem_of_fmap in Hin as (r' & Heq & Hr').
    apply list_elem_of_filter in Hr' as [HP Hr'].
    assert (r = r') as ->; [|assumption].
    apply list_elem_of_lookup_1 in Hr as [i Hi]. apply list_elem_of_lookup_1 in Hr' as [j Hj].
    assert (i = j) as ->; [|congruence].
    eapply NoDup_lookup; [exact Hnodup| |]; rewrite list_lookup_fmap.
    + rewrite Hi. reflexivity.
    + rewrite Hj. simpl. now rewrite Heq.
  - intros HP. apply list_elem_of_fmap_2. now apply list_elem_of_filter.
Qed.

Lemma filter_labels_filter (P : Z * gmap string Value -> Prop) `{!forall r, Decision (P r)}
    (rows : list (Z * gmap string Value)) :
  NoDup rows.*1 ->
  filter (fun r => r.1 ∈ (filter P rows).*1) rows = filter P rows.
Proof.
  intros Hnodup. apply filter_ext_in. intros r Hr. now apply label_of_filter.
Qed.

(** With distinct labels, groups of labels in frame order select, group
    by group, the rows with these labels in frame order. *)
Lemma loc_rows_groups d groups picked :
  NoDup (df_index d) ->
  Forall (fun g => g `sublist_of` df_index d) groups ->
  Forall2 (fun g p => loc_rows (df_rows d) g = Ok p) groups picked ->
  picked = rows_labelled d <$> groups.
Proof.
  intros Hnodup Hgroups Hpicked.
  induction Hpicked as [|g p groups picked Hg _ IH]; [reflexivity|].
  apply Forall_cons in Hgroups as [Hsub Hgroups]. rewrite fmap_cons. f_equal; [|auto].
  eapply loc_rows_filter; eassumption.
Qed.

(** ** The lists and the selections of a run that returns *)

Section PipelineLists.
Context `{PyRuntime}.

(** A run of [validate_dataframe] that returns: the lists [s0] after the
    loop over the rows, the dataset phase from there, and the two
    selections from the final lists. *)
Lemma validate_dataframe_lists df d w v i w' :
  heap w !! df = Some d ->
  validate_dataframe df w = (Ok (v, i), w') ->
  exists s0 dv di,
    valid_rows s0 = (filter (fun r => ¬ row_fails w r) (df_rows d)).*1
    /\ invalid_rows s0 = (filter (fun r => row_fails w r) (df_rows d)).*1
    /\ run_rules d (global_validations (self w)) s0 = (Ok tt, self w')
    /\ heap w' !! v = Some dv
    /\ heap w' !! i = Some di
    /\ loc_rows (df_rows d) (valid_rows (self w')) = Ok (df_rows dv)
    /\ loc_rows (df_rows d) (invalid_rows (self w')) = Ok (df_rows di).
Proof.
  intros Hd Hrun. unfold validate_dataframe in Hrun.
  rewrite !bind_modify_self in Hrun. simpl in Hrun.
  fold (reset_lists (self w)) in Hrun.
  set (w0 := mkWorld (heap w) (reset_lists (self w))) in *.
  assert (heap w0 !! df = Some d) as Hd0 by exact Hd.
  apply bind_ok_inv in Hrun as ([] & w1 & Hcols & Hrun).
  apply (validate_columns_ok df d) in Hcols as [-> Hpresent]; [|exact Hd0].
  rewrite (bind_get_frame _ _ _ _ Hd0) in Hrun.
  apply bind_ok_inv in Hrun as ([] & w2 & Hrows & Hrun).
  pose proof (row_loop_lists _ w w0 _ eq_refl Hrows) as [Hok Hbad].
  apply row_loop_ok in Hrows as (Hh2 & Hf2 & Hg2 & _).
  simpl in Hh2, Hf2, Hg2, Hok, Hbad.
  apply bind_ok_inv in Hrun as ([] & w3 & Hglob & Hrun).
  assert (heap w2 !! df = Some d) as Hd2 by now rewrite Hh2.
  destruct (run_global_validations_reading df d w2 Hd2) as (h3 & Hsub3 & Hglob').
  rewrite Hglob' in Hglob. injection Hglob as Hres <-.
  rewrite bind_get_self in Hrun. cbn [self] in Hrun.
  apply bind_ok_inv in Hrun as (v' & w4 & Hsel1 & Hrun).
  apply select_rows_ok in Hsel1 as (Hs4 & Hsub4 & Hfresh4 & dv & Hdv & Hloc1).
  cbn [self heap] in Hs4, Hsub4, Hfresh4, Hloc1.
  rewrite bind_get_self in Hrun. rewrite Hs4 in Hrun.
  apply bind_ok_inv in Hrun as (i' & w5 & Hsel2 & Hrun).
  apply select_rows_ok in Hsel2 as (Hs5 & Hsub5 & Hfresh5 & di & Hdi & Hloc2).
  assert (heap w ⊆ heap w5) as Hsub.
  { rewrite <- Hh2. etransitivity; [exact Hsub3|]. etransitivity; eassumption. }
  assert (heap w5 !! df = Some d) as Hd5 by exact (lookup_weaken _ _ _ _ Hd Hsub).
  assert (heap w5 !! v' = Some dv) as Hdv5 by (eapply lookup_weaken; eassumption).
  rewrite (bind_get_frame _ _ _ _ Hd5), (bind_get_frame _ _ _ _ Hdv5),
    (bind_get_frame _ _ _ _ Hdi) in Hrun.
  unfold _print_summary in Hrun.
  destruct (decide (df_len d = 0%nat)) as [|Hlen]; [discriminate|].
  rewrite bind_ret_l in Hrun. injection Hrun as <- <- <-.
  assert (h3 !! df = Some d) as Hd3 by exact (lookup_weaken _ _ _ _ Hd2 Hsub3).
  assert (heap w4 !! df = Some d) as Hd4 by exact (lookup_weaken _ _ _ _ Hd3 Hsub4).
  specialize (Hloc1 d Hd3). specialize (Hloc2 d Hd4).
  rewrite Hg2 in Hres, Hs4, Hloc1, Hloc2.
  exists (self w2), dv, di. rewrite Hs5, Hs4, Hok, Hbad.
  repeat split; try assumption.
  destruct (run_rules d _ _) as [r s3]. simpl in *. now subst r.
Qed.

End PipelineLists.

(** * The claims *)

Section Claims.
Context `{PyRuntime}.

(** C1, as the code has it — partition completeness.  When
    [validate_dataframe] returns, the valid and the invalid row labels
    together are exactly the index of the input frame, each row counted
    once: every label of the index is valid or invalid and nothing else
    is.  When the labels of the frame are distinct, as in the range index
    of a batch read from a file, no label is both valid and invalid; a
    label that two rows share can be both. *)
Theorem partition_completeness df d w v i w' :
  heap w !! df = Some d ->
  validate_dataframe df w = (Ok (v, i), w') ->
  valid_rows (self w') ++ invalid_rows (self w') ≡ₚ df_index d
  /\ (forall idx, idx ∈ df_index d
                  <-> idx ∈ valid_rows (self w') \/ idx ∈ invalid_rows (self w'))
  /\ (NoDup (df_index d) ->
      forall idx, idx ∈ valid_rows (self w') -> idx ∉ invalid_rows (self w')).
Proof.
  intros Hd Hrun.
  destruct (validate_dataframe_ok df d w v i w' Hd Hrun)
    as (s0 & dv & di & Hsplit & _ & Hrules & _).
  assert (valid_rows (self w') ++ invalid_rows (self w') ≡ₚ df_index d) as Hperm.
  { pose proof (run_rules_perm d (global_validations (self w)) s0
                  (split_of_perm _ _ _ Hsplit)) as Hp.
    now rewrite Hrules in Hp. }
  split; [exact Hperm|]. split.
  - intros idx. rewrite <- Hperm. apply elem_of_app.
  - intros Hnodup idx Hv Hi. rewrite <- Hperm in Hnodup.
    apply NoDup_app in Hnodup as (_ & Hdisj & _). now apply (Hdisj idx).
Qed.

(** C2 — duplicate monotonicity.  The dataset phase, run on any state of
    the validator, keeps every invalid label invalid (the invalid list
    only grows at its end), puts no label into the valid list (the valid
    list only loses elements), and every label it takes out of the valid
    list is in the invalid list afterwards.  Run a second time on its own
    output it ends the same way and leaves the valid list, the invalid
    list and the error list as they are. *)
Theorem dataset_phase_monotone_idempotent df d w :
  heap w !! df = Some d ->
  let first := _run_global_validations df w in
  let second := _run_global_validations df first.2 in
  (exists new, invalid_rows (self first.2) = invalid_rows (self w) ++ new)
  /\ valid_rows (self first.2) `sublist_of` valid_rows (self w)
  /\ (forall idx, idx ∈ valid_rows (self w) ->
                  idx ∉ valid_rows (self first.2) ->
                  idx ∈ invalid_rows (self first.2))
  /\ second.1 = first.1
  /\ valid_rows (self second.2) = valid_rows (self first.2)
  /\ invalid_rows (self second.2) = invalid_rows (self first.2)
  /\ errors (self second.2) = errors (self first.2).
Proof.
  intros Hd first second. subst second first.
  destruct (run_global_validations_reading df d w Hd) as (h1 & Hsub1 & ->).
  set (rules := global_validations (self w)).
  set (s1 := (run_rules d rules (self w)).2). simpl.
  assert (heap (mkWorld h1 s1) !! df = Some d) as Hd1
      by exact (lookup_weaken _ _ _ _ Hd Hsub1).
  destruct (run_global_validations_reading df d _ Hd1) as (h2 & _ & ->).
  simpl. subst s1. rewrite run_rules_config. fold rules.
  rewrite run_rules_idempotent.
  destruct (run_rules_invalid d rules (self w)) as (groups & Hinv & _).
  repeat split; eauto using run_rules_valid, run_rules_moved.
Qed.

(** C4 — required and optional fields.  When the value of a field is
    null, the iteration of [_validate_row] for that field appends one
    [REQUIRED_FIELD_MISSING] error if the field is required and nothing
    if it is not; it returns, and leaves the world as it was whatever
    rules the field carries, so no rule is evaluated.  In a schema with
    distinct source fields these are all the errors the row gets for
    that field. *)
Theorem required_vs_optional idx row mapping w :
  isna (row_get row (source_field mapping)) = true ->
  null_contribution idx row mapping
  = (if required mapping
     then [mkValidationError idx (source_field mapping)
             (row_get row (source_field mapping)) "REQUIRED_FIELD_MISSING"
             ("Required field '" +:+ source_field mapping +:+ "' is empty")]
     else [])
  /\ (forall errs,
      _validate_row_field idx row errs mapping w
      = (Ok (errs ++ null_contribution idx row mapping), w))
  /\ (mapping ∈ field_mappings (self w) ->
      NoDup (source_field <$> field_mappings (self w)) ->
      forall errs w',
        _validate_row idx row w = (Ok errs, w') ->
        filter (fun e => field_name e = source_field mapping) errs
        = null_contribution idx row mapping).
Proof.
  intros Hna. split; [reflexivity|]. split.
  - intros errs. now apply validate_row_field_null.
  - intros Hin Hnodup errs w'. unfold _validate_row. rewrite bind_get_self.
    intros Hrun.
    now rewrite (validate_fields_null _ _ _ _ _ _ _ _ Hnodup Hin Hna Hrun).
Qed.

(** C5 — a missing column is fatal.  When a source field of the schema
    is not a column of the frame, [validate_dataframe] raises the
    [ValueError] that names the missing columns.  At that point the three
    lists of the validator are empty, its lookup cache is as before (no
    row was validated), and the store is as before (no frame of valid or
    invalid records was made). *)
Theorem schema_mismatch_is_fatal df d w mapping :
  heap w !! df = Some d ->
  mapping ∈ field_mappings (self w) ->
  source_field mapping ∉ df_columns d ->
  exists missing : gset string,
    source_field mapping ∈ missing
    /\ validate_dataframe df w
       = (Raise (ValueError missing), mkWorld (heap w) (reset_lists (self w))).
Proof.
  intros Hd Hin Hnot. unfold validate_dataframe. rewrite !bind_modify_self. simpl.
  fold (reset_lists (self w)).
  destruct (validate_columns_missing df d (mkWorld (heap w) (reset_lists (self w))) mapping)
    as (missing & Hmissing & Hcols); try assumption.
  exists missing. split; [assumption|]. now rewrite (bind_raise _ _ _ _ _ Hcols).
Qed.



(** C8, as the code has it — order of the selections.  For a frame with
    distinct labels, the frame of valid records lists, in the order of
    the input, the records that pass row validation and are not demoted.
    The frame of invalid records lists first the records that fail row
    validation, in the order of the input, and after them the records the
    dataset phase demotes: for each dataset rule in turn, the records it
    finds duplicated that are not invalid yet, in the order of the
    input. *)
Theorem selection_order df d w v i w' :
  heap w !! df = Some d ->
  NoDup (df_index d) ->
  validate_dataframe df w = (Ok (v, i), w') ->
  let failed := filter (fun r => row_fails w r) (df_rows d) in
  let groups := demotions d (global_validations (self w)) failed.*1 in
  exists dv di,
    heap w' !! v = Some dv
    /\ heap w' !! i = Some di
    /\ df_rows di = failed ++ concat (rows_labelled d <$> groups)
    /\ df_rows dv
       = filter (fun r => ¬ row_fails w r /\ r.1 ∉ concat groups) (df_rows d).
Proof.
  intros Hd Hnodup Hrun failed groups.
  destruct (validate_dataframe_lists df d w v i w' Hd Hrun)
    as (s0 & dv & di & Hv0 & Hi0 & Hrules & Hdv & Hdi & Hlocv & Hloci).
  assert (NoDup (valid_rows s0)) as Hvalid.
  { rewrite Hv0. eapply sublist_NoDup; [exact Hnodup|]. apply fmap_sublist, sublist_filter. }
  destruct (run_rules_lists d (global_validations (self w)) s0 Hnodup Hvalid) as [Hi Hv].
  { now rewrite Hrules. }
  rewrite Hrules in Hi, Hv. simpl in Hi, Hv. rewrite Hi0 in Hi, Hv.
  fold failed in Hi, Hv. fold groups in Hi, Hv.
  exists dv, di. split; [exact Hdv|]. split; [exact Hdi|]. split.
  - rewrite Hi in Hloci.
    apply loc_rows_app in Hloci as (rs1 & rs2 & -> & Hfailed & Hrest).
    apply loc_rows_concat in Hrest as (picked & -> & Hpicked).
    f_equal.
    + rewrite (loc_rows_filter _ _ _ Hnodup (fmap_sublist _ _ _ (sublist_filter _ _)) Hfailed).
      now apply filter_labels_filter.
    + f_equal. apply loc_rows_groups; [assumption| |assumption].
      apply demotions_sublist.
  - rewrite Hv, Hv0 in Hlocv.
    apply loc_rows_filter in Hlocv as ->; [|exact Hnodup|].
    + apply filter_ext_in. intros r Hr. rewrite list_elem_of_filter.
      rewrite (label_of_filter _ _ r Hnodup Hr). tauto.
    + etransitivity; [apply sublist_filter|]. apply fmap_sublist, sublist_filter.
Qed.
(** C9 — the input is only read.  Whether [validate_dataframe] returns or
    raises, the caller's frame and every other frame of the store are as
    before.  The two frames it returns are new objects of the store,
    distinct from the caller's frame and from each other, so an update of
    either leaves the caller's frame as it is. *)
Theorem input_frame_unchanged df d w :
  heap w !! df = Some d ->
  let out := validate_dataframe df w in
  heap out.2 !! df = Some d
  /\ (forall l d', heap w !! l = Some d' -> heap out.2 !! l = Some d')
  /\ (forall v i,
      out.1 = Ok (v, i) ->
      (v ∉ dom (heap w)) /\ (i ∉ dom (heap w)) /\ v ≠ df /\ i ≠ df /\ v ≠ i
      /\ is_Some (heap out.2 !! v) /\ is_Some (heap out.2 !! i)
      /\ forall dv' di', <[v := dv']> (<[i := di']> (heap out.2)) !! df = Some d).
Proof.
  intros Hd out.
  pose proof (validate_dataframe_store df w) as Hstore. fold out in Hstore.
  assert (forall l d', heap w !! l = Some d' -> heap out.2 !! l = Some d') as Hkeep.
  { intros l d'. now apply store_grows_lookup. }
  split; [auto|]. split; [exact Hkeep|].
  intros v i Hout.
  assert (validate_dataframe df w = (Ok (v, i), out.2)) as Hrun.
  { fold out. rewrite <- Hout. now destruct out. }
  destruct (validate_dataframe_ok df d w v i out.2 Hd Hrun)
    as (_ & dv & di & _ & _ & _ & _ & Hdv & Hdi & _ & _ & Hv & Hi & Hvi & _).
  assert (v ≠ df) as Hvdf.
  { intros ->. apply Hv, elem_of_dom. eauto. }
  assert (i ≠ df) as Hidf.
  { intros ->. apply Hi, elem_of_dom. eauto. }
  repeat split; eauto.
  intros dv' di'. rewrite !lookup_insert_ne by assumption. auto.
Qed.

(** C10 — the empty batch.  On a frame without rows [validate_dataframe]
    never returns a pair of frames.  When the columns of the schema are
    present and the dataset rules are as the parser builds them, the
    exception is the [ZeroDivisionError] of the summary. *)
Theorem empty_batch_raises df d w :
  heap w !! df = Some d ->
  df_rows d = [] ->
  (forall out w', validate_dataframe df w <> (Ok out, w'))
  /\ ((forall m, m ∈ field_mappings (self w) -> source_field m ∈ df_columns d) ->
      Forall dataset_rule_ok (global_validations (self w)) ->
      exists w', validate_dataframe df w = (Raise ZeroDivisionError, w')).
Proof.
  intros Hd Hrows. split.
  - intros [v i] w' Hrun.
    destruct (validate_dataframe_ok df d w v i w' Hd Hrun)
      as (_ & _ & _ & _ & _ & _ & _ & _ & _ & _ & _ & _ & _ & _ & Hne & _).
    contradiction.
  - intros Hpresent Hrules. unfold validate_dataframe.
    rewrite !bind_modify_self. simpl. fold (reset_lists (self w)).
    set (w0 := mkWorld (heap w) (reset_lists (self w))).
    assert (heap w0 !! df = Some d) as Hd0 by exact Hd.
    rewrite (bind_eq _ _ _ _ _ (validate_columns_present df d w0 Hd0 Hpresent)).
    rewrite (bind_get_frame _ _ _ _ Hd0), Hrows. simpl for_each. rewrite bind_ret_l.
    destruct (run_global_validations_reading df d w0 Hd0) as (h1 & Hsub1 & Hglob).
    rewrite (run_rules_empty d _ _ Hrows Hrules) in Hglob. simpl in Hglob.
    rewrite (bind_eq _ _ _ _ _ Hglob).
    assert (h1 !! df = Some d) as Hd1 by exact (lookup_weaken _ _ _ _ Hd0 Hsub1).
    rewrite bind_get_self. cbn [self reset_lists valid_rows set_invalid_rows set_valid_rows].
    unfold select_rows at 1. rewrite bind_new_frame. cbn [self heap].
    rewrite bind_get_self. cbn [self reset_lists invalid_rows set_invalid_rows].
    unfold select_rows at 1. rewrite bind_new_frame. cbn [self heap].
    set (l1 := fresh (dom h1)).
    set (h2 := <[l1 := empty_frame]> h1).
    set (l2 := fresh (dom h2)).
    assert (l1 ∉ dom h1) as Hl1 by apply is_fresh.
    assert (l2 ∉ dom h2) as Hl2 by apply is_fresh.
    assert (h2 !! l1 = Some empty_frame) as Hh2l1 by apply lookup_insert_eq.
    assert (l2 ≠ l1) as Hl21.
    { intros Heq. apply Hl2. rewrite Heq. apply elem_of_dom. eauto. }
    assert (l1 ≠ df) as Hl1df.
    { intros Heq. apply Hl1. rewrite Heq. apply elem_of_dom. eauto. }
    assert (h2 !! df = Some d) as Hd2.
    { unfold h2. now rewrite lookup_insert_ne. }
    assert (l2 ≠ df) as Hl2df.
    { intros Heq. apply Hl2. rewrite Heq. apply elem_of_dom. eauto. }
    erewrite bind_get_frame by (cbn [heap]; rewrite lookup_insert_ne by exact Hl2df; exact Hd2).
    erewrite bind_get_frame by (cbn [heap]; rewrite lookup_insert_ne by exact Hl21; exact Hh2l1).
    erewrite bind_get_frame by (cbn [heap]; apply lookup_insert_eq).
    unfold _print_summary, df_len. rewrite Hrows. simpl.
    eexists. reflexivity.
Qed.

End Claims.

(** * Runs of the claims on the examples *)

Section Runs.
#[local] Existing Instance Demo.runtime.

(** A run of C1 on the batch of the examples. *)
Lemma partition_completeness_witness :
  let w' := (validate_dataframe 1%positive (Demo.world Demo.batch)).2 in
  valid_rows (self w') ++ invalid_rows (self w') ≡ₚ df_index Demo.batch
  /\ (forall idx : Z, idx ∈ df_index Demo.batch
                  <-> idx ∈ valid_rows (self w') \/ idx ∈ invalid_rows (self w'))
  /\ (NoDup (df_index Demo.batch) ->
      forall idx : Z, idx ∈ valid_rows (self w') -> idx ∉ invalid_rows (self w')).
Proof.
  apply (partition_completeness 1%positive Demo.batch (Demo.world Demo.batch)
           4%positive 6%positive).
  - reflexivity.
  - vm_compute. reflexivity.
Defined.

(** C1 as stated fails: on a batch of two records under the label 0, the
    second of them too hot, the run returns with the label 0 both valid
    and invalid. *)
Lemma partition_not_disjoint :
  let out := validate_dataframe 1%positive (Demo.world Demo.relabelled_batch) in
  df_index Demo.relabelled_batch = [0; 0]
  /\ out.1 = Ok (4%positive, 6%positive)
  /\ valid_rows (self out.2) = [0]
  /\ invalid_rows (self out.2) = [0]
  /\ ~ (forall idx, idx ∈ valid_rows (self out.2) -> idx ∉ invalid_rows (self out.2)).
Proof.
  cbv zeta. split; [reflexivity|].
  assert (valid_rows (self (validate_dataframe 1%positive
                              (Demo.world Demo.relabelled_batch)).2) = [0]) as Hv
    by (vm_compute; reflexivity).
  assert (invalid_rows (self (validate_dataframe 1%positive
                                (Demo.world Demo.relabelled_batch)).2) = [0]) as Hi
    by (vm_compute; reflexivity).
  split; [vm_compute; reflexivity|]. split; [exact Hv|]. split; [exact Hi|].
  rewrite Hv, Hi. intros Hdisj. apply (Hdisj 0); apply list_elem_of_here.
Qed.

(** A run of C2 on the batch of the examples, after its rows are validated. *)
Lemma dataset_phase_witness :
  let w := mkWorld {[ 1%positive := Demo.batch ]}
             (set_invalid_rows [1] (set_valid_rows [0; 2; 3] Demo.validator)) in
  let first := _run_global_validations 1%positive w in
  let second := _run_global_validations 1%positive first.2 in
  (exists new, invalid_rows (self first.2) = invalid_rows (self w) ++ new)
  /\ valid_rows (self first.2) `sublist_of` valid_rows (self w)
  /\ (forall idx : Z, idx ∈ valid_rows (self w) ->
                  idx ∉ valid_rows (self first.2) ->
                  idx ∈ invalid_rows (self first.2))
  /\ second.1 = first.1
  /\ valid_rows (self second.2) = valid_rows (self first.2)
  /\ invalid_rows (self second.2) = invalid_rows (self first.2)
  /\ errors (self second.2) = errors (self first.2).
Proof.
  apply (dataset_phase_monotone_idempotent 1%positive Demo.batch). reflexivity.
Defined.

(** C3 — the range rule on an integer too large for a float.  [float]
    raises [OverflowError] on it, which the [except (ValueError,
    TypeError)] of the range branch does not catch: the rule raises
    instead of returning a [NUMERIC] error, and [validate_dataframe]
    raises with it on a batch that holds such a cell. *)
Lemma range_rule_overflow :
  let value := VInt (10 ^ 400) in
  let w := Demo.world Demo.huge_batch in
  py_float value = TooLarge
  /\ _apply_rule 0 "temperature_c" value Demo.temperature_rule w = (Raise OverflowError, w)
  /\ (validate_dataframe 1%positive w).1 = Raise OverflowError.
Proof. vm_compute. repeat split. Qed.

(** C4 on row 0 of the batch, whose optional humidity is missing. *)
Lemma required_vs_optional_witness :
  let row := Demo.record "LINE001" "B001" "PROD-A1" (Demo.degrees 150) (VFloat FNaN) in
  let w := Demo.world Demo.batch in
  null_contribution 0 row Demo.humidity_field = []
  /\ (forall errs, _validate_row_field 0 row errs Demo.humidity_field w = (Ok (errs ++ []), w))
  /\ (Demo.humidity_field ∈ field_mappings (self w) ->
      NoDup (source_field <$> field_mappings (self w)) ->
      forall errs w',
        _validate_row 0 row w = (Ok errs, w') ->
        filter (fun e => field_name e = "humidity_pct") errs = []).
Proof.
  exact (required_vs_optional 0
           (Demo.record "LINE001" "B001" "PROD-A1" (Demo.degrees 150) (VFloat FNaN))
           Demo.humidity_field (Demo.world Demo.batch) eq_refl).
Defined.

(** The empty string is not null for [pd.isna]: on a required field it
    goes on to the rules of the field, and no [REQUIRED_FIELD_MISSING]
    error is recorded. *)
Example empty_string_is_not_null :
  let row := Demo.record "" "B001" "PROD-A1" (Demo.degrees 150) (Demo.degrees 50) in
  exists e,
    _validate_row_field 0 row [] Demo.line_field (Demo.world Demo.batch)
    = (Ok [e], Demo.world Demo.batch)
    /\ error_type e = "REGEX".
Proof. eexists. split; reflexivity. Qed.

(** C5 on the batch without the column [temperature_c]. *)
Lemma schema_mismatch_witness :
  exists missing : gset string,
    "temperature_c" ∈ missing
    /\ validate_dataframe 1%positive (Demo.world Demo.short_batch)
       = (Raise (ValueError missing),
          mkWorld (heap (Demo.world Demo.short_batch)) (reset_lists Demo.validator)).
Proof.
  apply (schema_mismatch_is_fatal 1%positive Demo.short_batch
           (Demo.world Demo.short_batch) Demo.temperature_field).
  - reflexivity.
  - compute_done.
  - compute_done.
Defined.


(** The scenario of the specification: ["BADLINE"] fails the pattern, and
    a pattern without [$] accepts a value with trailing text, which a
    match of the whole string would reject. *)
Example regex_rule_badline :
  (exists e,
      _apply_rule 0 "line_id" (VStr "BADLINE") Demo.line_rule (Demo.world Demo.batch)
      = (Ok (Some e), Demo.world Demo.batch)
      /\ error_type e = "REGEX")
  /\ (let rule := mkValidationRule "regex" (Demo.dict [("pattern", VStr "LINE\d{3}")]) in
      _apply_rule 0 "line_id" (VStr "LINE001-old") rule (Demo.world Demo.batch)
      = (Ok None, Demo.world Demo.batch)
      /\ (r ← re_compile "LINE\d{3}"; Some (re_fullmatch r "LINE001-old")) = Some false).
Proof. split; [eexists; split; reflexivity|]. split; reflexivity. Qed.



(** C8 as stated fails: on the batch of the examples the frame of invalid
    records lists row 1, then rows 0 and 2, which is not their order in
    the input. *)
Lemma invalid_selection_not_in_input_order :
  let out := validate_dataframe 1%positive (Demo.world Demo.batch) in
  out.1 = Ok (4%positive, 6%positive)
  /\ exists di, heap out.2 !! 6%positive = Some di
                /\ df_index di = [1; 0; 2]
                /\ ~ df_rows di `sublist_of` df_rows Demo.batch.
Proof.
  cbv zeta. split; [vm_compute; reflexivity|].
  destruct (heap (validate_dataframe 1%positive (Demo.world Demo.batch)).2 !! 6%positive)
    as [di|] eqn:Hdi; [|vm_compute in Hdi; discriminate].
  exists di. split; [reflexivity|].
  assert (df_index di = [1; 0; 2]) as Hidx.
  { vm_compute in Hdi. injection Hdi as <-. reflexivity. }
  split; [exact Hidx|].
  intros Hsub. apply (fmap_sublist fst) in Hsub. fold (df_index di) in Hsub.
  rewrite Hidx in Hsub. simpl in Hsub.
  repeat match goal with
         | Hs : _ `sublist_of` [] |- _ => apply sublist_nil_r in Hs; discriminate Hs
         | Hs : (_ :: _) `sublist_of` (_ :: _) |- _ =>
             apply sublist_cons_r in Hs as [Hs|(? & [= <-] & Hs)]
         end.
Qed.

(** The amended C8 on the batch of the examples: row 1 fails row
    validation, the one dataset rule demotes rows 0 and 2, and row 3 is
    the valid record. *)
Lemma selection_order_witness :
  let w := Demo.world Demo.batch in
  let w' := (validate_dataframe 1%positive w).2 in
  let failed := filter (fun r => row_fails w r) (df_rows Demo.batch) in
  let groups := demotions Demo.batch (global_validations (self w)) failed.*1 in
  failed.*1 = [1]
  /\ groups = [[0; 2]]
  /\ exists dv di,
       heap w' !! 4%positive = Some dv
       /\ heap w' !! 6%positive = Some di
       /\ df_rows di = failed ++ concat (rows_labelled Demo.batch <$> groups)
       /\ df_rows dv
          = filter (fun r => ¬ row_fails w r /\ r.1 ∉ concat groups) (df_rows Demo.batch).
Proof.
  intros w w'. split; [vm_compute; reflexivity|]. split; [vm_compute; reflexivity|].
  apply (selection_order 1%positive Demo.batch w).
  - reflexivity.
  - compute_done.
  - vm_compute. reflexivity.
Defined.

(** C9 on the batch of the examples. *)
Lemma input_frame_unchanged_witness :
  let out := validate_dataframe 1%positive (Demo.world Demo.batch) in
  heap out.2 !! 1%positive = Some Demo.batch
  /\ (forall l d', heap (Demo.world Demo.batch) !! l = Some d' -> heap out.2 !! l = Some d')
  /\ (forall v i,
      out.1 = Ok (v, i) ->
      (v ∉ dom (heap (Demo.world Demo.batch))) /\ (i ∉ dom (heap (Demo.world Demo.batch)))
      /\ v ≠ 1%positive /\ i ≠ 1%positive /\ v ≠ i
      /\ is_Some (heap out.2 !! v) /\ is_Some (heap out.2 !! i)
      /\ forall dv' di',
          <[v := dv']> (<[i := di']> (heap out.2)) !! 1%positive = Some Demo.batch).
Proof.
  exact (input_frame_unchanged 1%positive Demo.batch (Demo.world Demo.batch) eq_refl).
Defined.

(** C10 on the batch without records. *)
Lemma empty_batch_witness :
  (forall out w', validate_dataframe 1%positive (Demo.world Demo.empty_batch) <> (Ok out, w'))
  /\ ((forall m, m ∈ Demo.schema -> source_field m ∈ Demo.columns) ->
      Forall dataset_rule_ok Demo.dataset_rules ->
      exists w', validate_dataframe 1%positive (Demo.world Demo.empty_batch)
                 = (Raise ZeroDivisionError, w')).
Proof.
  exact (empty_batch_raises 1%positive Demo.empty_batch (Demo.world Demo.empty_batch)
           eq_refl eq_refl).
Defined.

(** The empty batch of the examples does raise [ZeroDivisionError]. *)
Example empty_batch_run :
  (validate_dataframe 1%positive (Demo.world Demo.empty_batch)).1 = Raise ZeroDivisionError.
Proof. vm_compute. reflexivity. Qed.

End Runs.


(** * Further properties of the validator *)

(** Membership of a listed element. *)
Ltac in_list := solve [repeat first [apply list_elem_of_here | apply list_elem_of_further]].

(** ** Invariants *)

#[global] Instance keeps_preorder (P : World -> Prop) : PreOrder (keeps P).
Proof. split; unfold keeps; [intros w|intros w1 w2 w3]; auto. Qed.

#[global] Instance lists_kept_preorder : PreOrder lists_kept.
Proof.
  split.
  - intros w. repeat split.
  - intros w1 w2 w3 (He1 & Hv1 & Hi1) (He2 & Hv2 & Hi2). repeat split; congruence.
Qed.

Lemma respects_weaken {A} (R1 R2 : World -> World -> Prop) (m : M A) :
  (forall w w', R1 w w' -> R2 w w') -> respects R1 m -> respects R2 m.
Proof. intros Hsub Hm w. apply Hsub, Hm. Qed.

Lemma same_but_cache_lists_kept w w' : same_but_cache w w' -> lists_kept w w'.
Proof. intros [c ->]. repeat split. Qed.

Section RowErrorsAll.
Context `{PyRuntime}.

(** What holds of every error a rule can return, and of the error for a
    missing required field, holds of all the errors of a row. *)
Lemma validate_row_forall (P : ValidationError -> Prop) idx row w errs w' :
  (forall field value rule w1 e w2,
      _apply_rule idx field value rule w1 = (Ok (Some e), w2) -> P e) ->
  (forall field value msg,
      P (mkValidationError idx field value "REQUIRED_FIELD_MISSING" msg)) ->
  _validate_row idx row w = (Ok errs, w') ->
  Forall P errs.
Proof.
  intros Hrule Hreq. unfold _validate_row. rewrite bind_get_self.
  generalize (field_mappings (self w)) as mappings.
  assert (Forall P ([] : list ValidationError)) as Hnil by constructor.
  revert Hnil. generalize ([] : list ValidationError) as acc. intros acc Hacc mappings.
  revert acc Hacc w. induction mappings as [|m mappings IH]; intros acc Hacc w; simpl.
  { now intros [= <- _]. }
  intros Hrun. apply bind_ok_inv in Hrun as (acc1 & w1 & Hfield & Hrest).
  eapply IH; [|exact Hrest]. clear Hrest IH.
  unfold _validate_row_field in Hfield.
  destruct (_ && _).
  { injection Hfield as <- _. apply Forall_app. split; [assumption|]. repeat constructor.
    apply Hreq. }
  destruct (_ && _).
  { now injection Hfield as <- _. }
  revert acc Hacc w Hfield.
  induction (validations m) as [|rule rules IH]; intros acc Hacc w; simpl.
  { now intros [= <- _]. }
  intros Hrun. apply bind_ok_inv in Hrun as (acc2 & w2 & Hone & Hrest).
  eapply IH; [|exact Hrest].
  unfold _validate_row_rule in Hone.
  apply bind_ok_inv in Hone as ([e|] & w3 & Happly & Hret); injection Hret as <- _.
  - apply Forall_app. split; [assumption|]. repeat constructor. eapply Hrule; eassumption.
  - assumption.
Qed.

Lemma validate_row_index idx row w errs w' :
  _validate_row idx row w = (Ok errs, w') -> Forall (fun e => row_index e = idx) errs.
Proof.
  apply validate_row_forall.
  - intros field value rule w1 e w2 Happly. now apply apply_rule_error in Happly.
  - reflexivity.
Qed.

(** A rule reports only the error types of its rule type. *)
Lemma apply_rule_kind idx field value rule w e w' :
  _apply_rule idx field value rule w = (Ok (Some e), w') ->
  error_type e ∈ kinds_of (rule_type rule).
Proof.
  unfold _apply_rule, kinds_of, ret, lift.
  repeat (destruct (String.eqb _ _)).
  - unfold rule_not_null. destruct (_ || _); intros [= <- _]. simpl. in_list.
  - unfold rule_range, range_check.
    repeat match goal with
           | |- context [match ?x with _ => _ end] => destruct x
           end; intros [= <- _]; simpl; in_list.
  - unfold rule_regex.
    repeat match goal with
           | |- context [match ?x with _ => _ end] => destruct x
           end; intros [= <- _]; simpl; in_list.
  - unfold rule_date_range.
    repeat match goal with
           | |- context [match ?x with _ => _ end] => destruct x
           end; intros [= <- _]; simpl; in_list.
  - unfold rule_lookup, bind, get_self, modify_self, ret.
    repeat match goal with
           | |- context [if ?x then _ else _] => destruct x
           end; simpl; intros [= <- _]; simpl; in_list.
  - intros [=].
Qed.

Lemma kinds_of_row_error_kinds t k : k ∈ kinds_of t -> k ∈ row_error_kinds.
Proof.
  unfold kinds_of, row_error_kinds. intros Hk.
  repeat (destruct (String.eqb _ _));
    repeat (apply elem_of_cons in Hk as [->|Hk]; [in_list|]);
    now apply elem_of_nil in Hk.
Qed.

Lemma validate_row_kinds idx row w errs w' :
  _validate_row idx row w = (Ok errs, w') ->
  Forall (fun e => error_type e ∈ row_error_kinds) errs.
Proof.
  apply validate_row_forall.
  - intros field value rule w1 e w2 Happly.
    eapply kinds_of_row_error_kinds, apply_rule_kind, Happly.
  - intros. simpl. unfold row_error_kinds. in_list.
Qed.

End RowErrorsAll.

(** ** The lists of the validator stay consistent *)

Section Consistency.
Context `{PyRuntime}.

Lemma keeps_self_new_frame (P : DataValidator -> Prop) d :
  respects (keeps (fun w => P (self w))) (new_frame d).
Proof. intros w Hw. exact Hw. Qed.

Lemma keeps_self_set_cache (P : DataValidator -> Prop) c :
  (forall s, P s -> P (set_lookup_cache c s)) ->
  respects (keeps (fun w => P (self w))) (modify_self (set_lookup_cache c)).
Proof. intros HP w Hw. simpl. now apply HP. Qed.

(** A predicate on the three lists is kept by every step that keeps the
    lists. *)
Lemma lists_kept_keeps (P : DataValidator -> Prop) {A} (m : M A) :
  (forall s s', errors s' = errors s -> valid_rows s' = valid_rows s ->
                invalid_rows s' = invalid_rows s -> P s -> P s') ->
  respects lists_kept m -> respects (keeps (fun w => P (self w))) m.
Proof.
  intros HP Hm. eapply respects_weaken; [|exact Hm].
  intros w w' (He & Hv & Hi). unfold keeps. now apply HP.
Qed.

Lemma validate_row_lists idx row : respects lists_kept (_validate_row idx row).
Proof.
  eapply respects_weaken; [apply same_but_cache_lists_kept|apply validate_row_cache].
Qed.

Lemma new_frame_lists d : respects lists_kept (new_frame d).
Proof. intros w. repeat split. Qed.
#[local] Hint Resolve new_frame_lists : respects.

Lemma validate_columns_lists df : respects lists_kept (_validate_columns df).
Proof. unfold _validate_columns. respects_auto. Qed.

Lemma select_rows_lists df labels : respects lists_kept (select_rows df labels).
Proof. unfold select_rows, frame_loc, frame_copy. respects_auto. Qed.

Lemma print_summary_lists total valid invalid :
  respects lists_kept (_print_summary total valid invalid).
Proof. unfold _print_summary. respects_auto. Qed.

Lemma frame_getitem_lists df mask : respects lists_kept (frame_getitem df mask).
Proof. unfold frame_getitem. respects_auto. Qed.

(** What one iteration of the loop over the rows does to the world. *)
Lemma validate_one_reading r w :
  exists c,
    let w1 := mkWorld (heap w) (set_lookup_cache c (self w)) in
    match (_validate_row r.1 r.2 w).1 with
    | Raise e => _validate_one r w = (Raise e, w1)
    | Ok [] =>
        _validate_one r w
        = (Ok tt, mkWorld (heap w) (set_valid_rows (valid_rows (self w) ++ [r.1]) (self w1)))
    | Ok row_errors =>
        Forall (fun e => row_index e = r.1) row_errors
        /\ Forall (fun e => error_type e ∈ row_error_kinds) row_errors
        /\ _validate_one r w
           = (Ok tt,
              mkWorld (heap w)
                (set_errors (errors (self w) ++ row_errors)
                   (set_invalid_rows (invalid_rows (self w) ++ [r.1]) (self w1))))
    end.
Proof.
  pose proof (validate_row_cache r.1 r.2 w) as [c Hc].
  exists c. cbv zeta. unfold _validate_one.
  destruct (_validate_row r.1 r.2 w) as [[row_errors|e] w1] eqn:Hrow; simpl in *; subst w1.
  - pose proof (validate_row_index _ _ _ _ _ Hrow) as Hidx.
    pose proof (validate_row_kinds _ _ _ _ _ Hrow) as Hkinds.
    rewrite (bind_eq _ _ _ _ _ Hrow).
    destruct row_errors as [|e row_errors]; [reflexivity|].
    split; [assumption|]. split; [assumption|reflexivity].
  - now rewrite (bind_raise _ _ _ _ _ Hrow).
Qed.

Lemma errors_cover_ext s s' :
  errors s' = errors s -> valid_rows s' = valid_rows s ->
  invalid_rows s' = invalid_rows s -> errors_cover s -> errors_cover s'.
Proof. intros He _ Hi Hc idx. rewrite He, Hi. apply Hc. Qed.

Lemma errors_typed_ext s s' :
  errors s' = errors s -> valid_rows s' = valid_rows s ->
  invalid_rows s' = invalid_rows s -> errors_typed s -> errors_typed s'.
Proof. intros He _ _. unfold errors_typed. now rewrite He. Qed.

Lemma validate_one_cover r :
  respects (keeps (fun w => errors_cover (self w))) (_validate_one r).
Proof.
  intros w Hcover. destruct (validate_one_reading r w) as [c Hone].
  cbv zeta in Hone.
  destruct (_validate_row r.1 r.2 w).1 as [[|e row_errors]|e].
  - rewrite Hone. simpl. intros idx. exact (Hcover idx).
  - destruct Hone as (Hidx & _ & ->). unfold errors_cover. simpl. intros idx.
    rewrite elem_of_app, list_elem_of_singleton. split.
    + intros [Hin| ->].
      * apply Hcover in Hin as (e' & He' & Hrow). exists e'.
        split; [|assumption]. apply elem_of_app. now left.
      * exists e. split; [|now apply Forall_cons in Hidx as [? _]].
        apply elem_of_app. right. apply list_elem_of_here.
    + intros (e' & He' & Hrow). apply elem_of_app in He' as [He'|He'].
      * left. apply Hcover. eauto.
      * right. rewrite <- Hrow. now apply (proj1 (Forall_forall _ _) Hidx).
  - rewrite Hone. simpl. intros idx. exact (Hcover idx).
Qed.

Lemma validate_one_typed r :
  respects (keeps (fun w => errors_typed (self w))) (_validate_one r).
Proof.
  intros w Htyped. destruct (validate_one_reading r w) as [c Hone].
  cbv zeta in Hone.
  destruct (_validate_row r.1 r.2 w).1 as [[|e row_errors]|e].
  - rewrite Hone. exact Htyped.
  - destruct Hone as (_ & Hkinds & ->). simpl. apply Forall_app. split; [exact Htyped|].
    eapply Forall_impl; [exact Hkinds|]. intros e' He'. apply elem_of_app. now left.
  - rewrite Hone. exact Htyped.
Qed.

Lemma demote_errors fields idx s :
  errors (demote fields idx s)
  = errors s ++ (if bool_decide (idx ∈ invalid_rows s) then []
                 else [duplicate_error fields idx]).
Proof.
  unfold demote. destruct (bool_decide (idx ∈ invalid_rows s)).
  - now rewrite app_nil_r.
  - cbn. now destruct (bool_decide (idx ∈ valid_rows s)).
Qed.

Lemma demote_cover fields idx :
  respects (keeps (fun w => errors_cover (self w))) (_demote fields idx).
Proof.
  intros w Hcover. rewrite demote_reading. unfold errors_cover. simpl. intros i.
  rewrite demote_invalid, demote_errors. case_bool_decide as Hin.
  - rewrite !app_nil_r. apply Hcover.
  - rewrite !elem_of_app, list_elem_of_singleton. split.
    + intros [Hi| ->].
      * apply Hcover in Hi as (e & He & Hrow). exists e. split; [|assumption].
        apply elem_of_app. now left.
      * exists (duplicate_error fields idx). split; [|reflexivity].
        apply elem_of_app. right. apply list_elem_of_here.
    + intros (e & He & Hrow). apply elem_of_app in He as [He|He].
      * left. apply Hcover. eauto.
      * right. apply list_elem_of_singleton in He as ->. now rewrite <- Hrow.
Qed.

Lemma demote_typed fields idx :
  respects (keeps (fun w => errors_typed (self w))) (_demote fields idx).
Proof.
  intros w Htyped. rewrite demote_reading. simpl. unfold errors_typed.
  rewrite demote_errors. apply Forall_app. split; [exact Htyped|].
  case_bool_decide; [constructor|]. constructor; [|constructor].
  simpl. unfold error_kinds, row_error_kinds. in_list.
Qed.

(** Everything [validate_dataframe] does after it has emptied the lists
    keeps a predicate that the two loop bodies keep. *)
Lemma validate_dataframe_keeps (P : DataValidator -> Prop) df w :
  (forall s s', errors s' = errors s -> valid_rows s' = valid_rows s ->
                invalid_rows s' = invalid_rows s -> P s -> P s') ->
  (forall r, respects (keeps (fun w => P (self w))) (_validate_one r)) ->
  (forall fields idx, respects (keeps (fun w => P (self w))) (_demote fields idx)) ->
  P (reset_lists (self w)) ->
  P (self (validate_dataframe df w).2).
Proof.
  intros Hext Hone Hdemote Hreset. unfold validate_dataframe.
  rewrite !bind_modify_self. simpl. fold (reset_lists (self w)).
  set (w0 := mkWorld (heap w) (reset_lists (self w))).
  assert (forall {A} (m : M A), respects lists_kept m ->
                                respects (keeps (fun w => P (self w))) m) as Hlists.
  { intros A m. now apply lists_kept_keeps. }
  match goal with
  | |- P (self (?m w0).2) =>
      assert (respects (keeps (fun w => P (self w))) m) as Hrest
  end.
  { apply respects_bind; [typeclasses eauto|apply Hlists, validate_columns_lists|intros _].
    apply respects_bind; [typeclasses eauto|apply respects_get_frame; typeclasses eauto|intros d].
    apply respects_bind; [typeclasses eauto| |intros _].
    { apply respects_for_each; [typeclasses eauto|exact Hone]. }
    apply respects_bind; [typeclasses eauto| |intros _].
    { unfold _run_global_validations.
      apply respects_bind; [typeclasses eauto|apply respects_get_self; typeclasses eauto|].
      intros rules. apply respects_for_each; [typeclasses eauto|]. intros rule.
      unfold _global_rule, dict_getitem, py_split.
      pose proof (fun mask => Hlists _ _ (frame_getitem_lists df mask)).
      respects_auto. }
    pose proof (fun labels => Hlists _ _ (select_rows_lists df labels)).
    pose proof (fun a b c => Hlists _ _ (print_summary_lists a b c)).
    respects_auto. }
  apply Hrest. exact Hreset.
Qed.

End Consistency.

Section ConsistencyTheorems.
Context `{PyRuntime}.

Lemma validate_dataframe_cover df w : errors_cover (self (validate_dataframe df w).2).
Proof.
  apply validate_dataframe_keeps.
  - apply errors_cover_ext.
  - apply validate_one_cover.
  - apply demote_cover.
  - intros idx. simpl. rewrite elem_of_nil. split; [contradiction|].
    intros (e & He & _). now apply elem_of_nil in He.
Qed.

(** X1. After [validate_dataframe], whether it returned or raised, a row
    label is in [self.invalid_rows] exactly when [self.errors] holds an
    error with that row index: every invalid row has an error to show for
    it, and every error belongs to an invalid row. *)
Theorem errors_match_invalid_rows df w (idx : Z) :
  idx ∈ invalid_rows (self (validate_dataframe df w).2)
  <-> exists e, e ∈ errors (self (validate_dataframe df w).2) /\ row_index e = idx.
Proof. apply validate_dataframe_cover. Qed.

(** X2. After [validate_dataframe], whether it returned or raised, every
    recorded error has one of nine types: the eight of row validation or
    [DUPLICATE]. *)
Theorem recorded_error_types df w e :
  e ∈ errors (self (validate_dataframe df w).2) ->
  error_type e ∈ ["REQUIRED_FIELD_MISSING"; "NOT_NULL"; "RANGE"; "NUMERIC"; "REGEX";
                  "DATE_RANGE"; "DATE_FORMAT"; "LOOKUP"; "DUPLICATE"].
Proof.
  intros He.
  assert (errors_typed (self (validate_dataframe df w).2)) as Htyped.
  { apply validate_dataframe_keeps.
    - apply errors_typed_ext.
    - apply validate_one_typed.
    - apply demote_typed.
    - constructor. }
  exact (proj1 (Forall_forall _ _) Htyped e He).
Qed.

(** X3. When [validate_dataframe] returns, every recorded error carries the
    label of a row of the input frame, and, the labels of the frame being
    distinct, no error carries the label of a valid row. *)
Theorem valid_rows_have_no_errors df d w v i w' :
  heap w !! df = Some d ->
  validate_dataframe df w = (Ok (v, i), w') ->
  (forall e, e ∈ errors (self w') -> row_index e ∈ df_index d)
  /\ (NoDup (df_index d) ->
      forall e, e ∈ errors (self w') -> row_index e ∉ valid_rows (self w')).
Proof.
  intros Hd Hrun.
  destruct (validate_dataframe_ok df d w v i w' Hd Hrun)
    as (s0 & dv & di & Hsplit & _ & Hrules & _).
  assert (valid_rows (self w') ++ invalid_rows (self w') ≡ₚ df_index d) as Hperm.
  { pose proof (run_rules_perm d (global_validations (self w)) s0
                  (split_of_perm _ _ _ Hsplit)) as Hp.
    now rewrite Hrules in Hp. }
  assert (forall e, e ∈ errors (self w') -> row_index e ∈ invalid_rows (self w')) as Hinv.
  { intros e He. pose proof (validate_dataframe_cover df w (row_index e)) as Hcover.
    rewrite Hrun in Hcover. simpl in Hcover. apply Hcover. eauto. }
  split.
  - intros e He. rewrite <- Hperm. apply elem_of_app. right. auto.
  - intros Hnodup e He Hvalid. rewrite <- Hperm in Hnodup.
    apply NoDup_app in Hnodup as (_ & Hdisj & _).
    exact (Hdisj _ Hvalid (Hinv e He)).
Qed.

End ConsistencyTheorems.

(** ** When the call returns *)

Lemma returns_ret (I : World -> Prop) {A} (a : A) : returns_keeping I (ret a).
Proof. intros w Hw. now exists a, w. Qed.

Lemma returns_bind (I : World -> Prop) {A B} (m : M A) (k : A -> M B) :
  returns_keeping I m -> (forall a, returns_keeping I (k a)) ->
  returns_keeping I (bind m k).
Proof.
  intros Hm Hk w Hw. destruct (Hm w Hw) as (a & w1 & Hrun & Hw1).
  rewrite (bind_eq _ _ _ _ _ Hrun). now apply Hk.
Qed.

Lemma returns_fold_loop (I : World -> Prop) {A B} (l : list A) (body : B -> A -> M B) acc :
  (forall b x, x ∈ l -> returns_keeping I (body b x)) ->
  returns_keeping I (fold_loop l body acc).
Proof.
  revert acc. induction l as [|x l IH]; intros acc Hbody; simpl.
  - apply returns_ret.
  - apply returns_bind.
    + apply Hbody, list_elem_of_here.
    + intros acc'. apply IH. intros b y Hy. now apply Hbody, list_elem_of_further.
Qed.

Lemma returns_for_each (I : World -> Prop) {A} (l : list A) (body : A -> M unit) :
  (forall x, x ∈ l -> returns_keeping I (body x)) ->
  returns_keeping I (for_each l body).
Proof.
  induction l as [|x l IH]; intros Hbody; simpl.
  - apply returns_ret.
  - apply returns_bind.
    + apply Hbody, list_elem_of_here.
    + intros _. apply IH. intros y Hy. now apply Hbody, list_elem_of_further.
Qed.

Lemma str_split_nonempty sep s : str_split sep s <> [].
Proof.
  destruct s as [|c s]; simpl; [discriminate|].
  destruct (Ascii.eqb c sep); [discriminate|].
  now destruct (str_split sep s).
Qed.

Lemma loc_rows_returns rows labels :
  (forall l, l ∈ labels -> l ∈ rows.*1) -> exists rs, loc_rows rows labels = Ok rs.
Proof.
  induction labels as [|l labels IH]; intros Hin; simpl; [eauto|].
  destruct IH as [rest ->].
  { intros l' Hl'. now apply Hin, list_elem_of_further. }
  destruct (filter (fun r => r.1 = l) rows) as [|hit hits] eqn:Hfilter; [|eauto].
  exfalso. specialize (Hin l (list_elem_of_here _ _)).
  apply list_elem_of_fmap in Hin as (r & Hr & Hrows).
  assert (r ∈ filter (fun r => r.1 = l) rows) as Hhit.
  { apply list_elem_of_filter. split; [now symmetry|assumption]. }
  rewrite Hfilter in Hhit. now apply elem_of_nil in Hhit.
Qed.

Section Returns.
Context `{PyRuntime}.

Lemma apply_rule_returns idx field value rule w :
  rule_runs rule ->
  (rule_type rule = "range" -> py_float value <> TooLarge) ->
  exists o w', _apply_rule idx field value rule w = (Ok o, w') /\ same_but_cache w w'.
Proof.
  intros Hruns Hfits. pose proof (apply_rule_cache idx field value rule w) as Hcache.
  destruct (_apply_rule idx field value rule w) as [[o|e] w'] eqn:Hrun; [eauto|].
  exfalso. revert Hrun. unfold _apply_rule, ret, lift.
  destruct (String.eqb _ "not_null"); [discriminate|].
  destruct (String.eqb_spec (rule_type rule) "range") as [Hrange|_].
  { specialize (Hfits Hrange). unfold rule_range.
    destruct (py_float value); [discriminate|discriminate|contradiction]. }
  destruct (String.eqb_spec (rule_type rule) "regex") as [Hty|_].
  { specialize (Hruns Hty). unfold rule_regex.
    destruct (parameters rule !! "pattern") as [v|]; simpl; [|discriminate].
    destruct Hruns as [->|(p & r & -> & Hr)]; [discriminate|].
    simpl. rewrite Hr. destruct (negb _); [|discriminate].
    destruct (re_match _ _); discriminate. }
  destruct (String.eqb _ "date_range"); [discriminate|].
  destruct (String.eqb _ "lookup"); [|discriminate].
  unfold rule_lookup, bind, get_self, modify_self, ret.
  repeat match goal with
         | |- context [if ?x then _ else _] => destruct x
         end; discriminate.
Qed.

Lemma apply_rule_returns_keeping idx field value rule mappings :
  rule_runs rule ->
  (rule_type rule = "range" -> py_float value <> TooLarge) ->
  returns_keeping (fun w => field_mappings (self w) = mappings)
                  (_apply_rule idx field value rule).
Proof.
  intros Hruns Hfits w Hw.
  destruct (apply_rule_returns idx field value rule w Hruns Hfits)
    as (o & w' & Hrun & [c ->]).
  eauto.
Qed.

Lemma validate_row_field_returns idx row acc m mappings :
  (forall rule, rule ∈ validations m -> rule_runs rule) ->
  (forall rule, rule ∈ validations m -> rule_type rule = "range" ->
                py_float (row_get row (source_field m)) <> TooLarge) ->
  returns_keeping (fun w => field_mappings (self w) = mappings)
                  (_validate_row_field idx row acc m).
Proof.
  intros Hrules Hfits. unfold _validate_row_field.
  destruct (_ && _); [apply returns_ret|].
  destruct (_ && _); [apply returns_ret|].
  apply returns_fold_loop. intros b rule Hrule. unfold _validate_row_rule.
  apply returns_bind;
    [apply apply_rule_returns_keeping; [now apply Hrules|now apply Hfits]|].
  intros [e|]; apply returns_ret.
Qed.

Lemma validate_row_returns idx row mappings :
  schema_runs mappings ->
  row_fits mappings row ->
  returns_keeping (fun w => field_mappings (self w) = mappings) (_validate_row idx row).
Proof.
  intros Hschema Hfits w Hw. unfold _validate_row. rewrite bind_get_self, Hw.
  apply returns_fold_loop; [|exact Hw].
  intros acc m Hm. apply validate_row_field_returns.
  - intros rule Hrule. now apply (Hschema m).
  - intros rule Hrule. now apply (Hfits m).
Qed.

Lemma validate_one_returns r mappings :
  schema_runs mappings ->
  row_fits mappings r.2 ->
  returns_keeping (fun w => field_mappings (self w) = mappings) (_validate_one r).
Proof.
  intros Hschema Hfits w Hw. unfold _validate_one.
  destruct (validate_row_returns r.1 r.2 mappings Hschema Hfits w Hw)
    as (row_errors & w1 & Hrow & Hw1).
  rewrite (bind_eq _ _ _ _ _ Hrow).
  destruct row_errors as [|e row_errors].
  - eexists tt, _. split; [reflexivity|exact Hw1].
  - rewrite !bind_modify_self. eexists tt, _. split; [reflexivity|exact Hw1].
Qed.

Lemma rule_duplicates_returns d rule :
  df_rows d <> [] ->
  dataset_rule_runs (df_columns d) rule ->
  exists o, rule_duplicates d rule = Ok o.
Proof.
  intros Hrows [[rt Hrt] Hfields]. unfold rule_duplicates. rewrite Hrt.
  case_bool_decide as Hdup; [|eauto]. subst rt.
  destruct (Hfields Hrt) as (s & -> & Hcols).
  assert (df_columns d <> []) as Hne.
  { pose proof (str_split_nonempty "," s) as Hsplit.
    destruct (str_split "," s) as [|f fs]; [contradiction|].
    specialize (Hcols f (list_elem_of_here _ _)).
    intros Hnil. rewrite Hnil in Hcols. now apply elem_of_nil in Hcols. }
  unfold duplicated, df_empty.
  destruct (df_rows d) as [|r rows] eqn:Hr; [contradiction|].
  destruct (df_columns d) as [|c cols] eqn:Hc; [contradiction|].
  rewrite filter_none.
  - unfold getitem_mask, duplicated_mask. rewrite Hr, !length_fmap.
    destruct (decide _); [eauto|contradiction].
  - apply Forall_forall. intros f Hf Hnot. apply Hnot. auto.
Qed.

Lemma run_rules_returns d rules s :
  df_rows d <> [] ->
  Forall (dataset_rule_runs (df_columns d)) rules ->
  (run_rules d rules s).1 = Ok tt.
Proof.
  intros Hrows Hall. revert s. induction Hall as [|rule rules Hrule _ IH]; intros s; simpl.
  { reflexivity. }
  destruct (rule_duplicates_returns d rule Hrows Hrule) as [[[fields idxs]|] ->]; apply IH.
Qed.

Lemma select_rows_returns df d labels w :
  heap w !! df = Some d ->
  (forall l, l ∈ labels -> l ∈ df_index d) ->
  exists l w', select_rows df labels w = (Ok l, w').
Proof.
  intros Hd Hin. unfold select_rows. destruct labels as [|label labels]; [eauto|].
  destruct (loc_rows_returns (df_rows d) (label :: labels) Hin) as [rs Hrs].
  unfold frame_loc, frame_copy.
  rewrite !bind_assoc, (bind_get_frame _ _ _ _ Hd), bind_assoc.
  unfold loc_. rewrite Hrs, bind_lift_ok, bind_new_frame.
  erewrite bind_get_frame by apply lookup_insert_eq. eauto.
Qed.

End Returns.

Section ReturnsTheorem.
Context `{PyRuntime}.


End ReturnsTheorem.

(** ** The date rule *)

Section DateRule.
Context `{PyRuntime}.

Lemma apply_rule_date_range idx field value rule w :
  rule_type rule = "date_range" ->
  _apply_rule idx field value rule w = (Ok (rule_date_range idx field value rule), w).
Proof. intros Hty. unfold _apply_rule. now rewrite Hty. Qed.

Lemma date_check_parsed cmp dt_val t rule key :
  as_timestamp dt_val = Some t ->
  date_bound_parses rule key ->
  date_check cmp dt_val (parameters rule !! key)
  = if date_supplied rule key
    then cmp t (mjoin (to_datetime (default VNone (parameters rule !! key))))
    else Some false.
Proof.
  intros Ht Hparses. unfold date_check, date_bound_parses, date_supplied in *.
  destruct (opt_truthy _); [|reflexivity].
  destruct (Hparses eq_refl) as [b ->]. rewrite Ht. reflexivity.
Qed.

Lemma time_lt_none_r t : time_lt t None = Some false.
Proof. now destruct t. Qed.

Lemma time_lt_none_l t : time_lt None t = Some false.
Proof. reflexivity. Qed.


End DateRule.

(** ** The lookup cache *)

#[global] Instance cache_gains_empty_preorder : PreOrder cache_gains_empty.
Proof.
  split.
  - intros w key. now left.
  - intros w1 w2 w3 H12 H23 key.
    destruct (H12 key) as [E12|[N1 S2]], (H23 key) as [E23|[N2 S3]].
    + left. congruence.
    + right. split; congruence.
    + right. split; congruence.
    + congruence.
Qed.

Lemma cache_kept_gains w w' :
  _lookup_cache (self w') = _lookup_cache (self w) -> cache_gains_empty w w'.
Proof. intros Heq key. left. now rewrite Heq. Qed.

Section Cache.
Context `{PyRuntime}.

Lemma cache_modify_self (f : DataValidator -> DataValidator) :
  (forall s, _lookup_cache (f s) = _lookup_cache s) ->
  respects cache_gains_empty (modify_self f).
Proof. intros Hf w. apply cache_kept_gains. simpl. apply Hf. Qed.

Lemma cache_set_errors (f : DataValidator -> list ValidationError) :
  respects cache_gains_empty (modify_self (fun s => set_errors (f s) s)).
Proof. now apply cache_modify_self. Qed.

Lemma cache_set_valid_rows (f : DataValidator -> list Z) :
  respects cache_gains_empty (modify_self (fun s => set_valid_rows (f s) s)).
Proof. now apply cache_modify_self. Qed.

Lemma cache_set_invalid_rows (f : DataValidator -> list Z) :
  respects cache_gains_empty (modify_self (fun s => set_invalid_rows (f s) s)).
Proof. now apply cache_modify_self. Qed.

Lemma cache_new_frame d : respects cache_gains_empty (new_frame d).
Proof. intros w. now apply cache_kept_gains. Qed.

#[local] Hint Resolve cache_set_errors cache_set_valid_rows cache_set_invalid_rows
  cache_new_frame : respects.

Lemma cache_rule_lookup idx field value rule :
  respects cache_gains_empty (rule_lookup idx field value rule).
Proof.
  intros w. unfold rule_lookup. rewrite bind_get_self.
  set (key := py_str (py_get (parameters rule) "table") +:+ "."
                +:+ py_str (py_get (parameters rule) "column")).
  destruct (bool_decide (key ∈ dom (_lookup_cache (self w)))) eqn:Hkey.
  - rewrite bind_ret_l. destruct (_ && _); simpl; reflexivity.
  - rewrite bind_modify_self.
    assert (cache_gains_empty w
              (mkWorld (heap w)
                 (set_lookup_cache (<[key := ∅]> (_lookup_cache (self w))) (self w)))) as Hgain.
    { intros k. simpl. destruct (decide (key = k)) as [<-|Hne].
      - right. apply bool_decide_eq_false, not_elem_of_dom in Hkey.
        split; [assumption|apply lookup_insert_eq].
      - left. now apply lookup_insert_ne. }
    destruct (_ && _); exact Hgain.
Qed.
#[local] Hint Resolve cache_rule_lookup : respects.

Lemma cache_validate_one r : respects cache_gains_empty (_validate_one r).
Proof.
  unfold _validate_one, _validate_row, _validate_row_field, _validate_row_rule, _apply_rule.
  respects_auto.
Qed.
#[local] Hint Resolve cache_validate_one : respects.

(** X6. Whether it returns or raises, [validate_dataframe] leaves every entry
    of [self._lookup_cache] as it was, and every entry it adds is the
    empty set: the cache never holds a reference value. *)
Theorem lookup_cache_stays_empty df w key :
  let w' := (validate_dataframe df w).2 in
  _lookup_cache (self w') !! key = _lookup_cache (self w) !! key
  \/ (_lookup_cache (self w) !! key = None
      /\ _lookup_cache (self w') !! key = Some ∅).
Proof.
  cbv zeta. revert key. change (cache_gains_empty w (validate_dataframe df w).2).
  unfold validate_dataframe. rewrite !bind_modify_self. simpl.
  match goal with
  | |- cache_gains_empty w (?m ?w0).2 =>
      assert (respects cache_gains_empty m) as Hrest;
      [|transitivity w0; [now apply cache_kept_gains|apply Hrest]]
  end.
  unfold _validate_columns, _run_global_validations, _global_rule, dict_getitem, py_split,
    frame_getitem, _demote, select_rows, frame_loc, frame_copy, _print_summary.
  respects_auto.
Qed.

End Cache.

(** ** The errors of the dataset phase *)

Lemma demoted_refl s : demoted s s.
Proof.
  exists [], []. rewrite !app_nil_r. repeat split; try constructor.
  intros idx Hin. now apply elem_of_nil in Hin.
Qed.

Lemma demoted_trans s1 s2 s3 : demoted s1 s2 -> demoted s2 s3 -> demoted s1 s3.
Proof.
  intros (a1 & n1 & Hi1 & He1 & Hr1 & Hk1 & Hn1 & Hf1)
         (a2 & n2 & Hi2 & He2 & Hr2 & Hk2 & Hn2 & Hf2).
  exists (a1 ++ a2), (n1 ++ n2). repeat split.
  - now rewrite Hi2, Hi1, app_assoc.
  - now rewrite He2, He1, app_assoc.
  - now rewrite fmap_app, Hr1, Hr2.
  - now apply Forall_app.
  - apply NoDup_app. repeat split; [assumption| |assumption].
    intros idx H1 H2. apply (Hf2 idx H2). rewrite Hi1. apply elem_of_app. now right.
  - intros idx Hin Hinv. apply elem_of_app in Hin as [Hin|Hin].
    + now apply (Hf1 idx).
    + apply (Hf2 idx Hin). rewrite Hi1. apply elem_of_app. now left.
Qed.

#[global] Instance demoted_world_preorder : PreOrder demoted_world.
Proof.
  split.
  - intros w. apply demoted_refl.
  - intros w1 w2 w3. apply demoted_trans.
Qed.

Lemma lists_kept_demoted w w' : lists_kept w w' -> demoted_world w w'.
Proof.
  intros (He & _ & Hi). exists [], []. rewrite !app_nil_r.
  repeat split; try constructor; try assumption.
  intros idx Hin. now apply elem_of_nil in Hin.
Qed.

Section DuplicateErrors.
Context `{PyRuntime}.

Lemma demote_demoted fields idx s : demoted s (demote fields idx s).
Proof.
  unfold demoted. rewrite demote_invalid, demote_errors.
  case_bool_decide as Hin.
  - exists [], []. repeat split; try constructor.
    intros i Hi. now apply elem_of_nil in Hi.
  - exists [idx], [duplicate_error fields idx]. repeat split.
    + repeat constructor.
    + apply NoDup_singleton.
    + intros i Hi. now apply list_elem_of_singleton in Hi as ->.
Qed.

Lemma demote_world_demoted fields idx : respects demoted_world (_demote fields idx).
Proof. intros w. rewrite demote_reading. apply demote_demoted. Qed.

Lemma run_global_validations_demoted df : respects demoted_world (_run_global_validations df).
Proof.
  assert (forall {A} (m : M A), respects lists_kept m -> respects demoted_world m) as Hlists.
  { intros A m. apply respects_weaken, lists_kept_demoted. }
  pose proof (fun mask => Hlists _ _ (frame_getitem_lists df mask)).
  pose proof demote_world_demoted.
  unfold _run_global_validations, _global_rule, dict_getitem, py_split.
  respects_auto.
Qed.

(** X7. Whether it returns or raises, [_run_global_validations] adds to the
    invalid list only labels that were not in it, each once, and adds to
    the error list exactly one [DUPLICATE] error per added label, in the
    same order, with the value ["multiple"].  A row that was invalid
    before gets no [DUPLICATE] error, and no row gets two. *)
Theorem duplicate_errors_once df w :
  let s := self w in
  let s' := self (_run_global_validations df w).2 in
  exists added new,
    invalid_rows s' = invalid_rows s ++ added
    /\ errors s' = errors s ++ new
    /\ row_index <$> new = added
    /\ Forall (fun e => error_type e = "DUPLICATE" /\ field_value e = VStr "multiple") new
    /\ NoDup added
    /\ (forall idx, idx ∈ added -> idx ∉ invalid_rows s).
Proof. apply run_global_validations_demoted. Qed.

End DuplicateErrors.

(** * The error report *)

Lemma first_seen_step (acc l : list string) :
  (forall c, c ∈ l -> c ∈ acc) ->
  foldl (fun acc c => if bool_decide (c ∈ acc) then acc else acc ++ [c]) acc l = acc.
Proof.
  revert acc. induction l as [|c l IH]; intros acc Hin; [reflexivity|].
  simpl. rewrite bool_decide_eq_true_2 by (apply Hin; left).
  apply IH. intros c' Hc'. apply Hin. now right.
Qed.

Lemma elem_of_concat {A} (x : A) (ls : list (list A)) :
  x ∈ concat ls -> exists l, x ∈ l /\ l ∈ ls.
Proof.
  induction ls as [|l ls IH]; simpl; intros Hx.
  - now apply elem_of_nil in Hx.
  - apply elem_of_app in Hx as [Hx|Hx].
    + exists l. split; [exact Hx|left].
    + destruct (IH Hx) as (l' & Hl' & Hin). exists l'. split; [exact Hl'|now right].
Qed.

Section ReportLemmas.
Context `{PyRuntime}.

Lemma to_dict_keys e : (to_dict e).*1 = report_columns.
Proof. reflexivity. Qed.

Lemma report_columns_seen e errs :
  first_seen (concat ((fun r => r.*1) <$> (to_dict <$> (e :: errs)))) = report_columns.
Proof.
  unfold first_seen. rewrite fmap_cons, fmap_cons, concat_cons, foldl_app.
  rewrite to_dict_keys. change (foldl _ [] report_columns) with report_columns.
  apply first_seen_step. intros c Hc.
  apply elem_of_concat in Hc as (ks & Hc & Hks).
  apply list_elem_of_fmap in Hks as (r & -> & Hr).
  apply list_elem_of_fmap in Hr as (e' & -> & _).
  now rewrite to_dict_keys in Hc.
Qed.

Lemma record_row_to_dict e :
  record_row report_columns (to_dict e) = list_to_map (to_dict e).
Proof. reflexivity. Qed.

Lemma get_error_report_run w :
  get_error_report w
  = (Ok (fresh (dom (heap w))),
     mkWorld (<[fresh (dom (heap w)) :=
                 match errors (self w) with
                 | [] => empty_frame
                 | _ :: _ => frame_of_records (to_dict <$> errors (self w))
                 end]> (heap w)) (self w)).
Proof.
  unfold get_error_report. rewrite bind_get_self.
  now destruct (errors (self w)).
Qed.

Lemma frame_of_errors e errs :
  frame_of_records (to_dict <$> (e :: errs))
  = mkDataFrame report_columns
      (imap (fun k e' => (Z.of_nat k, list_to_map (to_dict e'))) (e :: errs)).
Proof.
  unfold frame_of_records. rewrite report_columns_seen. f_equal.
  rewrite imap_fmap. apply imap_ext. intros k e' _. simpl.
  now rewrite record_row_to_dict.
Qed.

End ReportLemmas.

Section ReportTheorems.
Context `{PyRuntime}.

(** X8. [get_error_report] always returns: it allocates one new frame,
    changes neither the validator nor an existing frame, and the frame has
    one row per recorded error, in order and under the labels [0 .. n-1],
    whose cells are the fields of the error with the field value as its
    [str]; without errors the frame has neither rows nor columns,
    otherwise it has the five columns of [to_dict]. *)
Theorem error_report_rows w :
  exists rep d,
    get_error_report w = (Ok rep, mkWorld (<[rep := d]> (heap w)) (self w))
    /\ (rep ∉ dom (heap w))
    /\ df_index d = Z.of_nat <$> seq 0 (length (errors (self w)))
    /\ df_columns d = (if decide (errors (self w) = []) then [] else report_columns)
    /\ forall k e, errors (self w) !! k = Some e ->
         exists row, df_rows d !! k = Some (Z.of_nat k, row)
           /\ row !! "row_index" = Some (VInt (row_index e))
           /\ row !! "field_name" = Some (VStr (field_name e))
           /\ row !! "field_value" = Some (VStr (py_str (field_value e)))
           /\ row !! "error_type" = Some (VStr (error_type e))
           /\ row !! "error_message" = Some (VStr (error_message e))
           /\ dom row = list_to_set report_columns.
Proof.
  eexists _, _. split; [apply get_error_report_run|].
  split; [apply is_fresh|].
  destruct (errors (self w)) as [|e errs] eqn:Herrs.
  - repeat split; try reflexivity. intros k e He. now rewrite lookup_nil in He.
  - rewrite frame_of_errors. rewrite decide_False by discriminate.
    split; [|split; [reflexivity|]].
    + unfold df_index. cbn [df_rows]. rewrite fmap_imap.
      exact (imap_seq_0 (e :: errs) Z.of_nat).
    + intros k e' He'. exists (list_to_map (to_dict e')).
      split; [|repeat split; reflexivity].
      cbn [df_rows]. rewrite list_lookup_imap, He'. reflexivity.
Qed.

End ReportTheorems.

Lemma loc_rows_labels rows labels rs :
  loc_rows rows labels = Ok rs -> forall idx, idx ∈ rs.*1 <-> idx ∈ labels.
Proof.
  revert rs. induction labels as [|l labels IH]; simpl; intros rs Hloc idx.
  - injection Hloc as <-. reflexivity.
  - destruct (filter (fun r => r.1 = l) rows) as [|r hit] eqn:Hhit; [discriminate|].
    destruct (loc_rows rows labels) as [rest|e]; [|discriminate].
    injection Hloc as <-. change (r :: hit ++ rest) with ((r :: hit) ++ rest).
    remember (r :: hit) as hit' eqn:Hhit'. rewrite fmap_app, elem_of_app, (IH rest eq_refl idx), elem_of_cons.
    assert (forall r', r' ∈ hit' -> r'.1 = l) as Hall.
    { intros r' Hr'. rewrite <- Hhit in Hr'. now apply list_elem_of_filter in Hr' as [? _]. }
    split; intros [Hin|Hin]; auto.
    + left. apply list_elem_of_fmap in Hin as (r' & -> & Hr'). now apply Hall.
    + left. subst idx. apply list_elem_of_fmap. exists r.
      assert (r ∈ hit') as Hr by (subst hit'; left).
      split; [symmetry; now apply Hall|exact Hr].
Qed.

Section ReportOfRun.
Context `{PyRuntime}.

Lemma report_rows_index (errs : list ValidationError) (idx : Z) :
  (exists r, r ∈ df_rows (match errs with
                          | [] => empty_frame
                          | _ :: _ => frame_of_records (to_dict <$> errs)
                          end)
             /\ r.2 !! "row_index" = Some (VInt idx))
  <-> exists e, e ∈ errs /\ row_index e = idx.
Proof.
  destruct errs as [|e0 errs].
  - split; intros (x & Hx & _); now apply elem_of_nil in Hx.
  - rewrite frame_of_errors. cbn [df_rows]. split.
    + intros (r & Hr & Hcell).
      apply elem_of_lookup_imap_1 in Hr as (k & e & -> & He).
      exists e. split; [eapply list_elem_of_lookup_2; exact He|].
      simpl in Hcell. unfold to_dict in Hcell. simpl in Hcell.
      rewrite lookup_insert in Hcell. now injection Hcell.
    + intros (e & He & Hidx). apply list_elem_of_lookup_1 in He as [k Hk].
      eexists. split; [eapply elem_of_lookup_imap_2; exact Hk|].
      simpl. unfold to_dict. simpl. rewrite lookup_insert. now rewrite Hidx.
Qed.

(** X9. When [validate_dataframe] has returned, the error report lists
    exactly the rows of the invalid frame: an index label occurs in the
    invalid frame if and only if some row of the report has it in its
    [row_index] cell. *)
Theorem error_report_covers_invalid_frame df d w v i w1 :
  heap w !! df = Some d ->
  validate_dataframe df w = (Ok (v, i), w1) ->
  exists rep w2 di drep,
    get_error_report w1 = (Ok rep, w2)
    /\ heap w2 !! i = Some di
    /\ heap w2 !! rep = Some drep
    /\ forall idx : Z,
         idx ∈ df_index di
         <-> exists r, r ∈ df_rows drep /\ r.2 !! "row_index" = Some (VInt idx).
Proof.
  intros Hd Hrun.
  pose proof (validate_dataframe_cover df w) as Hcover. rewrite Hrun in Hcover.
  simpl in Hcover.
  destruct (validate_dataframe_ok df d w v i w1 Hd Hrun)
    as (s0 & dv & di & _ & _ & _ & _ & _ & Hi & _ & Hloci & _).
  eexists _, _, di, _. split; [apply get_error_report_run|].
  assert (i ≠ fresh (dom (heap w1))) as Hfresh.
  { intros ->. apply (is_fresh (dom (heap w1))). apply elem_of_dom. now exists di. }
  cbn [heap]. split; [now rewrite lookup_insert_ne by (intros Heq; now apply Hfresh)|].
  split; [apply lookup_insert_eq|].
  intros idx. rewrite report_rows_index, <- (Hcover idx).
  apply (loc_rows_labels _ _ _ Hloci).
Qed.

End ReportOfRun.

(** * The configuration parser *)

Lemma parsed_map_returns {A B} (f : A -> parsed B) l ys :
  parsed_map f l = Returns ys <-> Forall2 (fun x y => f x = Returns y) l ys.
Proof.
  revert ys. induction l as [|x l IH]; intros ys; simpl.
  - split.
    + intros [= <-]. constructor.
    + intros Hall. now apply Forall2_nil_inv_l in Hall as ->.
  - split.
    + destruct (f x) as [y|e] eqn:Hfx; simpl; [|discriminate].
      destruct (parsed_map f l) as [ys'|e]; simpl; [|discriminate].
      intros [= <-]. constructor; [exact Hfx|]. now apply IH.
    + intros Hall. apply Forall2_cons_inv_l in Hall as (y & ys' & Hfx & Hall & ->).
      rewrite Hfx. simpl. apply IH in Hall. now rewrite Hall.
Qed.

Lemma parsed_map_raises {A B} (f : A -> parsed B) l e :
  parsed_map f l = Raises e
  <-> exists l1 x l2, l = l1 ++ x :: l2
        /\ Forall (fun x' => exists y, f x' = Returns y) l1 /\ f x = Raises e.
Proof.
  induction l as [|x l IH]; simpl.
  - split; [discriminate|]. intros (l1 & x & l2 & Hl & _). now destruct l1.
  - destruct (f x) as [y|e'] eqn:Hfx; simpl.
    + destruct (parsed_map f l) as [ys|e'] eqn:Hmap; simpl.
      * split; [discriminate|]. intros (l1 & x' & l2 & Hl & Hl1 & Hx').
        destruct l1 as [|x1 l1]; simpl in Hl; injection Hl as -> ->.
        -- congruence.
        -- apply Forall_cons in Hl1 as [_ Hl1].
           assert (Returns ys = Raises e) as Habs; [|discriminate Habs].
           apply IH. now exists l1, x', l2.
      * split.
        -- intros [= ->]. destruct (proj1 IH eq_refl) as (l1 & x' & l2 & -> & Hl1 & Hx').
           exists (x :: l1), x', l2. split; [reflexivity|]. split; [|exact Hx'].
           constructor; [now exists y|exact Hl1].
        -- intros (l1 & x' & l2 & Hl & Hl1 & Hx').
           destruct l1 as [|x1 l1]; simpl in Hl; injection Hl as -> ->.
           ++ congruence.
           ++ apply Forall_cons in Hl1 as [_ Hl1]. apply IH. now exists l1, x', l2.
    + split.
      * intros [= ->]. exists [], x, l. now repeat split.
      * intros (l1 & x' & l2 & Hl & Hl1 & Hx').
        destruct l1 as [|x1 l1]; simpl in Hl; injection Hl as -> ->.
        -- congruence.
        -- apply Forall_cons in Hl1 as [[y Hy] _]. congruence.
Qed.

Section ParserLemmas.
Context `{PyRuntime} `{PyInt}.

Lemma convert_param_other conv key raw params params' k :
  convert_param conv key raw params = Returns params' ->
  k <> key -> params' !! k = params !! k.
Proof.
  unfold convert_param. intros Hconv Hk.
  destruct (raw !! key) as [s|]; [|now injection Hconv as <-].
  destruct (conv s) as [v|e]; simpl in Hconv; [|discriminate].
  injection Hconv as <-. now rewrite lookup_insert_ne.
Qed.

Lemma convert_param_present conv key raw params params' s :
  convert_param conv key raw params = Returns params' ->
  raw !! key = Some s ->
  exists v, conv s = Returns v /\ params' !! key = Some v.
Proof.
  unfold convert_param. intros Hconv Hs. rewrite Hs in Hconv.
  destruct (conv s) as [v|e]; simpl in Hconv; [|discriminate].
  injection Hconv as <-. exists v. split; [reflexivity|apply lookup_insert_eq].
Qed.

Lemma convert_param_absent conv key raw params :
  raw !! key = None -> convert_param conv key raw params = Returns params.
Proof. unfold convert_param. now intros ->. Qed.

Lemma convert_param_returns conv key raw params :
  (forall s, raw !! key = Some s -> exists v, conv s = Returns v) ->
  exists params', convert_param conv key raw params = Returns params'.
Proof.
  unfold convert_param. intros Hconv. destruct (raw !! key) as [s|]; [|eauto].
  destruct (Hconv s eq_refl) as [v ->]. simpl. eauto.
Qed.

Lemma raw_lookup (a : gmap string string) k s :
  delete "rule" a !! k = Some s <-> k <> "rule" /\ a !! k = Some s.
Proof.
  rewrite lookup_delete_Some. split; intros [? ?]; split; congruence.
Qed.

(** The parameter under each key after [parse_validation]. *)
Lemma parse_validation_lookup ve r k :
  parse_validation ve = Returns r ->
  parsed_rule_type r = elem_get ve "rule"
  /\ match delete "rule" (attrib ve) !! k with
     | Some s => exists v, parameter_reading (elem_get ve "rule") k s = Returns v
                           /\ parsed_parameters r !! k = Some v
     | None => parsed_parameters r !! k = None
     end.
Proof.
  unfold parse_validation.
  set (rt := elem_get ve "rule"). set (raw := delete "rule" (attrib ve)).
  destruct (_ : parsed (gmap string Value)) as [p1|e] eqn:Hp1 at 1; simpl; [|discriminate].
  destruct (convert_param float_literal "threshold" raw p1) as [p2|e] eqn:Hp2; simpl;
    [|discriminate].
  intros [= <-]. simpl. split; [reflexivity|].
  assert (forall k,
            match raw !! k with
            | Some s => k <> "threshold" ->
                        exists v, parameter_reading rt k s = Returns v /\ p1 !! k = Some v
            | None => p1 !! k = None
            end) as Hfirst.
  { intros k'. unfold parameter_reading.
    destruct (bool_decide (rt = Some "range")); simpl in *.
    - destruct (convert_param number_literal "min" raw (VStr <$> raw)) as [p0|e] eqn:Hp0;
        simpl in Hp1; [|discriminate].
      destruct (decide (k' = "max")) as [->|Hmax].
      + destruct (raw !! "max") as [s|] eqn:Hs.
        * intros _. exact (convert_param_present _ _ _ _ _ _ Hp1 Hs).
        * rewrite convert_param_absent in Hp1 by exact Hs. injection Hp1 as <-.
          rewrite (convert_param_other _ _ _ _ _ "max" Hp0) by discriminate.
          now rewrite lookup_fmap, Hs.
      + rewrite (bool_decide_eq_false_2 (k' = "max")) by exact Hmax. rewrite orb_false_r.
        rewrite (convert_param_other _ _ _ _ _ k' Hp1) by exact Hmax.
        destruct (decide (k' = "min")) as [->|Hmin].
        * destruct (raw !! "min") as [s|] eqn:Hs.
          -- intros _. exact (convert_param_present _ _ _ _ _ _ Hp0 Hs).
          -- rewrite convert_param_absent in Hp0 by exact Hs. injection Hp0 as <-.
             now rewrite lookup_fmap, Hs.
        * rewrite (bool_decide_eq_false_2 (k' = "min")) by exact Hmin.
          rewrite (convert_param_other _ _ _ _ _ k' Hp0) by exact Hmin.
          rewrite lookup_fmap. destruct (raw !! k') as [s|]; simpl; [|reflexivity].
          intros Hk'. rewrite bool_decide_eq_false_2 by exact Hk'. eauto.
    - injection Hp1 as <-. rewrite lookup_fmap.
      destruct (raw !! k') as [s|]; simpl; [|reflexivity].
      intros Hk'. rewrite bool_decide_eq_false_2 by exact Hk'. eauto. }
  destruct (decide (k = "threshold")) as [->|Hk].
  - destruct (raw !! "threshold") as [s|] eqn:Hs.
    + unfold parameter_reading. simpl. exact (convert_param_present _ _ _ _ _ _ Hp2 Hs).
    + rewrite convert_param_absent in Hp2 by exact Hs. injection Hp2 as <-.
      specialize (Hfirst "threshold"). now rewrite Hs in Hfirst.
  - rewrite (convert_param_other _ _ _ _ _ k Hp2) by exact Hk.
    specialize (Hfirst k). destruct (raw !! k) as [s|]; [now apply Hfirst|exact Hfirst].
Qed.

(** [parse_validation] returns when the literals can be converted. *)
Lemma parse_validation_returns ve :
  validation_parses ve -> exists r, parse_validation ve = Returns r.
Proof.
  intros Hparses. unfold parse_validation.
  set (rt := elem_get ve "rule"). set (raw := delete "rule" (attrib ve)).
  assert (forall k s, raw !! k = Some s ->
            exists v, parameter_reading rt k s = Returns v) as Hraw.
  { intros k s Hs. apply raw_lookup in Hs as [Hk Hs]. exact (Hparses k s Hk Hs). }
  assert (exists p1, (if bool_decide (rt = Some "range")
                      then parsed_bind (convert_param number_literal "min" raw (VStr <$> raw))
                                       (convert_param number_literal "max" raw)
                      else Returns (VStr <$> raw)) = Returns p1) as [p1 ->].
  { destruct (bool_decide (rt = Some "range")) eqn:Hrange; [|eauto].
    destruct (convert_param_returns number_literal "min" raw (VStr <$> raw)) as [p0 ->].
    { intros s Hs. destruct (Hraw _ _ Hs) as [v Hv]. unfold parameter_reading in Hv.
      rewrite Hrange in Hv. simpl in Hv. eauto. }
    simpl. apply convert_param_returns.
    intros s Hs. destruct (Hraw _ _ Hs) as [v Hv]. unfold parameter_reading in Hv.
    rewrite Hrange in Hv. simpl in Hv. eauto. }
  simpl.
  destruct (convert_param_returns float_literal "threshold" raw p1) as [p2 ->].
  { intros s Hs. destruct (Hraw _ _ Hs) as [v Hv]. unfold parameter_reading in Hv.
    simpl in Hv. eauto. }
  simpl. eauto.
Qed.

End ParserLemmas.

Section ParserStructure.
Context `{PyRuntime} `{PyInt}.

Lemma parse_field_returns_inv fe m :
  parse_field fe = Returns m ->
  parsed_source_field m = elem_get fe "source"
  /\ parsed_target_field m = elem_get fe "target"
  /\ parsed_data_type m = elem_get fe "dataType"
  /\ (exists r, elem_get fe "required" = Some r
                /\ parsed_required m = bool_decide (py_lower r = "true"))
  /\ Forall2 (fun ve r => parse_validation ve = Returns r)
             (findall fe "Validation") (parsed_validations m).
Proof.
  unfold parse_field.
  destruct (parsed_map parse_validation (findall fe "Validation")) as [rules|e] eqn:Hrules;
    simpl; [|discriminate].
  destruct (elem_get fe "required") as [r|]; [|discriminate].
  intros [= <-]. simpl. repeat split; eauto. now apply parsed_map_returns.
Qed.

Lemma parse_field_returns fe :
  field_parses fe -> exists m, parse_field fe = Returns m.
Proof.
  intros [[r Hr] Hvals]. unfold parse_field.
  assert (exists rules, parsed_map parse_validation (findall fe "Validation") = Returns rules)
    as [rules ->].
  { induction Hvals as [|ve ves Hve _ IH]; simpl; [eauto|].
    destruct (parse_validation_returns ve Hve) as [r0 ->]. destruct IH as [rules ->].
    simpl. eauto. }
  simpl. rewrite Hr. eauto.
Qed.

Lemma parse_field_parses fe m : parse_field fe = Returns m -> field_parses fe.
Proof.
  intros Hm. destruct (parse_field_returns_inv fe m Hm) as (_ & _ & _ & (r & Hr & _) & Hvals).
  split; [now exists r|].
  induction Hvals as [|ve r0 ves rs Hve _ IH]; constructor; [|exact IH].
  intros k s Hk Hs.
  destruct (parse_validation_lookup ve r0 k Hve) as [_ Hlook].
  rewrite (proj2 (raw_lookup (attrib ve) k s) (conj Hk Hs)) in Hlook.
  destruct Hlook as (v & Hv & _). now exists v.
Qed.

End ParserStructure.

Section ParserTheorems.
Context `{PyRuntime} `{PyInt}.

(** X10. The rule [parse_validation] builds from a [Validation] element
    has the element's [rule] attribute as its type and, as parameters,
    exactly the other attributes: [threshold] as a float, [min] and [max]
    of a range rule as an [int] or, when the literal has a dot, a float,
    and every other attribute as the string it is. *)
Theorem parameters_read_attributes ve r :
  parse_validation ve = Returns r ->
  parsed_rule_type r = elem_get ve "rule"
  /\ forall k v, parsed_parameters r !! k = Some v
       <-> exists s, k <> "rule" /\ attrib ve !! k = Some s
             /\ parameter_reading (elem_get ve "rule") k s = Returns v.
Proof.
  intros Hr. split; [apply (parse_validation_lookup ve r "rule" Hr)|].
  intros k v. destruct (parse_validation_lookup ve r k Hr) as [_ Hlook].
  destruct (delete "rule" (attrib ve) !! k) as [s|] eqn:Hs.
  - apply raw_lookup in Hs as [Hk Hs]. destruct Hlook as (v' & Hv' & ->). split.
    + intros [= <-]. now exists s.
    + intros (s' & _ & Hs' & Hread). congruence.
  - rewrite Hlook. split; [discriminate|].
    intros (s & Hk & Hs' & _).
    rewrite (proj2 (raw_lookup (attrib ve) k s) (conj Hk Hs')) in Hs. discriminate.
Qed.

(** X11. [get_field_mappings] returns if and only if the root has a
    [FieldMappings] child, every [Field] of it has the attribute
    [required] and every literal of its [Validation] elements can be
    converted; otherwise it raises and no mapping is returned. *)
Theorem field_mappings_all_or_nothing root :
  (exists mappings, get_field_mappings root = Returns mappings)
  <-> exists fields, find root "FieldMappings" = Some fields
        /\ Forall field_parses (findall fields "Field").
Proof.
  unfold get_field_mappings. destruct (find root "FieldMappings") as [fields|]; split.
  - intros [ms Hms]. exists fields. split; [reflexivity|].
    apply parsed_map_returns in Hms.
    induction Hms as [|fe m fes ms Hm _ IH]; constructor; [|exact IH].
    exact (parse_field_parses fe m Hm).
  - intros (fields' & [= <-] & Hall).
    induction Hall as [|fe fes Hfe _ IH]; simpl; [eauto|].
    destruct (parse_field_returns fe Hfe) as [m ->]. destruct IH as [ms ->]. simpl. eauto.
  - intros [ms Hms]. discriminate.
  - intros (fields & Hnone & _). discriminate.
Qed.

(** X12. The mappings [get_field_mappings] returns are one per [Field]
    element, in document order, each with the element's [source],
    [target] and [dataType] attributes, with [required] set exactly when
    the attribute reads [true] in any letter case, and with one rule per
    [Validation] child, in document order. *)
Theorem field_mappings_follow_document root mappings :
  get_field_mappings root = Returns mappings ->
  exists fields, find root "FieldMappings" = Some fields
    /\ Forall2 (fun fe m =>
           parsed_source_field m = elem_get fe "source"
           /\ parsed_target_field m = elem_get fe "target"
           /\ parsed_data_type m = elem_get fe "dataType"
           /\ (exists r, elem_get fe "required" = Some r
                         /\ parsed_required m = bool_decide (py_lower r = "true"))
           /\ Forall2 (fun ve r => parse_validation ve = Returns r)
                      (findall fe "Validation") (parsed_validations m))
         (findall fields "Field") mappings.
Proof.
  unfold get_field_mappings. destruct (find root "FieldMappings") as [fields|]; [|discriminate].
  intros Hms. exists fields. split; [reflexivity|].
  apply parsed_map_returns in Hms.
  induction Hms as [|fe m fes ms Hm _ IH]; constructor; [|exact IH].
  exact (parse_field_returns_inv fe m Hm).
Qed.

Lemma parsed_rule_of_config root mappings pm m rule :
  get_field_mappings root = Returns mappings ->
  pm ∈ mappings -> mapping_of pm = Some m -> rule ∈ validations m ->
  exists ve pr, parse_validation ve = Returns pr /\ rule_of pr = Some rule.
Proof.
  unfold get_field_mappings. destruct (find root "FieldMappings") as [fields|]; [|discriminate].
  intros Hms Hpm Hm Hrule. apply parsed_map_returns in Hms.
  apply list_elem_of_lookup_1 in Hpm as [i Hi].
  destruct (Forall2_lookup_r _ _ _ _ _ Hms Hi) as (fe & _ & Hfe).
  apply parse_field_returns_inv in Hfe as (_ & _ & _ & _ & Hvals).
  unfold mapping_of in Hm.
  destruct (parsed_source_field pm), (parsed_target_field pm), (parsed_data_type pm);
    try discriminate.
  destruct (mapM rule_of (parsed_validations pm)) as [rules|] eqn:Hrules; [|discriminate].
  injection Hm as <-. simpl in Hrule. apply mapM_Some in Hrules.
  apply list_elem_of_lookup_1 in Hrule as [j Hj].
  destruct (Forall2_lookup_r _ _ _ _ _ Hrules Hj) as (pr & Hpr & Hof).
  destruct (Forall2_lookup_r _ _ _ _ _ Hvals Hpr) as (ve & _ & Hve).
  now exists ve, pr.
Qed.

(** X13. In a schema read from a configuration, the bounds [min] and
    [max] of every range rule are absent or numbers, as the range check of
    the validator needs them, and every parameter of another rule, save
    [threshold], is a string. *)
Theorem config_parameters_typed root mappings pm m rule :
  get_field_mappings root = Returns mappings ->
  pm ∈ mappings -> mapping_of pm = Some m -> rule ∈ validations m ->
  (rule_type rule = "range" ->
     bound_ok (parameters rule !! "min") /\ bound_ok (parameters rule !! "max"))
  /\ (rule_type rule <> "range" ->
      forall k v, k <> "threshold" -> parameters rule !! k = Some v -> exists s, v = VStr s).
Proof.
  intros Hms Hpm Hm Hrule.
  destruct (parsed_rule_of_config _ _ _ _ _ Hms Hpm Hm Hrule) as (ve & pr & Hve & Hof).
  unfold rule_of in Hof.
  destruct (parsed_rule_type pr) as [t|] eqn:Ht; [|discriminate]. injection Hof as <-. simpl.
  assert (forall k, match parsed_parameters pr !! k with
                    | Some v => exists s, parameter_reading (Some t) k s = Returns v
                    | None => True
                    end) as Hread.
  { intros k. destruct (parse_validation_lookup ve pr k Hve) as [Hty Hlook].
    rewrite Ht in Hty. rewrite <- Hty in Hlook.
    destruct (delete "rule" (attrib ve) !! k) as [s|].
    - destruct Hlook as (v & Hv & ->). now exists s.
    - now rewrite Hlook. }
  split.
  - intros ->.
    assert (forall k, k = "min" \/ k = "max" -> bound_ok (parsed_parameters pr !! k)) as Hb.
    { intros k Hk. specialize (Hread k).
      destruct (parsed_parameters pr !! k) as [v|]; [|exact I].
      destruct Hread as [s Hs]. unfold parameter_reading, number_literal in Hs.
      destruct Hk as [-> | ->]; simpl in Hs;
        destruct (contains_dot s);
        [destruct (float_of_str s)|destruct (int_of_str s)
        |destruct (float_of_str s)|destruct (int_of_str s)];
        try discriminate; injection Hs as <-; exact I. }
    split; apply Hb; auto.
  - intros Hty k v Hk Hv. specialize (Hread k). rewrite Hv in Hread.
    destruct Hread as [s Hs]. unfold parameter_reading in Hs.
    rewrite (bool_decide_eq_false_2 (k = "threshold")) in Hs by exact Hk.
    rewrite (bool_decide_eq_false_2 (Some t = Some "range")) in Hs by congruence.
    simpl in Hs. injection Hs as <-. now exists s.
Qed.

End ParserTheorems.

(** * Dataset rules read from the configuration *)

Lemma global_rule_of_lookup ve k :
  global_rule_of ve !! k
  = if decide (k = "rule") then None
    else if decide (k = "rule_type")
         then Some (match attrib ve !! "rule_type" with
                    | Some s => VStr s
                    | None => opt_str (attrib ve !! "rule")
                    end)
         else VStr <$> attrib ve !! k.
Proof.
  unfold global_rule_of, elem_get.
  rewrite lookup_union, lookup_fmap, lookup_singleton.
  destruct (decide (k = "rule")) as [->|Hrule].
  - rewrite lookup_delete_eq. reflexivity.
  - rewrite lookup_delete_ne by congruence.
    destruct (decide (k = "rule_type")) as [->|Hty].
    + rewrite decide_True by reflexivity. now destruct (attrib ve !! "rule_type").
    + rewrite decide_False by congruence. now destruct (attrib ve !! k).
Qed.

Section ConfiguredRules.
Context `{PyRuntime}.

Lemma global_rule_of_shaped ve : rule_shaped (global_rule_of ve).
Proof.
  split.
  - rewrite global_rule_of_lookup. simpl. eauto.
  - intros v. rewrite global_rule_of_lookup. simpl.
    destruct (attrib ve !! "fields") as [s|]; [|discriminate].
    intros [= <-]. now exists s.
Qed.

Lemma rule_duplicates_raises d rule e :
  rule_shaped rule -> df_columns d <> [] ->
  rule_duplicates d rule = Raise e ->
  e = KeyError ["fields"]
  \/ exists missing, e = KeyError missing /\ missing <> []
                     /\ forall f, f ∈ missing -> f ∉ df_columns d.
Proof.
  intros [[rt Hrt] Hfields] Hcols. unfold rule_duplicates. rewrite Hrt.
  case_bool_decide; [|discriminate].
  destruct (rule !! "fields") as [v|] eqn:Hv; [|intros [= <-]; now left].
  destruct (Hfields v eq_refl) as [s ->].
  unfold duplicated, df_empty, getitem_mask.
  destruct (df_rows d) as [|r rows] eqn:Hrows.
  { simpl. discriminate. }
  destruct (df_columns d) as [|c cols] eqn:Hc; [contradiction|].
  destruct (filter _ (str_split "," s)) as [|f fs] eqn:Hfilter.
  - unfold duplicated_mask. rewrite !length_fmap.
    destruct (decide _); [discriminate|contradiction].
  - intros [= <-]. right. exists (f :: fs). split; [reflexivity|]. split; [discriminate|].
    intros f' Hf'. rewrite <- Hfilter in Hf'. now apply list_elem_of_filter in Hf' as [? _].
Qed.

Lemma run_rules_raises d rules s e :
  Forall rule_shaped rules -> df_columns d <> [] ->
  (run_rules d rules s).1 = Raise e ->
  e = KeyError ["fields"]
  \/ exists missing, e = KeyError missing /\ missing <> []
                     /\ forall f, f ∈ missing -> f ∉ df_columns d.
Proof.
  intros Hall Hcols. revert s. induction Hall as [|rule rules Hrule _ IH]; intros s; simpl.
  { discriminate. }
  destruct (rule_duplicates d rule) as [[[fields idxs]|]|e'] eqn:Hdup; try apply IH.
  simpl. intros [= ->]. exact (rule_duplicates_raises d rule e Hrule Hcols Hdup).
Qed.

(** X14. The dictionary [get_global_validations] builds for a
    [Validation] element always has the key [rule_type] and never the key
    [rule]; the rule type is the element's [rule] attribute, or [None]
    without one, unless the element has an attribute [rule_type], which
    then takes its place; every other attribute is kept as a string.  The
    dictionaries come one per element, in document order. *)
Theorem global_rules_read_attributes root rules :
  get_global_validations root = Returns rules ->
  exists globals_elem,
    find root "GlobalValidations" = Some globals_elem
    /\ Forall2 (fun ve rule =>
           rule !! "rule_type"
           = Some (match attrib ve !! "rule_type" with
                   | Some s => VStr s
                   | None => opt_str (attrib ve !! "rule")
                   end)
           /\ rule !! "rule" = None
           /\ forall k, k <> "rule" -> k <> "rule_type" ->
                rule !! k = VStr <$> attrib ve !! k)
         (findall globals_elem "Validation") rules.
Proof.
  unfold get_global_validations.
  destruct (find root "GlobalValidations") as [g|]; [|discriminate].
  intros [= <-]. exists g. split; [reflexivity|].
  apply Forall2_fmap_r, Forall_Forall2_diag, Forall_forall. intros ve _.
  repeat split.
  - now rewrite global_rule_of_lookup.
  - now rewrite global_rule_of_lookup.
  - intros k Hrule Hty. rewrite global_rule_of_lookup.
    rewrite decide_False by exact Hrule. now rewrite decide_False by exact Hty.
Qed.

(** X15. With the dataset rules of a configuration, the dataset phase on
    a frame with columns can only fail with a [KeyError]: for a duplicate
    check without the attribute [fields], or for fields that are not
    columns of the frame.  It raises no [AttributeError] and no [KeyError]
    for the rule type. *)
Theorem configured_rules_raise_key_errors root df d w e w' :
  get_global_validations root = Returns (global_validations (self w)) ->
  heap w !! df = Some d ->
  df_columns d <> [] ->
  _run_global_validations df w = (Raise e, w') ->
  e = KeyError ["fields"]
  \/ exists missing, e = KeyError missing /\ missing <> []
                     /\ forall f, f ∈ missing -> f ∉ df_columns d.
Proof.
  intros Hrules Hd Hcols Hrun.
  destruct (run_global_validations_reading df d w Hd) as (h & _ & Hread).
  rewrite Hread in Hrun. injection Hrun as Hres _.
  apply (run_rules_raises d (global_validations (self w)) (self w) e); [|exact Hcols|exact Hres].
  unfold get_global_validations in Hrules.
  destruct (find root "GlobalValidations") as [g|]; [|discriminate].
  injection Hrules as <-. apply Forall_fmap, Forall_forall. intros ve _.
  apply global_rule_of_shaped.
Qed.

End ConfiguredRules.

(** * Looking up a rule of a field *)

(** X16. [get_validation] returns the first rule of the asked type, in
    the order of the field's rules, and [None] exactly when the field has
    no rule of that type. *)
Theorem get_validation_first m (t : string) :
  match get_validation m t with
  | Some v =>
      exists before after,
        validations m = before ++ v :: after
        /\ rule_type v = t
        /\ forall v', v' ∈ before -> rule_type v' <> t
  | None => forall v, v ∈ validations m -> rule_type v <> t
  end.
Proof.
  unfold get_validation. induction (validations m) as [|v rest IH]; simpl.
  - intros v Hv. now apply elem_of_nil in Hv.
  - destruct (String.eqb (rule_type v) t) eqn:Heq.
    + apply String.eqb_eq in Heq. exists [], rest. repeat split; [exact Heq|].
      intros v' Hv'. now apply elem_of_nil in Hv'.
    + apply String.eqb_neq in Heq. destruct (first_rule t rest) as [v0|].
      * destruct IH as (before & after & -> & Hty & Hbefore).
        exists (v :: before), after. repeat split; [exact Hty|].
        intros v' Hv'. apply elem_of_cons in Hv' as [->|Hv']; auto.
      * intros v' Hv'. apply elem_of_cons in Hv' as [->|Hv']; auto.
Qed.

(** * The loader *)

Lemma db_state_snoc log ev : db_state (log ++ [ev]) = db_step (db_state log) ev.
Proof. unfold db_state. now rewrite foldl_app. Qed.

Lemma durable_failed log c : durable (log ++ [(c, false)]) = durable log.
Proof. unfold durable. rewrite db_state_snoc. now destruct c. Qed.

Lemma pending_failed log c : pending (log ++ [(c, false)]) = pending log.
Proof. unfold pending. rewrite db_state_snoc. now destruct c. Qed.

Lemma durable_commit log : durable (log ++ [(Commit, true)]) = durable log ++ pending log.
Proof. unfold durable, pending. now rewrite db_state_snoc. Qed.

Lemma pending_commit log : pending (log ++ [(Commit, true)]) = [].
Proof. unfold pending. now rewrite db_state_snoc. Qed.

Lemma durable_rollback log b : durable (log ++ [(Rollback, b)]) = durable log.
Proof. unfold durable. rewrite db_state_snoc. now destruct b. Qed.

Lemma pending_rollback log : pending (log ++ [(Rollback, true)]) = [].
Proof. unfold pending. now rewrite db_state_snoc. Qed.

Lemma durable_execute log sql params b :
  durable (log ++ [(Execute sql params, b)]) = durable log.
Proof. unfold durable. rewrite db_state_snoc. now destruct b. Qed.

Lemma pending_execute log sql params :
  pending (log ++ [(Execute sql params, true)]) = pending log ++ [(sql, params)].
Proof. unfold pending. now rewrite db_state_snoc. Qed.

Lemma record_params_run row source_file log :
  match record_params row source_file log with
  | (Done params, log') => log' = log /\ params = params_of source_file row
                           /\ forall k, k ∈ record_columns -> is_Some (row !! k)
  | (Failed e, log') => log' = log /\ exists k, k ∈ record_columns /\ row !! k = None
                        /\ e = RowKeyError k
  end.
Proof.
  unfold record_params, params_of, row_item, etl_bind, etl_ret, etl_raise, row_get.
  repeat match goal with
         | |- context [row !! ?k] =>
             lazymatch goal with
             | H : row !! k = _ |- _ => fail
             | _ => destruct (row !! k) eqn:?
             end
         end; simpl;
    try (split; [reflexivity|]; eexists; split; [|split; [eassumption|reflexivity]];
         unfold record_columns; in_list).
  split; [reflexivity|]. split; [reflexivity|].
  intros k Hk. unfold record_columns in Hk.
  repeat (apply elem_of_cons in Hk as [->|Hk]; [eauto|]). now apply elem_of_nil in Hk.
Qed.

Section LoaderLemmas.
Context `{Database}.

Lemma db_do_run c log :
  db_do c log = (Done tt, log ++ [(c, true)])
  \/ db_do c log = (Failed (DatabaseError c), log ++ [(c, false)]).
Proof. unfold db_do. destruct (db_raises log c); auto. Qed.

(** One iteration of the loop of [load_valid_data]. *)
Lemma load_row_step p source_file D inserts c k r ins log :
  loaded_up_to (batch_size p) D inserts c k log ->
  inserts !! k = Some ins ->
  ins = (InsertRecord (target_table p), params_of source_file r.2) ->
  match load_row p source_file (Z.of_nat k) r log with
  | (Done n, log') =>
      n = Z.of_nat (S k) /\ exists c', loaded_up_to (batch_size p) D inserts c' (S k) log'
  | (Failed e, log') =>
      exists c', (c' <= S k)%nat /\ durable log' = D ++ take c' inserts
                 /\ (batch_size p <> 0 -> Z.of_nat c' mod batch_size p = 0)
                 /\ (batch_size p = 0 -> c' = 0%nat)
  end.
Proof.
  intros (Hck & Hdur & Hpen & Hmul & Hzero) Hk ->. unfold load_row, etl_bind at 1.
  pose proof (record_params_run r.2 source_file log) as Hparams.
  destruct (record_params r.2 source_file log) as [[params|e] log0].
  2:{ destruct Hparams as [-> _]. exists c. repeat split; auto; lia. }
  destruct Hparams as (-> & -> & _). unfold etl_bind at 1.
  set (call := Execute _ _).
  destruct (db_do_run call log) as [-> | ->].
  2:{ exists c. unfold call. rewrite durable_execute. repeat split; auto; lia. }
  assert (pending (log ++ [(call, true)]) = drop c (take (S k) inserts)) as Hpen'.
  { unfold call. rewrite pending_execute, Hpen.
    rewrite (take_S_r _ _ _ Hk), drop_app_le; [reflexivity|].
    rewrite length_take. apply lookup_lt_Some in Hk. lia. }
  assert (durable (log ++ [(call, true)]) = D ++ take c inserts) as Hdur'.
  { unfold call. now rewrite durable_execute. }
  destruct (decide (batch_size p = 0)) as [Hb|Hb].
  { exists c. repeat split; auto; lia. }
  destruct (decide ((Z.of_nat k + 1) mod batch_size p = 0)) as [Hmod|Hmod].
  - unfold etl_bind. destruct (db_do_run Commit (log ++ [(call, true)])) as [-> | ->].
    + split; [lia|]. exists (S k). split; [lia|].
      rewrite durable_commit, pending_commit, Hdur', Hpen'.
      split; [|split; [|split]].
      * rewrite <- app_assoc. f_equal.
        rewrite <- (take_drop c (take (S k) inserts)) at 2.
        f_equal. rewrite take_take. f_equal. lia.
      * symmetry. apply drop_ge. rewrite length_take. lia.
      * intros _. rewrite <- Hmod. f_equal. lia.
      * intros Hb'. contradiction.
    + exists c. rewrite durable_failed. repeat split; auto; lia.
  - split; [unfold etl_ret; lia|]. exists c. repeat split; auto; lia.
Qed.

Lemma load_loop p source_file D inserts rows k c log :
  loaded_up_to (batch_size p) D inserts c k log ->
  (forall j r, rows !! j = Some r ->
     inserts !! (k + j)%nat = Some (InsertRecord (target_table p), params_of source_file r.2)) ->
  match etl_fold rows (load_row p source_file) (Z.of_nat k) log with
  | (Done n, log') =>
      n = Z.of_nat (k + length rows)
      /\ exists c', loaded_up_to (batch_size p) D inserts c' (k + length rows) log'
  | (Failed e, log') =>
      exists c', (c' <= k + length rows)%nat /\ durable log' = D ++ take c' inserts
                 /\ (batch_size p <> 0 -> Z.of_nat c' mod batch_size p = 0)
                 /\ (batch_size p = 0 -> c' = 0%nat)
  end.
Proof.
  revert k c log. induction rows as [|r rows IH]; intros k c log Hinv Hrows; simpl.
  - rewrite Nat.add_0_r. split; [reflexivity|]. now exists c.
  - unfold etl_bind.
    assert (inserts !! k
            = Some (InsertRecord (target_table p), params_of source_file r.2)) as Hk.
    { rewrite <- (Nat.add_0_r k). now apply Hrows. }
    pose proof (load_row_step p source_file D inserts c k r _ log Hinv Hk eq_refl) as Hstep.
    destruct (load_row p source_file (Z.of_nat k) r log) as [[n|e] log1].
    + destruct Hstep as (-> & c1 & Hinv1).
      specialize (IH (S k) c1 log1 Hinv1).
      replace (k + S (length rows))%nat with (S k + length rows)%nat by lia.
      apply IH. intros j r' Hj.
      replace (S k + j)%nat with (k + S j)%nat by lia. now apply Hrows.
    + destruct Hstep as (c' & Hc' & Hrest). exists c'. split; [lia|exact Hrest].
Qed.

End LoaderLemmas.

Section LoaderRun.
Context `{Database}.

Lemma load_valid_data_run p d source_file log :
  pending log = [] ->
  match load_valid_data p d source_file log with
  | (res, log') =>
      exists m,
        (m <= df_len d)%nat
        /\ durable log' = durable log ++ take m (record_inserts p source_file d)
        /\ match res with
           | Done n =>
               if df_empty d then n = 0 /\ m = 0%nat
               else n = Z.of_nat (df_len d) /\ m = df_len d /\ pending log' = []
           | Failed e =>
               df_empty d = false
               /\ (batch_size p <> 0 -> Z.of_nat m mod batch_size p = 0)
               /\ (batch_size p = 0 -> m = 0%nat)
           end
  end.
Proof.
  intros Hpending. unfold load_valid_data.
  destruct (df_empty d) eqn:Hempty.
  { exists 0%nat. simpl. rewrite app_nil_r. repeat split; lia. }
  unfold try_except, etl_bind at 1.
  set (inserts := record_inserts p source_file d).
  assert (loaded_up_to (batch_size p) (durable log) inserts 0 0 log) as Hinv.
  { repeat split; try lia; simpl.
    - now rewrite app_nil_r.
    - exact Hpending. }
  pose proof (load_loop p source_file (durable log) inserts (df_rows d) 0 0 log Hinv) as Hloop.
  simpl in Hloop. change (Z.of_nat 0) with 0 in Hloop.
  assert (forall j r, df_rows d !! j = Some r ->
            inserts !! j = Some (InsertRecord (target_table p), params_of source_file r.2))
    as Hrows.
  { intros j r Hj. unfold inserts, record_inserts. now rewrite list_lookup_fmap, Hj. }
  specialize (Hloop Hrows).
  destruct (etl_fold (df_rows d) (load_row p source_file) 0 log) as [[n|e] log1].
  - destruct Hloop as (-> & c & Hc & Hdur & Hpen & Hmul & Hzero).
    unfold etl_bind.
    assert (take (length (df_rows d)) inserts = inserts) as Hall.
    { apply take_ge. unfold inserts, record_inserts. now rewrite length_fmap. }
    destruct (db_do_run Commit log1) as [-> | ->].
    + exists (df_len d). simpl. rewrite durable_commit, pending_commit, Hdur, Hpen.
      unfold df_len. rewrite Hall, <- app_assoc, take_drop. repeat split; lia.
    + destruct (db_do_run Rollback (log1 ++ [(Commit, false)])) as [-> | ->];
        exists c; simpl; rewrite durable_rollback, durable_failed;
        unfold df_len; repeat split; auto.
  - destruct Hloop as (c & Hc & Hdur & Hmul & Hzero).
    unfold etl_bind.
    destruct (db_do_run Rollback log1) as [-> | ->];
      exists c; simpl; rewrite durable_rollback;
      unfold df_len; repeat split; auto.
Qed.

End LoaderRun.

Section LoaderTheorems.
Context `{Database}.

(** X17. Whatever the database does, the records [load_valid_data] has
    made durable are a prefix of the records of the frame, in order.  When
    it returns on a frame that is not empty, the prefix is the whole
    frame, no record is left pending and the result is the number of
    rows.  When it raises, the prefix is a whole number of batches, and it
    is empty under a batch size of 0: the rollback does not undo the
    batches committed before. *)
Theorem load_valid_data_durable_prefix p d source_file log :
  pending log = [] ->
  exists m,
    (m <= df_len d)%nat
    /\ durable (load_valid_data p d source_file log).2
       = durable log ++ take m (record_inserts p source_file d)
    /\ match (load_valid_data p d source_file log).1 with
       | Done n =>
           if df_empty d then n = 0 /\ m = 0%nat
           else n = Z.of_nat (df_len d) /\ m = df_len d
                /\ pending (load_valid_data p d source_file log).2 = []
       | Failed e =>
           df_empty d = false
           /\ (batch_size p <> 0 -> Z.of_nat m mod batch_size p = 0)
           /\ (batch_size p = 0 -> m = 0%nat)
       end.
Proof.
  intros Hpending. pose proof (load_valid_data_run p d source_file log Hpending) as Hrun.
  now destruct (load_valid_data p d source_file log) as [res log'].
Qed.

End LoaderTheorems.

Section LoaderCauses.
Context `{Database}.

Lemma db_do_cause c log e log' :
  db_do c log = (Failed e, log') -> e = DatabaseError c /\ db_raises log c = true.
Proof.
  unfold db_do. destruct (db_raises log c) eqn:Hc; [|discriminate].
  intros [= <- <-]. auto.
Qed.

Lemma load_row_cause p d source_file n r log e log' :
  r ∈ df_rows d ->
  load_row p source_file n r log = (Failed e, log') -> failure_cause p d e.
Proof.
  intros Hr. unfold load_row, etl_bind at 1.
  pose proof (record_params_run r.2 source_file log) as Hparams.
  destruct (record_params r.2 source_file log) as [[params|e0] log0].
  2:{ destruct Hparams as (_ & k & Hk & Hnone & ->). intros [= <- <-].
      split; [exact Hk|]. now exists r. }
  unfold etl_bind at 1.
  destruct (db_do _ log0) as [[[]|e1] log1] eqn:Hexec.
  2:{ intros [= <- <-]. apply db_do_cause in Hexec as [-> Hraise]. now exists log0. }
  destruct (decide (batch_size p = 0)) as [Hb|Hb]; [now intros [= <- <-]|].
  destruct (decide _); [|discriminate]. unfold etl_bind.
  destruct (db_do Commit log1) as [[[]|e2] log2] eqn:Hcommit; [discriminate|].
  intros [= <- <-]. apply db_do_cause in Hcommit as [-> Hraise]. now exists log1.
Qed.

Lemma load_loop_cause p d source_file rows n log e log' :
  (forall r, r ∈ rows -> r ∈ df_rows d) ->
  etl_fold rows (load_row p source_file) n log = (Failed e, log') -> failure_cause p d e.
Proof.
  revert n log. induction rows as [|r rows IH]; intros n log Hrows; simpl; [discriminate|].
  unfold etl_bind.
  destruct (load_row p source_file n r log) as [[n1|e1] log1] eqn:Hrow.
  - apply IH. intros r' Hr'. apply Hrows. now right.
  - intros [= <- <-]. eapply load_row_cause; [|exact Hrow]. apply Hrows. left.
Qed.

Lemma load_valid_data_cause p d source_file log e log' :
  load_valid_data p d source_file log = (Failed e, log') -> failure_cause p d e.
Proof.
  unfold load_valid_data. destruct (df_empty d); [discriminate|].
  unfold try_except, etl_bind at 1.
  destruct (etl_fold (df_rows d) (load_row p source_file) 0 log) as [[n|e1] log1] eqn:Hloop.
  - unfold etl_bind at 1.
    destruct (db_do Commit log1) as [[[]|e1] log2] eqn:Hcommit; [discriminate|].
    unfold etl_bind.
    destruct (db_do Rollback log2) as [[[]|e2] log3] eqn:Hroll; intros [= <- <-].
    + apply db_do_cause in Hcommit as [-> Hraise]. now exists log1.
    + apply db_do_cause in Hroll as [-> Hraise]. now exists log2.
  - unfold etl_bind.
    destruct (db_do Rollback log1) as [[[]|e2] log3] eqn:Hroll; intros [= <- <-].
    + eapply load_loop_cause; [|exact Hloop]. auto.
    + apply db_do_cause in Hroll as [-> Hraise]. now exists log1.
Qed.

(** X18. An exception of [load_valid_data] has one of three causes: a
    [KeyError] for one of the eight columns read with [row[...]], which
    some row of the frame lacks; a [ZeroDivisionError], under a batch size
    of 0; or the exception of a call that the database made raise. *)
Theorem load_valid_data_failures p d source_file log :
  match (load_valid_data p d source_file log).1 with
  | Done _ => True
  | Failed e => failure_cause p d e
  end.
Proof.
  destruct (load_valid_data p d source_file log) as [[n|e] log'] eqn:Hrun; simpl; [exact I|].
  exact (load_valid_data_cause p d source_file log e log' Hrun).
Qed.

(** X19. On a database that raises in no call, with a batch size other
    than 0 and a frame whose rows have the eight columns, [load_valid_data]
    returns the number of rows, and after a log without pending rows every
    record of the frame is durable, in order, and none is pending. *)
Theorem load_valid_data_returns p d source_file log :
  (forall l c, db_raises l c = false) ->
  batch_size p <> 0 ->
  (forall r k, r ∈ df_rows d -> k ∈ record_columns -> is_Some (r.2 !! k)) ->
  df_empty d = false ->
  pending log = [] ->
  exists log',
    load_valid_data p d source_file log = (Done (Z.of_nat (df_len d)), log')
    /\ durable log' = durable log ++ record_inserts p source_file d
    /\ pending log' = [].
Proof.
  intros Hdb Hb Hcols Hempty Hpending.
  pose proof (load_valid_data_run p d source_file log Hpending) as Hrun.
  destruct (load_valid_data p d source_file log) as [[n|e] log'] eqn:Hres.
  - exists log'. destruct Hrun as (m & _ & Hdur & Hn). rewrite Hempty in Hn.
    destruct Hn as (-> & -> & Hpen). split; [reflexivity|]. split; [|exact Hpen].
    rewrite Hdur. f_equal. apply take_ge.
    unfold record_inserts, df_len. now rewrite length_fmap.
  - exfalso. apply load_valid_data_cause in Hres. destruct e as [c|k|]; simpl in Hres.
    + destruct Hres as [l Hl]. rewrite Hdb in Hl. discriminate.
    + destruct Hres as (Hk & r & Hr & Hnone).
      destruct (Hcols r k Hr Hk) as [v Hv]. congruence.
    + contradiction.
Qed.

(** X20. Under a batch size of 0, [load_valid_data] never returns on a
    frame that is not empty: it raises, and no record of the frame
    becomes durable. *)
Theorem batch_size_zero_loads_nothing p d source_file log :
  batch_size p = 0 ->
  df_empty d = false ->
  pending log = [] ->
  exists e log',
    load_valid_data p d source_file log = (Failed e, log')
    /\ durable log' = durable log.
Proof.
  intros Hb Hempty Hpending.
  pose proof (load_valid_data_run p d source_file log Hpending) as Hrun.
  destruct (load_valid_data p d source_file log) as [[n|e] log'] eqn:Hres.
  - exfalso. clear Hrun. revert Hres. unfold load_valid_data. rewrite Hempty.
    unfold df_empty in Hempty. destruct (df_rows d) as [|r rows]; [discriminate|].
    unfold try_except, etl_bind at 1. simpl. unfold etl_bind at 1.
    assert (forall o l1, load_row p source_file 0 r log = (o, l1) -> exists e, o = Failed e)
      as Hrow.
    { unfold load_row, etl_bind. intros o l1.
      destruct (record_params r.2 source_file log) as [[params|e] l0]; [|intros [= <- _]; eauto].
      destruct (db_do _ l0) as [[[]|e] l2]; [|intros [= <- _]; eauto].
      rewrite decide_True by exact Hb. intros [= <- _]. eauto. }
    destruct (load_row p source_file 0 r log) as [o l1] eqn:Hfirst.
    destruct (Hrow o l1 eq_refl) as [e ->].
    unfold etl_bind. destruct (db_do Rollback l1) as [[[]|e2] l3]; discriminate.
  - exists e, log'. split; [reflexivity|].
    destruct Hrun as (m & _ & Hdur & _ & _ & Hzero).
    rewrite Hdur, (Hzero Hb). simpl. apply app_nil_r.
Qed.

End LoaderCauses.

Section ErrorLogLemmas.
Context `{PyRuntime} `{Database}.

Lemma log_loop source_file errs log :
  match etl_for_each errs (log_error source_file) log with
  | (Done _, log') =>
      durable log' = durable log
      /\ pending log' = pending log ++ error_inserts source_file errs
  | (Failed e, log') =>
      durable log' = durable log /\ exists c l, e = DatabaseError c /\ db_raises l c = true
  end.
Proof.
  revert log. induction errs as [|err errs IH]; intros log; simpl.
  - split; [reflexivity|]. now rewrite app_nil_r.
  - unfold etl_bind, log_error.
    destruct (db_do _ log) as [[[]|e] log1] eqn:Hexec.
    + unfold db_do in Hexec. destruct (db_raises log _); [discriminate|].
      injection Hexec as <-. specialize (IH (log ++ [(Execute InsertValidationError
                                                        (error_params source_file err), true)])).
      destruct (etl_for_each errs _ _) as [[[]|e] log2].
      * destruct IH as [-> ->]. rewrite durable_execute, pending_execute.
        split; [reflexivity|]. now rewrite <- app_assoc.
      * destruct IH as [-> Hcause]. now rewrite durable_execute.
    + pose proof (db_do_cause _ _ _ _ Hexec) as [-> Hraise].
      unfold db_do in Hexec. rewrite Hraise in Hexec. injection Hexec as <-.
      rewrite durable_execute. split; [reflexivity|]. eauto.
Qed.

Lemma log_errors_run errs source_file log :
  match log_errors errs source_file log with
  | (Done n, log') =>
      n = Z.of_nat (length errs)
      /\ match errs with
         | [] => log' = log
         | _ :: _ =>
             durable log' = durable log ++ pending log ++ error_inserts source_file errs
             /\ pending log' = []
         end
  | (Failed e, log') =>
      errs <> [] /\ durable log' = durable log
      /\ exists c l, e = DatabaseError c /\ db_raises l c = true
  end.
Proof.
  unfold log_errors. destruct errs as [|err errs]; [now split|].
  unfold try_except, etl_bind at 1.
  pose proof (log_loop source_file (err :: errs) log) as Hloop.
  destruct (etl_for_each (err :: errs) (log_error source_file) log) as [[[]|e] log1].
  - destruct Hloop as [Hdur Hpen]. unfold etl_bind at 1.
    destruct (db_do Commit log1) as [[[]|e] log2] eqn:Hcommit.
    + unfold db_do in Hcommit. destruct (db_raises log1 Commit); [discriminate|].
      injection Hcommit as <-. split; [reflexivity|].
      now rewrite durable_commit, pending_commit, Hdur, Hpen.
    + pose proof (db_do_cause _ _ _ _ Hcommit) as [-> Hraise].
      unfold db_do in Hcommit. rewrite Hraise in Hcommit. injection Hcommit as <-.
      unfold etl_bind, etl_raise.
      destruct (db_do Rollback _) as [[[]|e] log3] eqn:Hroll.
      * unfold db_do in Hroll. destruct (db_raises _ Rollback); [discriminate|].
        injection Hroll as <-. rewrite durable_rollback, durable_failed.
        split; [discriminate|]. split; [exact Hdur|]. eauto.
      * pose proof (db_do_cause _ _ _ _ Hroll) as [-> Hraise'].
        unfold db_do in Hroll. rewrite Hraise' in Hroll. injection Hroll as <-.
        rewrite durable_rollback, durable_failed.
        split; [discriminate|]. split; [exact Hdur|]. eauto.
  - destruct Hloop as [Hdur Hcause]. unfold etl_bind, etl_raise.
    destruct (db_do Rollback _) as [[[]|e2] log3] eqn:Hroll.
    + unfold db_do in Hroll. destruct (db_raises _ Rollback); [discriminate|].
      injection Hroll as <-. rewrite durable_rollback.
      split; [discriminate|]. split; [exact Hdur|exact Hcause].
    + pose proof (db_do_cause _ _ _ _ Hroll) as [-> Hraise'].
      unfold db_do in Hroll. rewrite Hraise' in Hroll. injection Hroll as <-.
      rewrite durable_rollback.
      split; [discriminate|]. split; [exact Hdur|]. eauto.
Qed.

(** X21. Whatever the database does, [log_errors] is all or nothing.
    When it returns, the result is the number of errors; for a list that
    is not empty, one insert per error, in order, has become durable after
    the rows that were pending, and nothing is left pending; for the empty
    list no call is made.  When it raises, the exception is that of a call
    the database made raise and no insert has become durable. *)
Theorem log_errors_all_or_nothing errs source_file log :
  match (log_errors errs source_file log).1 with
  | Done n =>
      n = Z.of_nat (length errs)
      /\ match errs with
         | [] => (log_errors errs source_file log).2 = log
         | _ :: _ =>
             durable (log_errors errs source_file log).2
             = durable log ++ pending log ++ error_inserts source_file errs
             /\ pending (log_errors errs source_file log).2 = []
         end
  | Failed e =>
      errs <> [] /\ durable (log_errors errs source_file log).2 = durable log
      /\ exists c l, e = DatabaseError c /\ db_raises l c = true
  end.
Proof.
  pose proof (log_errors_run errs source_file log) as Hrun.
  now destruct (log_errors errs source_file log) as [[n|e] log'].
Qed.

(** X22. The field value [log_errors] passes to the database is the
    [str] of the value cut to its first 255 characters: a prefix of it, of
    length at most 255, and the whole of it when it is that short. *)
Theorem logged_field_value_truncated source_file err :
  exists t rest,
    error_params source_file err !! 4%nat = Some (VStr t)
    /\ py_str (field_value err) = t +:+ rest
    /\ (String.length t <= 255)%nat
    /\ ((String.length (py_str (field_value err)) <= 255)%nat -> rest = "").
Proof.
  set (s := py_str (field_value err)).
  exists (truncate_255 s), (string_of_list_ascii (drop 255 (list_ascii_of_string s))).
  split; [reflexivity|]. unfold truncate_255.
  assert (forall l1 l2, string_of_list_ascii l1 +:+ string_of_list_ascii l2
                        = string_of_list_ascii (l1 ++ l2)) as Happ.
  { induction l1 as [|a l1 IH]; intros l2; simpl; [reflexivity|]. now rewrite <- IH. }
  assert (forall l, String.length (string_of_list_ascii l) = length l) as Hlen.
  { induction l as [|a l IH]; simpl; [reflexivity|]. now rewrite IH. }
  split; [|split].
  - now rewrite Happ, take_drop, string_of_list_ascii_of_string.
  - rewrite Hlen, length_take. lia.
  - intros Hshort. rewrite drop_ge; [reflexivity|].
    rewrite <- (string_of_list_ascii_of_string s), Hlen in Hshort. exact Hshort.
Qed.

End ErrorLogLemmas.

(** * More on the rules and on the errors of a row *)

Section RuleShape.
Context `{PyRuntime}.

Lemma apply_rule_raises idx field value rule w e w' :
  _apply_rule idx field value rule w = (Raise e, w') ->
  w' = w
  /\ (rule_type rule = "regex"
      /\ (e = TypeError
          \/ exists p, e = ReError p /\ parameters rule !! "pattern" = Some (VStr p))
      \/ rule_type rule = "range" /\ e = OverflowError /\ py_float value = TooLarge).
Proof.
  unfold _apply_rule, ret, lift.
  destruct (String.eqb _ "not_null"); [discriminate|].
  destruct (String.eqb (rule_type rule) "range") eqn:Hrange.
  { apply String.eqb_eq in Hrange. unfold rule_range.
    destruct (py_float value); try discriminate. intros [= <- <-]. auto 10. }
  destruct (String.eqb (rule_type rule) "regex") eqn:Hregex.
  - apply String.eqb_eq in Hregex. unfold rule_regex.
    destruct (opt_truthy _); [|discriminate].
    destruct (parameters rule !! "pattern") as [[]|]; try (intros [= <- <-]; auto 10).
    destruct (re_compile s) eqn:Hc.
    + destruct (re_match _ _); discriminate.
    + intros [= <- <-]. split; [reflexivity|]. left. split; [assumption|]. right.
      now exists s.
  - destruct (String.eqb _ "date_range"); [discriminate|].
    destruct (String.eqb _ "lookup"); [|discriminate].
    unfold rule_lookup, bind, get_self, modify_self, ret.
    repeat match goal with
           | |- context [if ?x then _ else _] => destruct x
           end; simpl; discriminate.
Qed.


(** What holds of every error a rule can return on the cell of a schema
    field that is not null, and of the error for a null cell of a
    required field, holds of all the errors of a row. *)
Lemma validate_row_forall_cells (P : ValidationError -> Prop) idx row w errs w' :
  (forall m rule w1 e w2,
      m ∈ field_mappings (self w) -> rule ∈ validations m ->
      isna (row_get row (source_field m)) = false ->
      _apply_rule idx (source_field m) (row_get row (source_field m)) rule w1
      = (Ok (Some e), w2) -> P e) ->
  (forall m msg,
      m ∈ field_mappings (self w) -> required m = true ->
      isna (row_get row (source_field m)) = true ->
      P (mkValidationError idx (source_field m) (row_get row (source_field m))
           "REQUIRED_FIELD_MISSING" msg)) ->
  _validate_row idx row w = (Ok errs, w') ->
  Forall P errs.
Proof.
  intros Hrule Hreq. unfold _validate_row. rewrite bind_get_self.
  assert (forall m, m ∈ field_mappings (self w) -> m ∈ field_mappings (self w)) as Hsub by auto.
  revert Hsub. generalize (field_mappings (self w)) at 1 3 as mappings.
  assert (Forall P ([] : list ValidationError)) as Hnil by constructor.
  revert Hnil. generalize ([] : list ValidationError) as acc. intros acc Hacc mappings.
  revert acc Hacc w' . generalize w at 2 as w0.
  induction mappings as [|m mappings IH]; intros w0 acc Hacc w' Hsub; simpl.
  { now intros [= <- _]. }
  intros Hrun. apply bind_ok_inv in Hrun as (acc1 & w1 & Hfield & Hrest).
  eapply IH; [| |exact Hrest]; [|intros m' Hm'; apply Hsub; now right].
  clear Hrest IH.
  assert (m ∈ field_mappings (self w)) as Hm by (apply Hsub; left).
  unfold _validate_row_field in Hfield.
  destruct (required m) eqn:Hr, (isna (row_get row (source_field m))) eqn:Hna;
    simpl in Hfield.
  - injection Hfield as <- _. apply Forall_app. split; [assumption|]. repeat constructor.
    now apply Hreq.
  - clear Hr. revert acc Hacc w0 Hfield.
    assert (forall rule, rule ∈ validations m -> rule ∈ validations m) as Hrules by auto.
    revert Hrules. generalize (validations m) at 1 3 as rules.
    induction rules as [|rule rules IH]; intros Hrules acc Hacc w0; simpl.
    { now intros [= <- _]. }
    intros Hrun. apply bind_ok_inv in Hrun as (acc2 & w2 & Hone & Hrest).
    eapply IH; [| |exact Hrest]; [intros rule' Hrule'; apply Hrules; now right|].
    unfold _validate_row_rule in Hone.
    apply bind_ok_inv in Hone as ([e|] & w3 & Happly & Hret); injection Hret as <- _.
    + apply Forall_app. split; [assumption|]. repeat constructor.
      eapply (Hrule m rule); [exact Hm|apply Hrules; left|exact Hna|exact Happly].
    + assumption.
  - now injection Hfield as <- _.
  - clear Hr. revert acc Hacc w0 Hfield.
    assert (forall rule, rule ∈ validations m -> rule ∈ validations m) as Hrules by auto.
    revert Hrules. generalize (validations m) at 1 3 as rules.
    induction rules as [|rule rules IH]; intros Hrules acc Hacc w0; simpl.
    { now intros [= <- _]. }
    intros Hrun. apply bind_ok_inv in Hrun as (acc2 & w2 & Hone & Hrest).
    eapply IH; [| |exact Hrest]; [intros rule' Hrule'; apply Hrules; now right|].
    unfold _validate_row_rule in Hone.
    apply bind_ok_inv in Hone as ([e|] & w3 & Happly & Hret); injection Hret as <- _.
    + apply Forall_app. split; [assumption|]. repeat constructor.
      eapply (Hrule m rule); [exact Hm|apply Hrules; left|exact Hna|exact Happly].
    + assumption.
Qed.

Lemma kinds_of_not_required t : "REQUIRED_FIELD_MISSING" ∉ kinds_of t.
Proof.
  unfold kinds_of. intros Hk.
  repeat (destruct (String.eqb _ _));
    repeat (apply elem_of_cons in Hk as [Hk|Hk]; [discriminate Hk|]);
    now apply elem_of_nil in Hk.
Qed.

Lemma apply_rule_not_null_blank idx field value rule w e w' :
  _apply_rule idx field value rule w = (Ok (Some e), w') ->
  error_type e = "NOT_NULL" ->
  isna value = false -> strip_is_empty (py_str value) = true.
Proof.
  intros Hrun Hty Hna.
  pose proof (apply_rule_kind _ _ _ _ _ _ _ Hrun) as Hkind. rewrite Hty in Hkind.
  revert Hrun. unfold _apply_rule, ret.
  destruct (String.eqb (rule_type rule) "not_null") eqn:Hnn.
  - unfold rule_not_null. rewrite Hna. simpl.
    destruct (strip_is_empty (py_str value)); [reflexivity|discriminate].
  - exfalso. unfold kinds_of in Hkind. rewrite Hnn in Hkind.
    repeat (destruct (String.eqb _ _));
      repeat (apply elem_of_cons in Hkind as [Hkind|Hkind]; [discriminate Hkind|]);
      now apply elem_of_nil in Hkind.
Qed.

(** X24. Every error [_validate_row] returns for a row names a field of
    the schema, carries the row's index and shows the row's cell under
    that field.  The cell is null exactly when the error is
    [REQUIRED_FIELD_MISSING]: a null cell is never reported by a rule.
    In particular a [NOT_NULL] error always shows a cell that is not null
    and whose text is blank. *)
Theorem row_errors_show_cells idx row w errs w' e :
  _validate_row idx row w = (Ok errs, w') ->
  e ∈ errs ->
  row_index e = idx
  /\ (exists m, m ∈ field_mappings (self w) /\ field_name e = source_field m
                /\ field_value e = row_get row (source_field m))
  /\ (isna (field_value e) = true <-> error_type e = "REQUIRED_FIELD_MISSING")
  /\ (error_type e = "NOT_NULL" -> strip_is_empty (py_str (field_value e)) = true).
Proof.
  intros Hrun He. revert e He. apply Forall_forall.
  eapply validate_row_forall_cells; [| |exact Hrun].
  - intros m rule w1 e w2 Hm Hrule Hna Happly.
    destruct (apply_rule_error _ _ _ _ _ _ _ Happly) as (Hidx & Hname & Hval).
    pose proof (apply_rule_kind _ _ _ _ _ _ _ Happly) as Hkind.
    split; [exact Hidx|]. split; [now exists m|]. rewrite Hval. split; [split|].
    + rewrite Hna. discriminate.
    + intros Hty. rewrite Hty in Hkind. now apply kinds_of_not_required in Hkind.
    + intros Hty. eapply apply_rule_not_null_blank; eassumption.
  - intros m msg Hm Hreq Hna. simpl. split; [reflexivity|]. split; [now exists m|].
    split; [now split|discriminate].
Qed.

End RuleShape.

(** * Row errors and duplicate errors *)

Section Phases.
Context `{PyRuntime}.

Lemma validate_one_row_typed r :
  respects (keeps (fun w => Forall (fun e => error_type e ∈ row_error_kinds)
                                   (errors (self w))))
           (_validate_one r).
Proof.
  intros w Htyped. destruct (validate_one_reading r w) as [c Hone].
  cbv zeta in Hone.
  destruct (_validate_row r.1 r.2 w).1 as [[|e row_errors]|e].
  - rewrite Hone. exact Htyped.
  - destruct Hone as (_ & Hkinds & ->). simpl. apply Forall_app. now split.
  - rewrite Hone. exact Htyped.
Qed.

(** A run of [validate_dataframe] that returns, in its two phases: the
    validator [s0] after the loop over the rows, and the dataset phase
    from there. *)
Lemma validate_dataframe_phases df w v i w' :
  validate_dataframe df w = (Ok (v, i), w') ->
  exists s0,
    Forall (fun e => error_type e ∈ row_error_kinds) (errors s0)
    /\ errors_cover s0
    /\ demoted s0 (self w').
Proof.
  intros Hrun. unfold validate_dataframe in Hrun.
  rewrite !bind_modify_self in Hrun. simpl in Hrun. fold (reset_lists (self w)) in Hrun.
  set (w0 := mkWorld (heap w) (reset_lists (self w))) in Hrun.
  set (P := fun w : World =>
              Forall (fun e => error_type e ∈ row_error_kinds) (errors (self w))
              /\ errors_cover (self w)).
  assert (P w0) as HP0.
  { split; [constructor|]. intros idx. simpl. split.
    - intros Hin. now apply elem_of_nil in Hin.
    - intros (e & He & _). now apply elem_of_nil in He. }
  assert (forall w1 w2, lists_kept w1 w2 -> P w1 -> P w2) as Hkept.
  { intros w1 w2 (He & Hv & Hi) [Ht Hc]. split.
    - now rewrite He.
    - eapply errors_cover_ext; eassumption. }
  apply bind_ok_inv in Hrun as ([] & w1 & Hcols & Hrun).
  pose proof (validate_columns_lists df w0) as Hl1. rewrite Hcols in Hl1. simpl in Hl1.
  pose proof (Hkept _ _ Hl1 HP0) as HP1.
  apply bind_ok_inv in Hrun as (d & w1' & Hd & Hrun).
  assert (w1' = w1) as ->.
  { unfold get_frame in Hd. destruct (heap w1 !! df); now injection Hd. }
  apply bind_ok_inv in Hrun as ([] & w2 & Hrows & Hrun).
  assert (P w2) as [Ht2 Hc2].
  { assert (respects (keeps P) (for_each (df_rows d) _validate_one)) as Hloop.
    { apply respects_for_each; [typeclasses eauto|]. intros r w3 [Ht Hc]. split.
      - now apply validate_one_row_typed.
      - now apply validate_one_cover. }
    specialize (Hloop w1 HP1). now rewrite Hrows in Hloop. }
  apply bind_ok_inv in Hrun as ([] & w3 & Hglob & Hrun).
  pose proof (run_global_validations_demoted df w2) as Hdem. rewrite Hglob in Hdem.
  simpl in Hdem.
  exists (self w2). split; [exact Ht2|]. split; [exact Hc2|].
  match type of Hrun with
  | ?m w3 = _ => assert (respects lists_kept m) as Hrest
  end.
  { pose proof (select_rows_lists df). pose proof print_summary_lists. respects_auto. }
  specialize (Hrest w3). rewrite Hrun in Hrest. simpl in Hrest.
  eapply demoted_trans; [exact Hdem|]. now apply lists_kept_demoted.
Qed.

(** X25. When [validate_dataframe] has returned, its error list is the
    errors of row validation, followed by the [DUPLICATE] errors.  No
    row has two [DUPLICATE] errors, and no row has both a row error and a
    [DUPLICATE] error: a duplicate among rows that failed row validation
    is not reported. *)
Theorem row_errors_then_duplicates df w v i w' :
  validate_dataframe df w = (Ok (v, i), w') ->
  exists row_errors dup_errors,
    errors (self w') = row_errors ++ dup_errors
    /\ Forall (fun e => error_type e ∈ row_error_kinds) row_errors
    /\ Forall (fun e => error_type e = "DUPLICATE" /\ field_value e = VStr "multiple")
              dup_errors
    /\ NoDup (row_index <$> dup_errors)
    /\ forall e1 e2, e1 ∈ row_errors -> e2 ∈ dup_errors -> row_index e1 <> row_index e2.
Proof.
  intros Hrun.
  destruct (validate_dataframe_phases df w v i w' Hrun)
    as (s0 & Htyped & Hcover & added & new & _ & Herrs & Hidx & Hdup & Hnodup & Hfresh).
  exists (errors s0), new. split; [exact Herrs|]. split; [exact Htyped|].
  split; [exact Hdup|]. split; [now rewrite Hidx|].
  intros e1 e2 He1 He2 Heq.
  apply (Hfresh (row_index e2)).
  - rewrite <- Hidx. apply list_elem_of_fmap. now exists e2.
  - apply Hcover. exists e1. split; [exact He1|exact Heq].
Qed.

End Phases.

(** * A run does not depend on earlier runs *)

Lemma same_lists_refl s : same_lists s s.
Proof. unfold same_lists. auto 10. Qed.

Lemma same_lists_sym s1 s2 : same_lists s1 s2 -> same_lists s2 s1.
Proof. intros (? & ? & ? & ? & ?). now repeat split. Qed.

Lemma same_lists_trans s1 s2 s3 : same_lists s1 s2 -> same_lists s2 s3 -> same_lists s1 s3.
Proof. intros (? & ? & ? & ? & ?) (? & ? & ? & ? & ?). repeat split; congruence. Qed.

Lemma same_lists_set_cache c s : same_lists (set_lookup_cache c s) s.
Proof. unfold same_lists. simpl. auto 10. Qed.

Section CacheBlind.

Lemma cache_blind_ret {A} (a : A) : cache_blind (ret a).
Proof. intros w1 w2 Hs. simpl. auto. Qed.

Lemma cache_blind_raise {A} e : cache_blind (@raise A e).
Proof. intros w1 w2 Hs. simpl. auto. Qed.

Lemma cache_blind_lift {A} (r : result A) : cache_blind (lift r).
Proof. intros w1 w2 Hs. simpl. auto. Qed.

Lemma cache_blind_bind {A B} (m : M A) (k : A -> M B) :
  cache_blind m -> (forall a, cache_blind (k a)) -> cache_blind (bind m k).
Proof.
  intros Hm Hk w1 w2 Hs. unfold bind. destruct (Hm w1 w2 Hs) as (Hres & Hs' & Hh1 & Hh2).
  destruct (m w1) as [[a1|e1] w1'], (m w2) as [[a2|e2] w2']; simpl in *; try discriminate.
  - injection Hres as <-. destruct (Hk a1 w1' w2' Hs') as (? & ? & ? & ?).
    split; [assumption|]. split; [assumption|]. split; congruence.
  - injection Hres as <-. auto.
Qed.

Lemma cache_blind_for_each {A} (l : list A) (body : A -> M unit) :
  (forall x, cache_blind (body x)) -> cache_blind (for_each l body).
Proof.
  intros Hbody. induction l as [|x l IH]; simpl.
  - apply cache_blind_ret.
  - apply cache_blind_bind; auto.
Qed.

Lemma cache_blind_fold_loop {A B} (l : list A) (body : B -> A -> M B) acc :
  (forall b x, cache_blind (body b x)) -> cache_blind (fold_loop l body acc).
Proof.
  intros Hbody. revert acc. induction l as [|x l IH]; intros acc; simpl.
  - apply cache_blind_ret.
  - apply cache_blind_bind; auto.
Qed.

Lemma cache_blind_get_self {A} (proj : DataValidator -> A) :
  (forall s1 s2, same_lists s1 s2 -> proj s1 = proj s2) -> cache_blind (get_self proj).
Proof. intros Hproj w1 w2 Hs. unfold get_self. simpl. split; [f_equal|]; auto. Qed.

Lemma cache_blind_modify_self f :
  (forall s1 s2, same_lists s1 s2 -> same_lists (f s1) (f s2)) ->
  cache_blind (modify_self f).
Proof. intros Hf w1 w2 Hs. unfold modify_self. simpl. auto. Qed.

End CacheBlind.

Ltac cache_blind_auto :=
  repeat first
    [ solve [auto]
    | apply cache_blind_ret
    | apply cache_blind_raise
    | apply cache_blind_lift
    | apply cache_blind_get_self; intros ? ? (? & ? & ? & ? & ?); assumption
    | apply cache_blind_modify_self; intros ? ? (? & ? & ? & ? & ?);
      repeat split; simpl; congruence
    | apply cache_blind_bind; [|intros ?]
    | apply cache_blind_for_each; intros ?
    | apply cache_blind_fold_loop; intros ? ?
    | match goal with
      | |- cache_blind (if ?b then _ else _) => destruct b
      | |- cache_blind (match ?x with _ => _ end) => destruct x
      end ].

Section RowsBlind.
Context `{PyRuntime}.

Lemma rule_lookup_blind idx field value rule : cache_blind (rule_lookup idx field value rule).
Proof.
  intros w1 w2 Hs. unfold rule_lookup, bind, get_self, modify_self, ret. simpl.
  assert (forall c s, same_lists (set_lookup_cache c s) s) as Hset
    by (intros; apply same_lists_set_cache).
  destruct (bool_decide (_ ∈ dom (_lookup_cache (self w1))));
    destruct (bool_decide (_ ∈ dom (_lookup_cache (self w2))));
    destruct (_ && _); simpl;
    (split; [reflexivity|]; split; [|split; reflexivity]);
    eauto using same_lists_trans, same_lists_sym.
Qed.

Lemma apply_rule_blind idx field value rule : cache_blind (_apply_rule idx field value rule).
Proof.
  unfold _apply_rule. pose proof (rule_lookup_blind idx field value rule).
  cache_blind_auto.
Qed.

Lemma validate_row_blind idx row : cache_blind (_validate_row idx row).
Proof.
  unfold _validate_row, _validate_row_field, _validate_row_rule.
  pose proof apply_rule_blind. cache_blind_auto.
Qed.

Lemma validate_one_blind r : cache_blind (_validate_one r).
Proof.
  unfold _validate_one. pose proof validate_row_blind. cache_blind_auto.
Qed.

End RowsBlind.

Section DatasetBlind.
Context `{PyRuntime}.

Lemma demote_same fields idx s1 s2 :
  same_lists s1 s2 -> same_lists (demote fields idx s1) (demote fields idx s2).
Proof.
  intros (Hf & Hg & He & Hv & Hi). unfold demote. rewrite Hi.
  destruct (bool_decide (idx ∈ invalid_rows s2)); [now repeat split|].
  simpl. rewrite Hv. destruct (bool_decide (idx ∈ valid_rows s2)); simpl;
    unfold same_lists; simpl; rewrite ?Hf, ?Hg, ?He, ?Hv, ?Hi; auto 10.
Qed.

Lemma demote_all_same fields idxs s1 s2 :
  same_lists s1 s2 -> same_lists (demote_all fields idxs s1) (demote_all fields idxs s2).
Proof.
  revert s1 s2. induction idxs as [|idx idxs IH]; intros s1 s2 Hs; [exact Hs|].
  rewrite !demote_all_cons. apply IH. now apply demote_same.
Qed.

Lemma run_rules_same d rules s1 s2 :
  same_lists s1 s2 ->
  (run_rules d rules s1).1 = (run_rules d rules s2).1
  /\ same_lists (run_rules d rules s1).2 (run_rules d rules s2).2.
Proof.
  revert s1 s2. induction rules as [|rule rules IH]; intros s1 s2 Hs; simpl; [auto|].
  destruct (rule_duplicates d rule) as [[[fields idxs]|]|e]; simpl; auto.
  apply IH. now apply demote_all_same.
Qed.

Lemma select_rows_reading df d labels w :
  heap w !! df = Some d ->
  exists h,
    heap w ⊆ h
    /\ (select_rows df labels w).2 = mkWorld h (self w)
    /\ match (select_rows df labels w).1, selected d labels with
       | Ok l, Ok f => h !! l = Some f
       | Raise e, Raise e' => e = e'
       | _, _ => False
       end.
Proof.
  intros Hd. unfold select_rows, selected. destruct labels as [|label labels].
  - simpl. eexists. split; [apply fresh_insert_subseteq|]. split; [reflexivity|].
    apply lookup_insert_eq.
  - set (ls := label :: labels). unfold frame_loc, frame_copy.
    rewrite !bind_assoc, (bind_get_frame _ _ _ _ Hd), bind_assoc. unfold loc_.
    destruct (loc_rows (df_rows d) ls) as [rows|e] eqn:Hloc.
    + rewrite bind_lift_ok, bind_new_frame.
      erewrite bind_get_frame by apply lookup_insert_eq. simpl.
      eexists. split; [|split; [reflexivity|apply lookup_insert_eq]].
      etransitivity; apply fresh_insert_subseteq.
    + rewrite bind_lift_raise. simpl. exists (heap w).
      split; [reflexivity|]. split; [now destruct w|reflexivity].
Qed.

(** The end of [validate_dataframe], from the selection of the frames. *)
Lemma finish_reading df d w :
  heap w !! df = Some d ->
  let m :=
    (valid <- get_self valid_rows ;;
     valid_df <- select_rows df valid ;;
     invalid <- get_self invalid_rows ;;
     invalid_df <- select_rows df invalid ;;
     total <- get_frame df ;;
     n_valid <- get_frame valid_df ;;
     n_invalid <- get_frame invalid_df ;;
     _print_summary (df_len total) (df_len n_valid) (df_len n_invalid) ;;
     ret (valid_df, invalid_df)) in
  match m w with
  | (res, w') =>
      exists h,
        w' = mkWorld h (self w)
        /\ match res, split_frames d (self w) with
           | Ok (v, i), Ok (fv, fi) => h !! v = Some fv /\ h !! i = Some fi
           | Raise e, Raise e' => e = e'
           | _, _ => False
           end
  end.
Proof.
  intros Hd m. subst m. rewrite bind_get_self. unfold split_frames.
  destruct (select_rows_reading df d (valid_rows (self w)) w Hd) as (h1 & Hsub1 & Hw1 & Hsel1).
  unfold bind at 1.
  destruct (select_rows df (valid_rows (self w)) w) as [[v|e] w1]; simpl in Hw1, Hsel1;
    subst w1; destruct (selected d (valid_rows (self w))) as [fv|e']; try contradiction.
  2:{ exists h1. simpl. split; [reflexivity|exact Hsel1]. }
  rewrite bind_get_self. simpl self.
  set (w1 := mkWorld h1 (self w)).
  assert (heap w1 !! df = Some d) as Hd1 by exact (lookup_weaken _ _ _ _ Hd Hsub1).
  destruct (select_rows_reading df d (invalid_rows (self w)) w1 Hd1)
    as (h2 & Hsub2 & Hw2 & Hsel2).
  unfold bind at 1.
  destruct (select_rows df (invalid_rows (self w)) w1) as [[i|e] w2]; simpl in Hw2, Hsel2;
    subst w2; destruct (selected d (invalid_rows (self w))) as [fi|e']; try contradiction.
  2:{ exists h2. simpl. split; [reflexivity|exact Hsel2]. }
  set (w2 := mkWorld h2 (self w)).
  assert (heap w2 !! df = Some d) as Hd2 by exact (lookup_weaken _ _ _ _ Hd1 Hsub2).
  assert (heap w2 !! v = Some fv) as Hv by exact (lookup_weaken _ _ _ _ Hsel1 Hsub2).
  assert (heap w2 !! i = Some fi) as Hi by exact Hsel2.
  rewrite (bind_get_frame _ _ _ _ Hd2), (bind_get_frame _ _ _ _ Hv),
    (bind_get_frame _ _ _ _ Hi).
  unfold _print_summary, bind, raise, ret.
  destruct (decide (df_len d = 0%nat)); simpl; exists h2; auto.
Qed.

End DatasetBlind.

Section RunsAgree.
Context `{PyRuntime}.

Lemma split_frames_same d s1 s2 :
  same_lists s1 s2 -> split_frames d s1 = split_frames d s2.
Proof. intros (_ & _ & _ & Hv & Hi). unfold split_frames. now rewrite Hv, Hi. Qed.

Lemma bind_get_frame_none {B} df (k : DataFrame -> M B) w :
  heap w !! df = None -> bind (get_frame df) k w = (Raise ReferenceError, w).
Proof. intros Hd. unfold bind, get_frame. now rewrite Hd. Qed.

Lemma validate_dataframe_same df w1 w2 :
  heap w1 !! df = heap w2 !! df ->
  field_mappings (self w1) = field_mappings (self w2) ->
  global_validations (self w1) = global_validations (self w2) ->
  match validate_dataframe df w1, validate_dataframe df w2 with
  | (r1, w1'), (r2, w2') =>
      same_lists (self w1') (self w2')
      /\ match r1, r2 with
         | Ok (v1, i1), Ok (v2, i2) =>
             exists fv fi,
               heap w1' !! v1 = Some fv /\ heap w2' !! v2 = Some fv
               /\ heap w1' !! i1 = Some fi /\ heap w2' !! i2 = Some fi
         | Raise e1, Raise e2 => e1 = e2
         | _, _ => False
         end
  end.
Proof.
  intros Hh Hf Hg. unfold validate_dataframe. rewrite !bind_modify_self. simpl.
  set (w10 := mkWorld (heap w1) _). set (w20 := mkWorld (heap w2) _).
  assert (same_lists (self w10) (self w20)) as Hs0 by (unfold same_lists; simpl; auto).
  assert (heap w10 !! df = heap w20 !! df) as Hh0 by exact Hh.
  clearbody w10 w20. clear Hh Hf Hg w1 w2.
  unfold _validate_columns. rewrite !bind_assoc, !bind_get_self, !bind_assoc.
  destruct (heap w10 !! df) as [d|] eqn:Hd1; symmetry in Hh0.
  2:{ rewrite (bind_get_frame_none _ _ _ Hd1), (bind_get_frame_none _ _ _ Hh0). auto. }
  rewrite (bind_get_frame _ _ _ _ Hd1), (bind_get_frame _ _ _ _ Hh0).
  destruct Hs0 as (Hf0 & Hs0'). rewrite Hf0.
  assert (same_lists (self w10) (self w20)) as Hs0 by (split; assumption).
  destruct (decide (_ = ∅)) as [_|Hmissing].
  2:{ rewrite !bind_raise_l. auto. }
  rewrite !bind_ret_l, (bind_get_frame _ _ _ _ Hd1), (bind_get_frame _ _ _ _ Hh0).
  (* the loop over the rows *)
  destruct (cache_blind_for_each (df_rows d) _validate_one validate_one_blind w10 w20 Hs0)
    as (Hres & Hs1 & Hh1 & Hh2).
  destruct (for_each (df_rows d) _validate_one w10) as [[[]|e1] w11] eqn:Hrun1;
    destruct (for_each (df_rows d) _validate_one w20) as [[[]|e2] w21] eqn:Hrun2;
    simpl in Hres, Hs1, Hh1, Hh2; try discriminate.
  2:{ rewrite (bind_raise _ _ _ _ _ Hrun1), (bind_raise _ _ _ _ _ Hrun2).
      split; [exact Hs1|congruence]. }
  rewrite (bind_eq _ _ _ _ _ Hrun1), (bind_eq _ _ _ _ _ Hrun2).
  assert (heap w11 !! df = Some d) as Hd11 by congruence.
  assert (heap w21 !! df = Some d) as Hd21 by congruence.
  clear Hrun1 Hrun2 Hres Hh1 Hh2 Hd1 Hh0 Hs0 Hs0' Hf0.
  (* the dataset phase *)
  destruct (run_global_validations_reading df d w11 Hd11) as (h1 & Hsub1 & Hglob1).
  destruct (run_global_validations_reading df d w21 Hd21) as (h2 & Hsub2 & Hglob2).
  assert (global_validations (self w11) = global_validations (self w21)) as Hg1 by apply Hs1.
  rewrite <- Hg1 in Hglob2.
  destruct (run_rules_same d (global_validations (self w11)) _ _ Hs1) as (Hres & Hs2).
  destruct (run_rules d (global_validations (self w11)) (self w11)) as [[[]|e1] s12];
    destruct (run_rules d (global_validations (self w11)) (self w21)) as [[[]|e2] s22];
    simpl in Hres, Hs2, Hglob1, Hglob2; try discriminate.
  2:{ rewrite (bind_raise _ _ _ _ _ Hglob1), (bind_raise _ _ _ _ _ Hglob2).
      split; [exact Hs2|congruence]. }
  rewrite (bind_eq _ _ _ _ _ Hglob1), (bind_eq _ _ _ _ _ Hglob2).
  (* the selection of the frames *)
  set (w12 := mkWorld h1 s12). set (w22 := mkWorld h2 s22).
  assert (heap w12 !! df = Some d) as Hd12 by exact (lookup_weaken _ _ _ _ Hd11 Hsub1).
  assert (heap w22 !! df = Some d) as Hd22 by exact (lookup_weaken _ _ _ _ Hd21 Hsub2).
  pose proof (finish_reading df d w12 Hd12) as Hfin1.
  pose proof (finish_reading df d w22 Hd22) as Hfin2.
  cbv zeta in Hfin1, Hfin2.
  rewrite (split_frames_same d (self w12) (self w22) Hs2) in Hfin1.
  match type of Hfin1 with
  | match ?m w12 with _ => _ end => destruct (m w12) as [r1 w1']
  end.
  match type of Hfin2 with
  | match ?m w22 with _ => _ end => destruct (m w22) as [r2 w2']
  end.
  destruct Hfin1 as (h1' & -> & Hr1). destruct Hfin2 as (h2' & -> & Hr2).
  split; [exact Hs2|].
  destruct (split_frames d (self w22)) as [[fv fi]|e];
    destruct r1 as [[v1 i1]|e1]; try contradiction;
    destruct r2 as [[v2 i2]|e2]; try contradiction.
  - exists fv, fi. simpl. tauto.
  - congruence.
Qed.

(** X26. A validator can be used again: what [validate_dataframe] does
    depends only on the schema, on the dataset rules and on the frame.
    Two runs on the same frame by validators with the same configuration
    end alike, whatever their lists and their lookup caches held before:
    both raise the same exception or both return, with frames of the
    same content, and their three lists are the same afterwards. *)
Theorem validate_dataframe_forgets_history df w1 w2 :
  heap w1 !! df = heap w2 !! df ->
  field_mappings (self w1) = field_mappings (self w2) ->
  global_validations (self w1) = global_validations (self w2) ->
  let r1 := validate_dataframe df w1 in
  let r2 := validate_dataframe df w2 in
  errors (self r1.2) = errors (self r2.2)
  /\ valid_rows (self r1.2) = valid_rows (self r2.2)
  /\ invalid_rows (self r1.2) = invalid_rows (self r2.2)
  /\ match r1.1, r2.1 with
     | Ok (v1, i1), Ok (v2, i2) =>
         exists fv fi,
           heap r1.2 !! v1 = Some fv /\ heap r2.2 !! v2 = Some fv
           /\ heap r1.2 !! i1 = Some fi /\ heap r2.2 !! i2 = Some fi
     | Raise e1, Raise e2 => e1 = e2
     | _, _ => False
     end.
Proof.
  intros Hh Hf Hg r1 r2. subst r1 r2.
  pose proof (validate_dataframe_same df w1 w2 Hh Hf Hg) as Hsame.
  destruct (validate_dataframe df w1) as [r1 w1'], (validate_dataframe df w2) as [r2 w2'].
  destruct Hsame as ((_ & _ & He & Hv & Hi) & Hres). simpl. auto.
Qed.

End RunsAgree.

(** * The range rule *)

Section RangeRule.
Context `{PyRuntime}.

(** X27. The range rule, under bounds that, where supplied, are numbers.
    A value that [float] rejects with [ValueError] or [TypeError] yields
    one [NUMERIC] error.  A value that [float] reads as [x] yields one
    [RANGE] error when [x] is strictly below the supplied minimum or
    strictly above the supplied maximum, and no error otherwise.  In both
    cases the world is left as it was.  An integer too large for a float
    makes the rule raise [OverflowError]. *)
Theorem range_rule_semantics idx field value rule w :
  rule_type rule = "range" ->
  bound_ok (parameters rule !! "min") ->
  bound_ok (parameters rule !! "max") ->
  match py_float value with
  | TooLarge => _apply_rule idx field value rule w = (Raise OverflowError, w)
  | NotANumber =>
      exists e, _apply_rule idx field value rule w = (Ok (Some e), w)
                /\ error_type e = "NUMERIC"
  | Number x =>
      if out_of_range x (range_bound rule "min") (range_bound rule "max")
      then exists e, _apply_rule idx field value rule w = (Ok (Some e), w)
                     /\ error_type e = "RANGE"
      else _apply_rule idx field value rule w = (Ok None, w)
  end.
Proof.
  intros Hty Hmin Hmax. rewrite apply_rule_range by assumption.
  unfold rule_range, range_check, out_of_range, range_bound.
  destruct (py_float value) as [x| |]; [|eauto|reflexivity].
  rewrite (lower_bound_check x _ Hmin).
  destruct (from_option (float_lt x) false _); simpl; [eauto|].
  rewrite (upper_bound_check x _ Hmax).
  destruct (from_option _ false _); simpl; eauto.
Qed.

End RangeRule.

(** * Runs of the further properties on the examples *)

Section MoreRuns.
#[local] Existing Instance Demo.runtime.
#[local] Existing Instance DemoConfig.int_parser.

(** The errors of the batch of the examples carry labels of the batch,
    none of them the label of a valid row. *)
Lemma valid_rows_have_no_errors_witness :
  let w' := (validate_dataframe 1%positive (Demo.world Demo.batch)).2 in
  (forall e, e ∈ errors (self w') -> row_index e ∈ df_index Demo.batch)
  /\ (NoDup (df_index Demo.batch) ->
      forall e, e ∈ errors (self w') -> row_index e ∉ valid_rows (self w')).
Proof.
  apply (valid_rows_have_no_errors 1%positive Demo.batch (Demo.world Demo.batch)
           4%positive 6%positive).
  - reflexivity.
  - vm_compute. reflexivity.
Defined.



(** The [DUPLICATE] error of row 0 of the batch of the examples is
    recorded, and its type is one of the nine. *)
Lemma recorded_error_types_witness :
  let w' := (validate_dataframe 1%positive (Demo.world Demo.batch)).2 in
  let e := mkValidationError 0 "line_id,batch_number" (VStr "multiple") "DUPLICATE"
             "Duplicate combination of ['line_id', 'batch_number']" in
  e ∈ errors (self w') /\
  error_type e ∈ ["REQUIRED_FIELD_MISSING"; "NOT_NULL"; "RANGE"; "NUMERIC"; "REGEX";
                  "DATE_RANGE"; "DATE_FORMAT"; "LOOKUP"; "DUPLICATE"].
Proof.
  intros w' e.
  assert (e ∈ errors (self w')) as He.
  { vm_compute. apply elem_of_cons. right. apply elem_of_cons. now left. }
  split; [exact He|].
  exact (recorded_error_types 1%positive (Demo.world Demo.batch) e He).
Defined.

(** The report of the run on the batch of the examples names the rows 1, 0
    and 2, the rows of the invalid frame. *)
Lemma error_report_witness :
  let run := validate_dataframe 1%positive (Demo.world Demo.batch) in
  exists rep w2 di drep,
    get_error_report run.2 = (Ok rep, w2)
    /\ heap w2 !! 6%positive = Some di
    /\ heap w2 !! rep = Some drep
    /\ forall idx : Z,
         idx ∈ df_index di
         <-> exists r, r ∈ df_rows drep /\ r.2 !! "row_index" = Some (VInt idx).
Proof.
  apply (error_report_covers_invalid_frame 1%positive Demo.batch (Demo.world Demo.batch)
           4%positive 6%positive).
  - reflexivity.
  - vm_compute. reflexivity.
Defined.

(** The range rule of the temperature field, read from its element. *)
Lemma parameters_read_attributes_witness :
  let r := mkParsedRule (Some "range") (Demo.dict [("min", VInt 0); ("max", VInt 250)]) in
  parse_validation DemoConfig.temperature_validation = Returns r
  /\ parsed_rule_type r = elem_get DemoConfig.temperature_validation "rule"
  /\ forall k v, parsed_parameters r !! k = Some v
       <-> exists s, k <> "rule" /\ attrib DemoConfig.temperature_validation !! k = Some s
             /\ parameter_reading (elem_get DemoConfig.temperature_validation "rule") k s
                = Returns v.
Proof.
  intros r.
  assert (parse_validation DemoConfig.temperature_validation = Returns r) as Hr
    by (vm_compute; reflexivity).
  split; [exact Hr|].
  exact (parameters_read_attributes DemoConfig.temperature_validation r Hr).
Defined.

(** The document of the examples gives the schema of the examples, field
    by field. *)
Lemma field_mappings_follow_document_witness :
  exists mappings,
    get_field_mappings DemoConfig.root = Returns mappings
    /\ mapM mapping_of mappings = Some Demo.schema
    /\ exists fields, find DemoConfig.root "FieldMappings" = Some fields
         /\ Forall2 (fun fe m =>
                parsed_source_field m = elem_get fe "source"
                /\ parsed_target_field m = elem_get fe "target"
                /\ parsed_data_type m = elem_get fe "dataType"
                /\ (exists r, elem_get fe "required" = Some r
                              /\ parsed_required m = bool_decide (py_lower r = "true"))
                /\ Forall2 (fun ve r => parse_validation ve = Returns r)
                           (findall fe "Validation") (parsed_validations m))
              (findall fields "Field") mappings.
Proof.
  destruct (get_field_mappings DemoConfig.root) as [mappings|e] eqn:Hms.
  - exists mappings. split; [reflexivity|].
    split; [revert Hms; vm_compute; intros [= <-]; reflexivity|].
    exact (field_mappings_follow_document DemoConfig.root mappings Hms).
  - exfalso. revert Hms. vm_compute. discriminate.
Defined.

(** The bounds of the temperature rule of the document are numbers. *)
Lemma config_parameters_typed_witness :
  bound_ok (parameters Demo.temperature_rule !! "min")
  /\ bound_ok (parameters Demo.temperature_rule !! "max").
Proof.
  destruct (get_field_mappings DemoConfig.root) as [mappings|e] eqn:Hms.
  - destruct (mappings !! 2%nat) as [pm|] eqn:Hpm.
    + refine (proj1 (config_parameters_typed DemoConfig.root mappings pm
                       Demo.temperature_field Demo.temperature_rule Hms _ _ _) eq_refl).
      * eapply list_elem_of_lookup_2. exact Hpm.
      * revert Hms Hpm. vm_compute. intros [= <-] [= <-]. reflexivity.
      * apply list_elem_of_here.
    + exfalso. revert Hms Hpm. vm_compute. intros [= <-]. discriminate.
  - exfalso. revert Hms. vm_compute. discriminate.
Defined.

(** The dataset rule of the document of the examples. *)
Lemma global_rules_read_attributes_witness :
  get_global_validations DemoConfig.root = Returns Demo.dataset_rules
  /\ exists globals_elem,
       find DemoConfig.root "GlobalValidations" = Some globals_elem
       /\ Forall2 (fun ve rule =>
              rule !! "rule_type"
              = Some (match attrib ve !! "rule_type" with
                      | Some s => VStr s
                      | None => opt_str (attrib ve !! "rule")
                      end)
              /\ rule !! "rule" = None
              /\ forall k, k <> "rule" -> k <> "rule_type" ->
                   rule !! k = VStr <$> attrib ve !! k)
            (findall globals_elem "Validation") Demo.dataset_rules.
Proof.
  assert (get_global_validations DemoConfig.root = Returns Demo.dataset_rules) as Hrules
    by (vm_compute; reflexivity).
  split; [exact Hrules|].
  exact (global_rules_read_attributes DemoConfig.root Demo.dataset_rules Hrules).
Defined.

(** A duplicate check on the column [serial], which the batch lacks. *)
Lemma configured_rules_witness :
  let rules := [global_rule_of (DemoConfig.duplicate_validation "line_id,serial")] in
  let e := KeyError ["serial"] in
  (_run_global_validations 1%positive (DemoConfig.world rules)).1 = Raise e
  /\ (e = KeyError ["fields"]
      \/ exists missing, e = KeyError missing /\ missing <> []
                         /\ forall f, f ∈ missing -> f ∉ df_columns Demo.batch).
Proof.
  intros rules e.
  assert (_run_global_validations 1%positive (DemoConfig.world rules)
          = (Raise e, DemoConfig.world rules)) as Hrun by (vm_compute; reflexivity).
  split; [now rewrite Hrun|].
  refine (configured_rules_raise_key_errors DemoConfig.other_root 1%positive Demo.batch
            (DemoConfig.world rules) e (DemoConfig.world rules) _ _ _ Hrun).
  - reflexivity.
  - reflexivity.
  - discriminate.
Defined.

(** On the database that raises in the fourth call, the third insert
    fails after the first batch of two was committed: the load raises and
    the first two records stay. *)
Lemma load_valid_data_prefix_witness :
  let run := @load_valid_data DemoLoad.flaky DemoLoad.processor DemoLoad.records "a.csv" [] in
  run.1 = Failed (DatabaseError
                    (Execute (InsertRecord "Production.QualityData")
                       (params_of "a.csv" (DemoLoad.record "LINE003" "B003" 152
                                             (Demo.degrees 52)))))
  /\ durable run.2 = take 2 (record_inserts DemoLoad.processor "a.csv" DemoLoad.records)
  /\ exists m,
       (m <= df_len DemoLoad.records)%nat
       /\ durable run.2
          = durable [] ++ take m (record_inserts DemoLoad.processor "a.csv" DemoLoad.records)
       /\ match run.1 with
          | Done n =>
              if df_empty DemoLoad.records then n = 0 /\ m = 0%nat
              else n = Z.of_nat (df_len DemoLoad.records) /\ m = df_len DemoLoad.records
                   /\ pending run.2 = []
          | Failed e =>
              df_empty DemoLoad.records = false
              /\ (batch_size DemoLoad.processor <> 0
                  -> Z.of_nat m mod batch_size DemoLoad.processor = 0)
              /\ (batch_size DemoLoad.processor = 0 -> m = 0%nat)
          end.
Proof.
  intros run. split; [vm_compute; reflexivity|]. split; [vm_compute; reflexivity|].
  exact (@load_valid_data_durable_prefix DemoLoad.flaky DemoLoad.processor DemoLoad.records
           "a.csv" [] eq_refl).
Defined.

(** On the database that never raises, the three records are loaded. *)
Lemma load_valid_data_returns_witness :
  exists log',
    @load_valid_data DemoLoad.steady DemoLoad.processor DemoLoad.records "a.csv" []
    = (Done 3, log')
    /\ durable log' = durable [] ++ record_inserts DemoLoad.processor "a.csv" DemoLoad.records
    /\ pending log' = [].
Proof.
  apply (@load_valid_data_returns DemoLoad.steady DemoLoad.processor DemoLoad.records
           "a.csv" []).
  - reflexivity.
  - discriminate.
  - intros r k Hr Hk. simpl in Hr. unfold record_columns in Hk.
    repeat (apply elem_of_cons in Hr as [->|Hr];
            [repeat (apply elem_of_cons in Hk as [->|Hk]; [now eexists|]);
             now apply elem_of_nil in Hk|]).
    now apply elem_of_nil in Hr.
  - reflexivity.
  - reflexivity.
Defined.

(** With a batch size of 0 the load of the three records raises and
    leaves the tables as they were. *)
Lemma batch_size_zero_witness :
  exists e log',
    @load_valid_data DemoLoad.steady DemoLoad.stuck_processor DemoLoad.records "a.csv" []
    = (Failed e, log')
    /\ durable log' = durable [].
Proof.
  apply (@batch_size_zero_loads_nothing DemoLoad.steady DemoLoad.stuck_processor
           DemoLoad.records "a.csv" []); reflexivity.
Defined.

(** Row 1 of the batch of the examples is too hot: its one error shows
    the cell of the temperature field. *)
Lemma row_errors_show_cells_witness :
  let row := Demo.record "LINE002" "B002" "PROD-B2" (Demo.degrees 300) (Demo.degrees 50) in
  let w := Demo.world Demo.batch in
  let e := mkValidationError 1 "temperature_c" (Demo.degrees 300) "RANGE"
             "temperature_c=300.0 exceeds maximum 250" in
  (_validate_row 1 row w).1 = Ok [e]
  /\ row_index e = 1
  /\ (exists m, m ∈ field_mappings (self w) /\ field_name e = source_field m
                /\ field_value e = row_get row (source_field m))
  /\ (isna (field_value e) = true <-> error_type e = "REQUIRED_FIELD_MISSING")
  /\ (error_type e = "NOT_NULL" -> strip_is_empty (py_str (field_value e)) = true).
Proof.
  intros row w e.
  assert ((_validate_row 1 row w).1 = Ok [e]) as Hrun by (vm_compute; reflexivity).
  split; [exact Hrun|].
  destruct (_validate_row 1 row w) as [r w'] eqn:Hrw. simpl in Hrun. subst r.
  apply (row_errors_show_cells 1 row w [e] w' e Hrw). apply list_elem_of_here.
Defined.

(** On the batch of the examples: one row error, then the two duplicate
    errors. *)
Lemma row_errors_then_duplicates_witness :
  let w' := (validate_dataframe 1%positive (Demo.world Demo.batch)).2 in
  exists row_errors dup_errors,
    errors (self w') = row_errors ++ dup_errors
    /\ Forall (fun e => error_type e ∈ row_error_kinds) row_errors
    /\ Forall (fun e => error_type e = "DUPLICATE" /\ field_value e = VStr "multiple")
              dup_errors
    /\ NoDup (row_index <$> dup_errors)
    /\ forall e1 e2, e1 ∈ row_errors -> e2 ∈ dup_errors -> row_index e1 <> row_index e2.
Proof.
  apply (row_errors_then_duplicates 1%positive (Demo.world Demo.batch) 4%positive 6%positive).
  vm_compute. reflexivity.
Defined.

(** The validator of the examples, run a second time on the same batch:
    the second run starts from the lists, the cache and the store the
    first one left. *)
Lemma validate_again_witness :
  let w1 := Demo.world Demo.batch in
  let w2 := (validate_dataframe 1%positive w1).2 in
  let r1 := validate_dataframe 1%positive w1 in
  let r2 := validate_dataframe 1%positive w2 in
  errors (self r1.2) = errors (self r2.2)
  /\ valid_rows (self r1.2) = valid_rows (self r2.2)
  /\ invalid_rows (self r1.2) = invalid_rows (self r2.2)
  /\ match r1.1, r2.1 with
     | Ok (v1, i1), Ok (v2, i2) =>
         exists fv fi,
           heap r1.2 !! v1 = Some fv /\ heap r2.2 !! v2 = Some fv
           /\ heap r1.2 !! i1 = Some fi /\ heap r2.2 !! i2 = Some fi
     | Raise e1, Raise e2 => e1 = e2
     | _, _ => False
     end.
Proof.
  intros w1 w2.
  apply (validate_dataframe_forgets_history 1%positive w1 w2); vm_compute; reflexivity.
Defined.

(** The range rule on a temperature of 300 degrees against the range
    0..250. *)
Lemma range_rule_witness :
  exists e,
    _apply_rule 1 "temperature_c" (Demo.degrees 300) Demo.temperature_rule
                (Demo.world Demo.batch)
    = (Ok (Some e), Demo.world Demo.batch)
    /\ error_type e = "RANGE".
Proof.
  exact (range_rule_semantics 1 "temperature_c" (Demo.degrees 300) Demo.temperature_rule
           (Demo.world Demo.batch) eq_refl I I).
Defined.

(** The scenario of the specification: ["abc"] against a range rule. *)
Example range_rule_abc :
  exists e,
    _apply_rule 1 "temperature_c" (VStr "abc") Demo.temperature_rule (Demo.world Demo.batch)
    = (Ok (Some e), Demo.world Demo.batch)
    /\ error_type e = "NUMERIC".
Proof. eexists. split; reflexivity. Qed.

End MoreRuns.
